(** * A shallow embedding of gitimpl.py

    The object store (read_object, write_object), the tree builder
    (write_tree), the pkt-line demultiplexer and the pack entry loop of the
    clone command, with the delta resolver it contains.

    Python values are modelled as follows: [bytes] is a list of 8-bit bytes,
    [str] a list of Unicode code points, an exception is a value of [exn]
    carried by the [result] monad, and the directory .git/objects is a finite
    map from (directory name, file name) to the bytes of the file.  zlib is
    an interface with the one law the program relies on; hashlib.sha1 is
    written out after FIPS 180-4.  Failures of the file system other than a
    missing or unreadable file (no space, no permission to write) are left
    out, and so is what the program prints, the warnings of the tree walk
    apart.

    The file has three parts: the program, the notions its properties are
    stated with, and the properties. *)

From Stdlib Require Import ZArith List String Ascii Lia Bool.
From Stdlib.Strings Require Import Byte.
From Stdlib Require Import DecimalString DecimalNat.
From stdpp Require Import gmap list sorting.
Import ListNotations.

#[local] Set Warnings "-register-all".

(** ** Python values *)

Abbreviation bytes := (list byte).
Abbreviation str := (list Z).

#[global] Instance byte_eq_dec : EqDecision byte := Byte.byte_eq_dec.

Definition byte_to_Z (b : byte) : Z := Z.of_N (Byte.to_N b).

Definition byte_of_Z (z : Z) : byte :=
  match Byte.of_N (Z.to_N (z mod 256)) with
  | Some b => b
  | None => x00
  end.

Definition NUL : byte := x00.
Definition SP : byte := " "%byte.

(** [B "text"] is the Python literal b"text", [U "text"] the literal "text". *)
Definition B (s : string) : bytes := list_byte_of_string s.
Definition U (s : string) : str := map byte_to_Z (list_byte_of_string s).

Inductive exn : Type :=
  | FileNotFoundError
  | zlib_error
  | ValueError
  | IndexError
  | UnicodeDecodeError
  | UnicodeEncodeError
  | struct_error
  | OSError.

Inductive result (A : Type) : Type :=
  | Ok (a : A)
  | Raise (e : exn).
Arguments Ok {A} a.
Arguments Raise {A} e.

#[global] Instance result_ret : MRet result := fun A a => Ok a.
#[global] Instance result_bind : MBind result := fun A B f m =>
  match m with
  | Ok a => f a
  | Raise e => Raise e
  end.

#[global] Instance result_fmap : FMap result := fun A B f m =>
  match m with
  | Ok a => Ok (f a)
  | Raise e => Raise e
  end.

(** *** Indexing and slicing *)

(** [bs[i]] for an index that is never negative in the program. *)
Definition index (bs : bytes) (i : nat) : result Z :=
  match bs !! i with
  | Some b => Ok (byte_to_Z b)
  | None => Raise IndexError
  end.

(** The position a slice bound stands for in a sequence of length [len]. *)
Definition slice_bound (len i : Z) : nat :=
  Z.to_nat (if (i <? 0)%Z then Z.max (i + len) 0 else Z.min i len).

(** [l[lo:hi]] and [l[lo:]]. *)
Definition slice {A} (l : list A) (lo hi : Z) : list A :=
  let len := Z.of_nat (length l) in
  take (slice_bound len hi - slice_bound len lo) (drop (slice_bound len lo) l).

Definition slice_from {A} (l : list A) (lo : Z) : list A :=
  drop (slice_bound (Z.of_nat (length l)) lo) l.

(** *** bytes.split with a one-byte separator *)

(** [bs.split(sep)]: every occurrence of [sep] cuts, empty pieces are kept. *)
Fixpoint split_all (sep : byte) (bs : bytes) : list bytes :=
  match bs with
  | [] => [[]]
  | c :: rest =>
      if Byte.eqb c sep then [] :: split_all sep rest
      else match split_all sep rest with
           | piece :: pieces => (c :: piece) :: pieces
           | [] => [[c]]
           end
  end.

(** [bs.split(sep, maxsplit=1)]: one piece when [sep] does not occur, else
    the bytes before and after its first occurrence. *)
Fixpoint split_once (sep : byte) (bs : bytes) : list bytes :=
  match bs with
  | [] => [[]]
  | c :: rest =>
      if Byte.eqb c sep then [[]; rest]
      else match split_once sep rest with
           | [piece; after] => [c :: piece; after]
           | _ => [bs]
           end
  end.

(** Tuple unpacking [a, b = pieces]. *)
Definition unpack2 {A} (pieces : list A) : result (A * A) :=
  match pieces with
  | [a; b] => Ok (a, b)
  | _ => Raise ValueError
  end.

(** *** Decimal rendering, f"{n}".encode() *)

Definition decimal (n : nat) : bytes :=
  list_byte_of_string (NilZero.string_of_uint (Nat.to_uint n)).

(** *** UTF-8, str.encode() and bytes.decode() *)

Definition cont (z : Z) : byte := byte_of_Z (Z.lor 128 (Z.land z 63)).

Definition encode_char (c : Z) : result bytes :=
  if (c <? 0)%Z then Raise UnicodeEncodeError
  else if (c <? 128)%Z then Ok [byte_of_Z c]
  else if (c <? 2048)%Z then
    Ok [byte_of_Z (Z.lor 192 (Z.shiftr c 6)); cont c]
  else if ((55296 <=? c) && (c <=? 57343))%Z then Raise UnicodeEncodeError
  else if (c <? 65536)%Z then
    Ok [byte_of_Z (Z.lor 224 (Z.shiftr c 12)); cont (Z.shiftr c 6); cont c]
  else if (c <? 1114112)%Z then
    Ok [byte_of_Z (Z.lor 240 (Z.shiftr c 18)); cont (Z.shiftr c 12);
        cont (Z.shiftr c 6); cont c]
  else Raise UnicodeEncodeError.

Fixpoint encode (s : str) : result bytes :=
  match s with
  | [] => Ok []
  | c :: rest =>
      bc ← encode_char c;
      br ← encode rest;
      Ok (bc ++ br)
  end.

Definition in_range (lo hi z : Z) : bool := ((lo <=? z) && (z <=? hi))%Z.

(** bytes.decode(): the well-formed UTF-8 byte sequences only (no overlong
    forms, no surrogates, nothing above U+10FFFF). *)
Fixpoint decode_values (bs : list Z) : result str :=
  match bs with
  | [] => Ok []
  | b0 :: r0 =>
      if (b0 <? 128)%Z then s ← decode_values r0; Ok (b0 :: s)
      else if in_range 194 223 b0 then
        match r0 with
        | b1 :: r1 =>
            if in_range 128 191 b1
            then s ← decode_values r1;
                 Ok (Z.lor (Z.shiftl (Z.land b0 31) 6) (Z.land b1 63) :: s)
            else Raise UnicodeDecodeError
        | _ => Raise UnicodeDecodeError
        end
      else if in_range 224 239 b0 then
        match r0 with
        | b1 :: b2 :: r2 =>
            if in_range (if (b0 =? 224)%Z then 160 else 128)
                        (if (b0 =? 237)%Z then 159 else 191) b1
               && in_range 128 191 b2
            then s ← decode_values r2;
                 Ok (Z.lor (Z.shiftl (Z.land b0 15) 12)
                       (Z.lor (Z.shiftl (Z.land b1 63) 6) (Z.land b2 63)) :: s)
            else Raise UnicodeDecodeError
        | _ => Raise UnicodeDecodeError
        end
      else if in_range 240 244 b0 then
        match r0 with
        | b1 :: b2 :: b3 :: r3 =>
            if in_range (if (b0 =? 240)%Z then 144 else 128)
                        (if (b0 =? 244)%Z then 143 else 191) b1
               && in_range 128 191 b2 && in_range 128 191 b3
            then s ← decode_values r3;
                 Ok (Z.lor (Z.shiftl (Z.land b0 7) 18)
                       (Z.lor (Z.shiftl (Z.land b1 63) 12)
                          (Z.lor (Z.shiftl (Z.land b2 63) 6) (Z.land b3 63)))
                     :: s)
            else Raise UnicodeDecodeError
        | _ => Raise UnicodeDecodeError
        end
      else Raise UnicodeDecodeError
  end.

Definition decode (bs : bytes) : result str := decode_values (map byte_to_Z bs).

(** *** bytes.hex() and bytes.fromhex() *)

Definition hex_digit (n : Z) : Z :=
  if (n <? 10)%Z then 48 + n else 87 + n.

Definition hexlify (bs : bytes) : str :=
  flat_map (fun b => [hex_digit (Z.shiftr (byte_to_Z b) 4);
                      hex_digit (Z.land (byte_to_Z b) 15)]) bs.

(** The value of a hexadecimal digit character, upper or lower case. *)
Definition digit_value (c : Z) : option Z :=
  if in_range 48 57 c then Some (c - 48)%Z
  else if in_range 97 102 c then Some (c - 87)%Z
  else if in_range 65 70 c then Some (c - 55)%Z
  else None.

(** Py_ISSPACE: space, \t, \n, \v, \f, \r. *)
Definition is_space (c : Z) : bool := (c =? 32)%Z || in_range 9 13 c.

(** bytes.fromhex: white space is skipped before each pair of digits. *)
Fixpoint fromhex (s : str) : result bytes :=
  match s with
  | [] => Ok []
  | hi :: rest =>
      if is_space hi then fromhex rest
      else match rest with
           | [] => Raise ValueError
           | lo :: rest' =>
               match digit_value hi, digit_value lo with
               | Some h, Some l =>
                   bs ← fromhex rest';
                   Ok (byte_of_Z (16 * h + l) :: bs)
               | _, _ => Raise ValueError
               end
           end
  end.

(** *** int(bs, 16) *)

Fixpoint skip_space (s : list Z) : list Z :=
  match s with
  | c :: rest => if is_space c then skip_space rest else s
  | [] => []
  end.

(** The digits of the literal with single underscores between them: the
    number of digits, their value and the characters left; [None] on a
    doubled or trailing underscore. *)
Fixpoint scan_digits (prev_underscore : bool) (digits : nat) (acc : Z)
    (s : list Z) : option (nat * Z * list Z) :=
  match s with
  | [] => if prev_underscore then None else Some (digits, acc, [])
  | c :: rest =>
      if (c =? 95)%Z then
        if prev_underscore then None else scan_digits true digits acc rest
      else match digit_value c with
           | Some d => scan_digits false (S digits) (16 * acc + d)%Z rest
           | None =>
               if prev_underscore then None else Some (digits, acc, s)
           end
  end.

(** int(bs, 16) on a bytes object: white space around the literal, a sign,
    a 0x prefix and underscores between digits are accepted. *)
Definition int16 (bs : bytes) : result Z :=
  let s1 := skip_space (map byte_to_Z bs) in
  let '(negative, s2) :=
    match s1 with
    | 43%Z :: r => (false, r)
    | 45%Z :: r => (true, r)
    | _ => (false, s1)
    end in
  let s3 :=
    match s2 with
    | 48%Z :: x :: r =>
        if ((x =? 120) || (x =? 88))%Z
        then match r with 95%Z :: r' => r' | _ => r end
        else s2
    | _ => s2
    end in
  match s3 with
  | 95%Z :: _ => Raise ValueError
  | _ =>
      match scan_digits false 0 0 s3 with
      | Some (S _, v, rest) =>
          match skip_space rest with
          | [] => Ok (if negative then (- v)%Z else v)
          | _ => Raise ValueError
          end
      | _ => Raise ValueError
      end
  end.

(** *** struct.unpack("!I", bs) *)

Definition be_value (bs : bytes) : Z :=
  fold_left (fun acc b => (256 * acc + byte_to_Z b)%Z) bs 0%Z.

Definition unpack_be32 (bs : bytes) : result Z :=
  if decide (length bs = 4) then Ok (be_value bs) else Raise struct_error.

(** ** hashlib.sha1, after FIPS 180-4 *)

Module SHA1.

Definition w32 (x : Z) : Z := (x mod 4294967296)%Z.

Definition rotl (n x : Z) : Z :=
  w32 (Z.lor (Z.shiftl x n) (Z.shiftr x (32 - n))).

(** The [n] low bytes of [v], most significant first. *)
Fixpoint be_bytes (n : nat) (v : Z) : list Z :=
  match n with
  | O => []
  | S n' => (Z.shiftr v (8 * Z.of_nat n') mod 256)%Z :: be_bytes n' v
  end.

Definition pad (msg : list Z) : list Z :=
  let len := Z.of_nat (length msg) in
  msg ++ [128%Z] ++ repeat 0%Z (Z.to_nat ((55 - len) mod 64))
      ++ be_bytes 8 (8 * len).

Fixpoint words (bs : list Z) : list Z :=
  match bs with
  | a :: b :: c :: d :: rest =>
      (((a * 256 + b) * 256 + c) * 256 + d)%Z :: words rest
  | _ => []
  end.

Record state : Type := State { ha : Z; hb : Z; hc : Z; hd : Z; he : Z }.

Definition init : state :=
  State 1732584193 4023233417 2562383102 271733878 3285377520.

Definition f (t : nat) (b c d : Z) : Z :=
  if (t <? 20)%nat then Z.lor (Z.land b c) (Z.land (Z.lxor b 4294967295) d)
  else if (t <? 40)%nat then Z.lxor (Z.lxor b c) d
  else if (t <? 60)%nat then
    Z.lor (Z.lor (Z.land b c) (Z.land b d)) (Z.land c d)
  else Z.lxor (Z.lxor b c) d.

Definition k (t : nat) : Z :=
  if (t <? 20)%nat then 1518500249
  else if (t <? 40)%nat then 1859775393
  else if (t <? 60)%nat then 2400959708
  else 3395469782.

(** Round [t]: the head of [w] is W(t); the window slides by one word. *)
Definition round (t : nat) (sw : state * list Z) : state * list Z :=
  let '(State a b c d e, w) := sw in
  let wt := nth 0 w 0%Z in
  let next :=
    rotl 1 (Z.lxor (Z.lxor (nth 13 w 0%Z) (nth 8 w 0%Z))
                   (Z.lxor (nth 2 w 0%Z) wt)) in
  (State (w32 (rotl 5 a + f t b c d + e + k t + wt)) a (rotl 30 b) c d,
   tail w ++ [next]).

Fixpoint rounds (n t : nat) (sw : state * list Z) : state * list Z :=
  match n with
  | O => sw
  | S n' => rounds n' (S t) (round t sw)
  end.

Definition block (h : state) (w : list Z) : state :=
  let '(State a b c d e, _) := rounds 80 0 (h, w) in
  State (w32 (ha h + a)) (w32 (hb h + b)) (w32 (hc h + c))
        (w32 (hd h + d)) (w32 (he h + e)).

Fixpoint blocks (n : nat) (h : state) (ws : list Z) : state :=
  match n with
  | O => h
  | S n' => blocks n' (block h (take 16 ws)) (drop 16 ws)
  end.

Definition digest (msg : bytes) : bytes :=
  let ws := words (pad (map byte_to_Z msg)) in
  let h := blocks (length ws / 16) init ws in
  map byte_of_Z (flat_map (be_bytes 4) [ha h; hb h; hc h; hd h; he h]).

Definition hexdigest (msg : bytes) : str := hexlify (digest msg).

End SHA1.

(** ** zlib

    The compressor's output is only ever consumed by the decompressor, so the
    model takes any codec with the round-trip law.  [decompress] is
    zlib.decompress ([None]: zlib.error); [decompressobj bs] is the pair
    (dec.decompress(bs), dec.unused_data) of a fresh decompressobj. *)

Class Zlib : Type := {
  compress : bytes -> bytes;
  decompress : bytes -> option bytes;
  decompressobj : bytes -> option (bytes * bytes);
  decompress_compress : forall bs, decompress (compress bs) = Some bs
}.

(** ** The object store *)

(** The files under <parent>/.git/objects, by directory and file name. *)
Abbreviation objects := (gmap (str * str) bytes).

Definition object_path (sha : str) : str * str := (take 2 sha, drop 2 sha).

Definition read_bytes (fs : objects) (p : str * str) : result bytes :=
  match fs !! p with
  | Some bs => Ok bs
  | None => Raise FileNotFoundError
  end.

Definition zlib_decompress `{Zlib} (bs : bytes) : result bytes :=
  match decompress bs with
  | Some raw => Ok raw
  | None => Raise zlib_error
  end.

Definition read_object `{Zlib} (fs : objects) (sha : str)
  : result (str * bytes) :=
  let p := object_path sha in
  bs ← read_bytes fs p;
  raw ← zlib_decompress bs;
  '(head, content) ← unpack2 (split_once NUL raw);
  '(ty, _) ← unpack2 (split_all SP head);
  ty' ← decode ty;
  Ok (ty', content).

(** The bytes that are hashed and compressed. *)
Definition object_bytes (tyb : bytes) (content : bytes) : bytes :=
  let header := tyb ++ B " " ++ decimal (length content) ++ [NUL] in
  header ++ content.

Definition write_object `{Zlib} (fs : objects) (ty : str) (content : bytes)
  : result (str * objects) :=
  tyb ← encode ty;
  let store := object_bytes tyb content in
  let hash := SHA1.hexdigest store in
  let compressed := compress store in
  Ok (hash, <[object_path hash := compressed]> fs).

(** ** The tree builder *)

(** A working directory: a file with its bytes ([None] when reading it
    raises), a directory with its children as iterdir lists them, or a
    directory that iterdir cannot list (no permission, or gone since
    is_dir was asked). *)
Inductive node : Type :=
  | File (content : option bytes)
  | Dir (children : list (str * node))
  | Unlistable.

(** [a < b] on str: lexicographic on code points. *)
Fixpoint str_ltb (a b : str) : bool :=
  match a, b with
  | _, [] => false
  | [], _ :: _ => true
  | x :: a', y :: b' =>
      if (x <? y)%Z then true
      else if (y <? x)%Z then false
      else str_ltb a' b'
  end.

(** sorted(...) on paths of one directory: a stable sort on the name. *)
Fixpoint insert_by_name {A} (x : str * A) (l : list (str * A))
  : list (str * A) :=
  match l with
  | [] => [x]
  | y :: l' =>
      if str_ltb (fst y) (fst x) then y :: insert_by_name x l'
      else x :: l
  end.

Definition sorted_by_name {A} (l : list (str * A)) : list (str * A) :=
  foldr insert_by_name [] l.

Definition startswith (s pre : str) : bool :=
  bool_decide (take (length pre) s = pre).

(** The condition of the comprehension in toEntry. *)
Definition listed (exclude_git : bool) (name : str) : bool :=
  negb (exclude_git && bool_decide (name = U ".git"))
  && negb (startswith name (U ".")).

(** The children the comprehension keeps, in the order of the walk. *)
Definition visible {A} (exclude_git : bool) (l : list (str * A))
  : list (str * A) :=
  filter (fun nc => Is_true (listed exclude_git (fst nc))) (sorted_by_name l).

Definition entry : Type := str * str * str.

Definition entry_bytes (e : entry) : result bytes :=
  let '(m, n, h) := e in
  mb ← encode m;
  nb ← encode n;
  hb ← fromhex h;
  Ok (mb ++ B " " ++ nb ++ [NUL] ++ hb).

Fixpoint join_entries (es : list entry) : result bytes :=
  match es with
  | [] => Ok []
  | e :: es' =>
      b ← entry_bytes e;
      bs ← join_entries es';
      Ok (b ++ bs)
  end.

(** What the walk threads: the object directory and the names for which a
    warning was printed. *)
Record walk : Type := Walk { store : objects; warned : list str }.

Definition sentinel : str := repeat 48%Z 40.

(** The list comprehension of toEntry: the calls run left to right. *)
Fixpoint run_entries (calls : list (str * (walk -> result (entry * walk))))
    (w : walk) : result (list entry * walk) :=
  match calls with
  | [] => Ok ([], w)
  | (_, call) :: calls' =>
      '(e, w1) ← call w;
      '(es, w2) ← run_entries calls' w1;
      Ok (e :: es, w2)
  end.

Fixpoint toEntry `{Zlib} (p : node) (name : str) (exclude_git : bool)
    (w : walk) : result (entry * walk) :=
  match p with
  | Dir children =>
      let calls :=
        map (fun nc : str * node => (fst nc, toEntry (snd nc) (fst nc) false))
            children in
      '(entries, w1) ← run_entries (visible exclude_git calls) w;
      b_entries ← join_entries entries;
      '(hash, fs) ← write_object (store w1) (U "tree") b_entries;
      Ok ((U "40000", name, hash), Walk fs (warned w1))
  | Unlistable => Raise OSError
  | File content =>
      let attempt :=
        bs ← (match content with
              | Some bs => Ok bs
              | None => Raise OSError
              end);
        write_object (store w) (U "blob") bs in
      match attempt with
      | Ok (hash, fs) => Ok ((U "100644", name, hash), Walk fs (warned w))
      | Raise _ =>
          Ok ((U "100644", name, sentinel), Walk (store w) (warned w ++ [name]))
      end
  end.

(** write_tree: the walk starts at the current directory with exclude_git
    set; [root_name] is the name of that directory. *)
Definition write_tree `{Zlib} (root : node) (root_name : str) (w : walk)
  : result (str * walk) :=
  '(e, w') ← toEntry root root_name true w;
  Ok (snd e, w').

(** ** The clone command: from the fetch response to the object store *)

(** *** pkt-line demultiplexing *)

(** The while loop over pack_bytes.  A negative line_len (int accepts a
    sign) can leave pack_bytes unchanged, so the loop need not end: [None]
    means that it still runs after [fuel] iterations. *)
Fixpoint pkt_lines (fuel : nat) (pack_bytes : bytes) (pack_lines : list bytes)
  : option (result (list bytes)) :=
  match pack_bytes with
  | [] => Some (Ok pack_lines)
  | _ :: _ =>
      match fuel with
      | O => None
      | S fuel' =>
          match int16 (take 4 pack_bytes) with
          | Raise e => Some (Raise e)
          | Ok line_len =>
              if (line_len =? 0)%Z then Some (Ok pack_lines)
              else pkt_lines fuel' (slice_from pack_bytes line_len)
                     (pack_lines ++ [slice pack_bytes 4 line_len])
          end
      end
  end.

(** b"".join(l[1:] for l in pack_lines[1:])[8:] *)
Definition pack_stream (pack_lines : list bytes) : bytes :=
  drop 8 (concat (map (drop 1) (drop 1 pack_lines))).

(** *** The two variable-length integers *)

(** The loop shared by next_size_type and next_size: [prev] is bs[i - 1]
    and [rest] is bs[i:]. *)
Fixpoint size_loop (prev size off : Z) (rest : bytes) : result (Z * bytes) :=
  if (Z.land prev 128 =? 0)%Z then Ok (size, rest)
  else match rest with
       | [] => Raise IndexError
       | b :: rest' =>
           size_loop (byte_to_Z b)
             (size + Z.shiftl (Z.land (byte_to_Z b) 127) off) (off + 7) rest'
       end.

Definition type_map (ty : Z) : str :=
  if (ty =? 1)%Z then U "commit"
  else if (ty =? 2)%Z then U "tree"
  else if (ty =? 3)%Z then U "blob"
  else if (ty =? 4)%Z then U "tag"
  else if (ty =? 6)%Z then U "ofs_delta"
  else if (ty =? 7)%Z then U "ref_delta"
  else U "unknown".

Definition next_size_type (bs : bytes) : result (str * Z * bytes) :=
  b0 ← index bs 0;
  let ty := Z.shiftr (Z.land b0 112) 4 in
  let size := Z.land b0 15 in
  '(size, rest) ← size_loop b0 size 4 (drop 1 bs);
  Ok (type_map ty, size, rest).

Definition next_size (bs : bytes) : result (Z * bytes) :=
  b0 ← index bs 0;
  size_loop b0 (Z.land b0 127) 7 (drop 1 bs).

(** *** The delta resolver *)

(** One of the two for loops of a copy op: for each [i] of the range whose
    bit [first_bit + i] is set in the op byte, the byte at data_ptr is or-ed
    in at bit [8 * i]. *)
Fixpoint read_field (content : bytes) (first_bit : Z) (range : list Z)
    (acc : Z) (data_ptr : nat) : result (Z * nat) :=
  match range with
  | [] => Ok (acc, data_ptr)
  | i :: range' =>
      c0 ← index content 0;
      if (Z.land c0 (Z.shiftl 1 (first_bit + i)) =? 0)%Z
      then read_field content first_bit range' acc data_ptr
      else
        b ← index content data_ptr;
        read_field content first_bit range'
          (Z.lor acc (Z.shiftl b (i * 8))) (S data_ptr)
  end.

(** One pass of the while loop over a non-empty content: the content left
    and the bytes appended to target_content. *)
Definition delta_op (base_content content : bytes) : result (bytes * bytes) :=
  c0 ← index content 0;
  let is_copy := Z.land c0 128 in
  if (is_copy =? 0)%Z then
    let size := c0 in
    Ok (slice_from content (size + 1), slice content 1 (size + 1))
  else
    '(offset, data_ptr) ← read_field content 0 [0; 1; 2; 3]%Z 0 1;
    '(size, data_ptr) ← read_field content 4 [0; 1; 2]%Z 0 data_ptr;
    Ok (drop data_ptr content, slice base_content offset (offset + size)).

Fixpoint delta_loop (fuel : nat) (base_content content target_content : bytes)
  : option (result bytes) :=
  match content with
  | [] => Some (Ok target_content)
  | _ :: _ =>
      match fuel with
      | O => None
      | S fuel' =>
          match delta_op base_content content with
          | Raise e => Some (Raise e)
          | Ok (content', piece) =>
              delta_loop fuel' base_content content' (target_content ++ piece)
          end
      end
  end.

(** Lines 392 to 412: the two sizes are read and dropped, then the ops run.
    Every op consumes at least its own byte, so [length content] iterations
    are enough (lemma delta_loop_fuel below) and the last case is dead. *)
Definition resolve_delta (base_content content : bytes) : result bytes :=
  '(_, content) ← next_size content;
  '(_, content) ← next_size content;
  match delta_loop (length content) base_content content [] with
  | Some r => r
  | None => Raise IndexError
  end.

(** *** The entry loop *)

Definition zlib_decompressobj `{Zlib} (bs : bytes) : result (bytes * bytes) :=
  match decompressobj bs with
  | Some r => Ok r
  | None => Raise zlib_error
  end.

Definition direct_kinds : list str := [U "commit"; U "tree"; U "blob"; U "tag"].

(** One pass of the for loop: the store and the pack bytes left, and the
    kind read from the entry header. *)
Definition pack_entry `{Zlib} (fs : objects) (pack_file : bytes)
  : result (objects * bytes * str) :=
  '(ty, _, pack_file) ← next_size_type pack_file;
  if bool_decide (ty ∈ direct_kinds) then
    '(content, pack_file) ← zlib_decompressobj pack_file;
    '(_, fs) ← write_object fs ty content;
    Ok (fs, pack_file, ty)
  else if bool_decide (ty = U "ref_delta") then
    let base_sha := hexlify (take 20 pack_file) in
    let pack_file := drop 20 pack_file in
    '(content, pack_file) ← zlib_decompressobj pack_file;
    '(_, base_content) ← read_object fs base_sha;
    target_content ← resolve_delta base_content content;
    '(_, fs) ← write_object fs (U "blob") target_content;
    Ok (fs, pack_file, ty)
  else Ok (fs, pack_file, ty).

(** for _ in range(n_objs); [seen] lists the kinds of the entries consumed
    so far, oldest first. *)
Fixpoint pack_entries `{Zlib} (n : nat) (fs : objects) (pack_file : bytes)
    (seen : list str) : result (objects * bytes * list str) :=
  match n with
  | O => Ok (fs, pack_file, seen)
  | S n' =>
      '(fs, pack_file, ty) ← pack_entry fs pack_file;
      pack_entries n' fs pack_file (seen ++ [ty])
  end.

(** Lines 347 to 413, from the response body to the store. *)
Definition unpack_response `{Zlib} (fuel : nat) (fs : objects) (body : bytes)
  : option (result (objects * bytes * list str)) :=
  match pkt_lines fuel body [] with
  | None => None
  | Some (Raise e) => Some (Raise e)
  | Some (Ok pack_lines) =>
      let pack_file := pack_stream pack_lines in
      Some (n_objs ← unpack_be32 (take 4 pack_file);
            let pack_file := drop 4 pack_file in
            pack_entries (Z.to_nat n_objs) fs pack_file [])
  end.

(** ** The clone command: ref discovery and the fetch request *)

Definition LF : byte := x0a.

Definition bytes_startswith (s pre : bytes) : bool :=
  bool_decide (take (length pre) s = pre).

Definition bytes_endswith (s suf : bytes) : bool :=
  bool_decide (length suf <= length s /\ drop (length s - length suf) s = suf).

(** refs[k] = v on a dict, which keeps the order in which its keys came. *)
Fixpoint dict_set (d : list (str * str)) (k v : str) : list (str * str) :=
  match d with
  | [] => [(k, v)]
  | (k', v') :: d' =>
      if bool_decide (k' = k) then (k, v) :: d' else (k', v') :: dict_set d' k v
  end.

Definition piece (pieces : list bytes) (i : nat) : result bytes :=
  match pieces !! i with
  | Some p => Ok p
  | None => Raise IndexError
  end.

(** The dict comprehension of lines 320 to 326, line by line. *)
Fixpoint parse_ref_lines (lines : list bytes) (refs : list (str * str))
  : result (list (str * str)) :=
  match lines with
  | [] => Ok refs
  | bs0 :: lines' =>
      let bs1 := drop 4 bs0 in
      if bool_decide (bs1 <> []) && negb (bytes_startswith bs1 (B "#")) then
        let bs2 := hd [] (split_all NUL bs1) in
        if bool_decide (bs2 <> []) then
          let bs :=
            split_all SP
              (if bytes_endswith bs2 (B "HEAD") then drop 4 bs2 else bs2) in
          name ← piece bs 1;
          name ← decode name;
          sha ← piece bs 0;
          sha ← decode sha;
          parse_ref_lines lines' (dict_set refs name sha)
        else parse_ref_lines lines' refs
      else parse_ref_lines lines' refs
  end.

Definition parse_refs (response : bytes) : result (list (str * str)) :=
  parse_ref_lines (split_all LF response) [].

(** b"".join(b"0032want " + ref.encode() + b"\n" for ref in refs.values()) *)
Fixpoint join_wants (shas : list str) : result bytes :=
  match shas with
  | [] => Ok []
  | ref :: shas' =>
      r ← encode ref;
      rest ← join_wants shas';
      Ok ((B "0032want " ++ r ++ [LF]) ++ rest)
  end.

(** The body of the fetch request, lines 334 to 338. *)
Definition fetch_body (refs : list (str * str)) : result bytes :=
  wants ← join_wants (map snd refs);
  Ok (B "0011command=fetch0001000fno-progress" ++ wants
      ++ B "0009done" ++ [LF] ++ B "0000").

(** ** The clone command: the tree of HEAD *)

(** Lines 429 and 430: the commit behind the hash of HEAD, here
    [head_sha], and the characters 5 to 45 of its contents. *)
Definition head_tree `{Zlib} (fs : objects) (head_sha : str) : result str :=
  '(_, commit) ← read_object fs head_sha;
  decode (slice commit 5 45).

(** ** ls-tree *)

(** One pass of the while loop of ls-tree: the item read and the contents
    left. *)
Definition tree_item (contents : bytes) : result (entry * bytes) :=
  '(mode, contents) ← unpack2 (split_once SP contents);
  '(name, contents) ← unpack2 (split_once NUL contents);
  let sha := take 20 contents in
  let contents := drop 20 contents in
  mode ← decode mode;
  name ← decode name;
  Ok ((mode, name, hexlify sha), contents).

Fixpoint tree_items (fuel : nat) (contents : bytes) (items : list entry)
  : option (result (list entry)) :=
  match contents with
  | [] => Some (Ok items)
  | _ :: _ =>
      match fuel with
      | O => None
      | S fuel' =>
          match tree_item contents with
          | Raise e => Some (Raise e)
          | Ok (item, contents') => tree_items fuel' contents' (items ++ [item])
          end
      end
  end.

(** ls-tree --name-only: the names printed, one per line.  Every pass
    consumes at least the space and the NUL, so [length contents] passes
    are enough (lemma tree_items_fuel below) and the last case is dead. *)
Definition ls_tree `{Zlib} (fs : objects) (tree_sha : str) : result (list str) :=
  '(_, contents) ← read_object fs tree_sha;
  items ← match tree_items (length contents) contents [] with
          | Some r => r
          | None => Raise IndexError
          end;
  Ok (map (fun item : entry => snd (fst item)) items).

(** ** commit-tree *)

(** The contents joined by commit-tree: the three encodings run in the
    order of the list. *)
Definition commit_contents (tree_sha commit_sha message : str) : result bytes :=
  t ← encode tree_sha;
  p ← encode commit_sha;
  m ← encode message;
  Ok (concat [B "tree " ++ t ++ [LF];
              B "parent " ++ p ++ [LF];
              B "author ggzor <ggzor@example.com> 1714599041 -0600" ++ [LF];
              B "committer ggzor <ggzor@example.com> 1714599041 -0600"
                ++ [LF; LF];
              m;
              [LF]]).

Definition commit_tree `{Zlib} (fs : objects) (tree_sha commit_sha message : str)
  : result (str * objects) :=
  contents ← commit_contents tree_sha commit_sha message;
  write_object fs (U "commit") contents.

(** ** The clone command: render_tree

    The working tree lives in the file system, and so does the object
    directory that render_tree reads while it writes.  The file system is
    an interface: its state, the paths, dir / name, the two calls that
    change it, and the object files that a state holds. *)

Class Worktree : Type := {
  files : Type;
  path : Type;
  child : path -> str -> path;
  mkdir : path -> files -> result files;
  write_bytes : path -> bytes -> files -> result files;
  stored : files -> objects
}.

(** The head of one pass of the while loop: mode, name and hash cut off
    the tree, nothing decoded yet. *)
Definition render_item (tree : bytes) : result (bytes * bytes * str * bytes) :=
  '(mode, tree) ← unpack2 (split_once SP tree);
  '(name, tree) ← unpack2 (split_once NUL tree);
  let sha := hexlify (take 20 tree) in
  let tree := drop 20 tree in
  Ok (mode, name, sha, tree).

(** The while loop of render_tree; [render] is render_tree itself, for the
    entries of mode 40000.  [None] stands for a run that is not over when
    the fuel is. *)
Fixpoint render_entries `{Zlib} `{Worktree}
    (render : files -> path -> str -> option (result files))
    (fuel : nat) (t : files) (dir : path) (tree : bytes)
  : option (result files) :=
  match tree with
  | [] => Some (Ok t)
  | _ :: _ =>
      match fuel with
      | O => None
      | S fuel' =>
          match render_item tree with
          | Raise e => Some (Raise e)
          | Ok (mode, name, sha, tree') =>
              if bool_decide (mode = B "40000") then
                match decode name with
                | Raise e => Some (Raise e)
                | Ok n =>
                    match render t (child dir n) sha with
                    | Some (Ok t') => render_entries render fuel' t' dir tree'
                    | r => r
                    end
                end
              else if bool_decide (mode = B "100644") then
                match ('(_, content) ← read_object (stored t) sha;
                       n ← decode name;
                       write_bytes (child dir n) content t) with
                | Raise e => Some (Raise e)
                | Ok t' => render_entries render fuel' t' dir tree'
                end
              else render_entries render fuel' t dir tree'
          end
      end
  end.

(** render_tree: [depth] bounds the nesting of the calls, [None] standing
    for a nesting that goes deeper (Python gives up at its recursion
    limit); the loop of one call gets the length of its tree, which is
    enough for it. *)
Fixpoint render_tree `{Zlib} `{Worktree} (depth : nat) (t : files) (dir : path)
    (sha : str) : option (result files) :=
  match depth with
  | O => None
  | S depth' =>
      match mkdir dir t with
      | Raise e => Some (Raise e)
      | Ok t1 =>
          match read_object (stored t1) sha with
          | Raise e => Some (Raise e)
          | Ok (_, tree) =>
              render_entries (render_tree depth') (length tree) t1 dir tree
          end
      end
  end.

(** ** A concrete codec

    The bytes are stored uncompressed, each behind a marker byte, and a zero
    byte ends the stream.  It is an instance of the interface, used where a
    statement is evaluated on concrete bytes. *)

Module Plain.

Definition deflate (bs : bytes) : bytes :=
  flat_map (fun b => [x01; b]) bs ++ [x00].

Fixpoint inflate (bs : bytes) : option (bytes * bytes) :=
  match bs with
  | x00 :: unused => Some ([], unused)
  | x01 :: b :: rest =>
      match inflate rest with
      | Some (out, unused) => Some (b :: out, unused)
      | None => None
      end
  | _ => None
  end.

Definition codec : Zlib.
Proof.
  refine {| compress := deflate;
            decompress := fun bs => fst <$> inflate bs;
            decompressobj := inflate |}.
  intros bs. unfold deflate.
  induction bs as [|b bs IH]; simpl; [reflexivity|].
  simpl in IH. destruct (inflate (flat_map (fun b => [x01; b]) bs ++ [x00]))
    as [[out unused]|]; [|discriminate].
  simpl in *. congruence.
Defined.

End Plain.

(** ** A concrete file system

    The object files, and the list of the files written so far with their
    paths; directories need no making.  It is an instance of the interface,
    used where a statement is evaluated on concrete bytes. *)

Module Listed.

Definition worktree : Worktree :=
  {| files := objects * list (list str * bytes);
     path := list str;
     child := fun dir name => dir ++ [name];
     mkdir := fun _ t => Ok t;
     write_bytes := fun p content t => Ok (t.1, t.2 ++ [(p, content)]);
     stored := fst |}.

End Listed.

(** * Notions used in the statements *)

(** An ASCII digit. *)
Definition is_digit (b : byte) : Prop := (48 <= byte_to_Z b <= 57)%Z.

(** One of the characters 0 to 9 and a to f. *)
Definition is_lower_hex (c : Z) : bool := in_range 48 57 c || in_range 97 102 c.

(** A size as it is laid out: every byte but the last has its high bit set. *)
Inductive is_varint : bytes -> Prop :=
  | varint_last (b : byte) :
      Z.land (byte_to_Z b) 128 = 0%Z -> is_varint [b]
  | varint_more (b : byte) (bs : bytes) :
      Z.land (byte_to_Z b) 128 <> 0%Z -> is_varint bs -> is_varint (b :: bs).

(** The op stream alone: what resolve_delta computes once the two sizes
    are gone. *)
Definition run_ops (base_content ops : bytes) : result bytes :=
  match delta_loop (length ops) base_content ops [] with
  | Some r => r
  | None => Raise IndexError
  end.

(** The base of the delta scenario. *)
Definition fox : bytes := B "The quick brown fox".

(** The declared sizes 19 and 20, then three ops.  The byte 0x91 is a copy
    op with one offset byte and one size byte: Copy{offset=4,size=5} is
    91 04 05 and Copy{offset=10,size=9} is 91 0a 09.  The byte 0x05 is an
    insert op of five literal bytes. *)
Definition fox_delta : bytes :=
  [x13; x14] ++ [x91; x04; x05] ++ [x05] ++ B "slow " ++ [x91; x0a; x09].

(** [a <= b] on names. *)
Definition str_le (a b : str) : Prop := str_ltb b a = false.

Definition by_name {A} (x y : str * A) : Prop := str_le x.1 y.1.

(** The results of a list of computations, or the first exception. *)
Fixpoint collect {A} (rs : list (result A)) : result (list A) :=
  match rs with
  | [] => Ok []
  | r :: rs' =>
      a ← r;
      rest ← collect rs';
      Ok (a :: rest)
  end.

(** The entry toEntry returns for a node, computed from the node alone. *)
Fixpoint tree_entry (p : node) (name : str) : result entry :=
  match p with
  | File (Some bs) =>
      Ok (U "100644", name, SHA1.hexdigest (object_bytes (B "blob") bs))
  | File None => Ok (U "100644", name, sentinel)
  | Dir children =>
      entries ←
        collect (map snd
          (visible false
             (map (fun nc : str * node => (nc.1, tree_entry nc.2 nc.1))
                  children)));
      b_entries ← join_entries entries;
      Ok (U "40000", name, SHA1.hexdigest (object_bytes (B "tree") b_entries))
  | Unlistable => Raise OSError
  end.

(** The components of an entry (mode, name, hash). *)
Definition entry_mode (e : entry) : str := fst (fst e).
Definition entry_name (e : entry) : str := snd (fst e).
Definition entry_hash (e : entry) : str := snd e.

Definition is_ok {A} (r : result A) : bool :=
  match r with
  | Ok _ => true
  | Raise _ => false
  end.

(** Every name in the tree can be encoded (no lone surrogate in it). *)
Fixpoint names_ok (p : node) : bool :=
  match p with
  | File _ => true
  | Dir children =>
      forallb (fun nc : str * node => is_ok (encode nc.1) && names_ok nc.2)
              children
  | Unlistable => true
  end.

(** Every directory of the tree can be listed. *)
Fixpoint listable (p : node) : bool :=
  match p with
  | File _ => true
  | Dir children => forallb (fun nc : str * node => listable nc.2) children
  | Unlistable => false
  end.

(** Two listings of one directory: the same children under the same names,
    in any order, at every level. *)
Inductive same_dir : node -> node -> Prop :=
  | same_file (content : option bytes) :
      same_dir (File content) (File content)
  | same_listing (children relisted children' : list (str * node)) :
      children ≡ₚ relisted ->
      Forall2 (fun a b => a.1 = b.1 /\ same_dir a.2 b.2) relisted children' ->
      same_dir (Dir children) (Dir children')
  | same_unlistable : same_dir Unlistable Unlistable.

(** No directory of the tree holds two children of one name. *)
Inductive distinct_names : node -> Prop :=
  | distinct_file (content : option bytes) : distinct_names (File content)
  | distinct_dir (children : list (str * node)) :
      NoDup (map fst children) ->
      Forall (fun nc => distinct_names nc.2) children ->
      distinct_names (Dir children)
  | distinct_unlistable : distinct_names Unlistable.

(** One entry of a tree object as it is laid out: the mode, a space, the
    name, a NUL, the twenty bytes of the hash. *)
Definition tree_row (mode name raw : bytes) : bytes :=
  mode ++ [SP] ++ name ++ [NUL] ++ raw.

(** The mode of a child: 100644 for a file, 40000 for a directory. *)
Definition mode_bytes (p : node) : bytes :=
  match p with
  | File _ => B "100644"
  | _ => B "40000"
  end.

(** The twenty bytes that stand for a file: the digest of its blob, or
    zeros when it cannot be read. *)
Definition file_raw (content : option bytes) : bytes :=
  match content with
  | Some bs => SHA1.digest (object_bytes (B "blob") bs)
  | None => repeat x00 20
  end.

(** The row of a child in the tree of its directory: its mode, its name in
    UTF-8, and the twenty bytes whose hexadecimal text is the hash of the
    child's own object. *)
Definition row_of (nc : str * node) (row : bytes) : Prop :=
  exists (name_b raw : bytes) (e : entry),
    encode nc.1 = Ok name_b /\
    tree_entry nc.2 nc.1 = Ok e /\
    entry_hash e = hexlify raw /\ length raw = 20 /\
    row = tree_row (mode_bytes nc.2) name_b raw.

(** A hash as write_object returns it: forty lowercase hexadecimal digits. *)
Definition is_hash (sha : str) : Prop :=
  length sha = 40 /\ Forall (fun c => is_lower_hex c = true) sha.

(** The four lowercase hexadecimal digits of a length. *)
Definition hex4_digits (d3 d2 d1 d0 : Z) : bytes :=
  map (fun d => byte_of_Z (hex_digit d)) [d3; d2; d1; d0].

Definition hex4 (n : Z) : bytes :=
  hex4_digits (n / 4096 mod 16) (n / 256 mod 16) (n / 16 mod 16) (n mod 16).

(** A data line, as the sender frames it: the length of the whole line in
    four hexadecimal digits, then the payload. *)
Definition pkt_line (payload : bytes) : bytes :=
  hex4 (Z.of_nat (length payload) + 4) ++ payload.

(** The line of length zero. *)
Definition flush_pkt : bytes := B "0000".

(** The check behind the pkt-line length round trip, digit by digit. *)
Definition digits16 : list Z := [0; 1; 2; 3; 4; 5; 6; 7; 8; 9; 10; 11; 12; 13; 14; 15]%Z.

Definition int16_reads (d3 d2 d1 d0 : Z) : bool :=
  match int16 (hex4_digits d3 d2 d1 d0) with
  | Ok v => (v =? ((d3 * 16 + d2) * 16 + d1) * 16 + d0)%Z
  | Raise _ => false
  end.

(** A response with a header line and two lines of pack data: the pack
    signature, version 2, two objects, then a blob and a commit. *)
Definition response_lines : list bytes :=
  [B "packfile" ++ [x0a];
   [x01] ++ B "PACK" ++ [x00; x00; x00; x02] ++ [x00; x00; x00; x02]
         ++ [x32] ++ Plain.deflate (B "hi");
   [x01] ++ [x91; x01] ++ Plain.deflate (B "tree 4b825dc642cb6eb9a060e54bf8")].

(** ** Sizes, entry headers and delta instructions as they are laid out *)

(** The number that a list of seven-bit groups stands for, lowest first. *)
Fixpoint groups_value (gs : list Z) : Z :=
  match gs with
  | [] => 0
  | g :: gs' => g + 128 * groups_value gs'
  end.

(** The groups as bytes: every byte but the last has its high bit set. *)
Fixpoint groups_bytes (gs : list Z) : bytes :=
  match gs with
  | [] => []
  | [g] => [byte_of_Z g]
  | g :: gs' => byte_of_Z (128 + g) :: groups_bytes gs'
  end.

(** The seven-bit groups of a number. *)
Fixpoint groups_of (fuel : nat) (n : Z) : list Z :=
  match fuel with
  | O => [n]
  | S fuel' =>
      if (n <? 128)%Z then [n]
      else (n mod 128)%Z :: groups_of fuel' (n / 128)
  end.

(** A size as the delta header holds it. *)
Definition size_bytes (n : Z) : bytes :=
  groups_bytes (groups_of (Z.to_nat (Z.log2 n)) n).

(** An entry header: the type in bits 4 to 6 of the first byte, the low
    four bits of the size in bits 0 to 3, the rest of the size in
    seven-bit groups. *)
Definition header_bytes (ty n : Z) : bytes :=
  if (n <? 16)%Z then [byte_of_Z (16 * ty + n)]
  else byte_of_Z (128 + 16 * ty + n mod 16) :: size_bytes (n / 16).

Definition is_group (g : Z) : Prop := (0 <= g < 128)%Z.

(** An instruction of a delta. *)
Inductive instr : Type :=
  | Copy (offset size : Z)
  | Insert (literal : bytes).

(** The bytes of a number, lowest first. *)
Fixpoint le_bytes (n : nat) (v : Z) : list Z :=
  match n with
  | O => []
  | S n' => (v mod 256)%Z :: le_bytes n' (v / 256)
  end.

Fixpoint le_value (vs : list Z) : Z :=
  match vs with
  | [] => 0
  | v :: vs' => v + 256 * le_value vs'
  end.

(** A field of a copy op: the bytes that are not zero, and the bits that
    say which positions they have. *)
Fixpoint field_bytes (vs : list Z) : bytes :=
  match vs with
  | [] => []
  | v :: vs' =>
      if (v =? 0)%Z then field_bytes vs' else byte_of_Z v :: field_bytes vs'
  end.

Fixpoint field_mask (vs : list Z) : Z :=
  match vs with
  | [] => 0
  | v :: vs' => (if (v =? 0)%Z then 0 else 1) + 2 * field_mask vs'
  end.

Definition instr_bytes (i : instr) : bytes :=
  match i with
  | Copy offset size =>
      byte_of_Z (128 + field_mask (le_bytes 4 offset)
                 + 16 * field_mask (le_bytes 3 size))
        :: field_bytes (le_bytes 4 offset) ++ field_bytes (le_bytes 3 size)
  | Insert literal => byte_of_Z (Z.of_nat (length literal)) :: literal
  end.

(** What an instruction adds to the target. *)
Definition instr_piece (base_content : bytes) (i : instr) : bytes :=
  match i with
  | Copy offset size => slice base_content offset (offset + size)
  | Insert literal => literal
  end.

Definition instr_ok (i : instr) : Prop :=
  match i with
  | Copy offset size =>
      (0 <= offset < 4294967296)%Z /\ (0 <= size < 16777216)%Z
  | Insert literal => length literal < 128
  end.

Fixpoint range_from (k : Z) (n : nat) : list Z :=
  match n with
  | O => []
  | S n' => k :: range_from (k + 1) n'
  end.

Definition is_byte_value (v : Z) : Prop := (0 <= v < 256)%Z.

(** ** A ref advertisement *)

(** The line of one ref: its hash, a space, its name. *)
Definition ref_line (sha name : bytes) : bytes :=
  pkt_line (sha ++ SP :: name ++ [LF]).

(** A ref advertisement as the server frames it: the service line, the line
    of length zero, the line of HEAD with the capabilities behind a NUL, a
    line for every other ref, and the line of length zero. *)
Definition advert (head_sha caps : bytes) (refs : list (bytes * bytes)) : bytes :=
  pkt_line (B "# service=git-upload-pack" ++ [LF]) ++ flush_pkt
  ++ pkt_line (head_sha ++ B " HEAD" ++ [NUL] ++ caps ++ [LF])
  ++ concat (map (fun r => ref_line r.1 r.2) refs) ++ flush_pkt.

(** Hexadecimal digits, at least one. *)
Definition hex_bytes (b : bytes) : Prop :=
  b <> [] /\ Forall (fun c => is_lower_hex (byte_to_Z c) = true) b.

(** A ref name on the wire: no space, NUL or line feed in it. *)
Definition name_bytes (b : bytes) : Prop :=
  (SP ∉ b) /\ (NUL ∉ b) /\ (LF ∉ b).

(** A ref as it is advertised: a hash in hexadecimal, and an ASCII name
    that holds no separator and does not end in HEAD. *)
Definition plain_ref (r : bytes * bytes) : Prop :=
  hex_bytes r.1 /\ name_bytes r.2
  /\ Forall (fun c => (byte_to_Z c < 128)%Z) r.2
  /\ bytes_endswith r.2 (B "HEAD") = false.

Definition record_ref (d : list (str * str)) (r : bytes * bytes) : list (str * str) :=
  dict_set d (map byte_to_Z r.2) (map byte_to_Z r.1).

(** ** A pack as it is laid out *)

(** An entry of a pack as it is laid out: the header, then the deflated
    content; for a ref_delta the twenty bytes of the base hash between the
    two. *)
Definition packed_entry `{Zlib} (e : Z * Z * bytes) : bytes :=
  header_bytes e.1.1 e.1.2 ++ compress e.2.

Definition packed_delta `{Zlib} (declared : Z) (base : bytes) (delta : bytes)
  : bytes :=
  header_bytes 7 declared ++ base ++ compress delta.

(** write_object for each entry in turn, under the kind its type names. *)
Fixpoint write_each `{Zlib} (fs : objects) (es : list (Z * Z * bytes))
  : result objects :=
  match es with
  | [] => Ok fs
  | e :: es' =>
      '(_, fs') ← write_object fs (type_map e.1.1) e.2;
      write_each fs' es'
  end.

(** A count as the pack header holds it: four bytes, the most significant
    first. *)
Definition be32 (n : Z) : bytes :=
  map byte_of_Z [n / 16777216 mod 256; n / 65536 mod 256; n / 256 mod 256;
                 n mod 256]%Z.

(** ** Tree entries *)

(** An entry that the loop reads back as it was written: no space in the
    mode, no NUL in the name, a hash of forty digits. *)
Definition plain_entry (e : entry) : Prop :=
  (32%Z ∉ e.1.1) /\ (0%Z ∉ e.1.2) /\ is_hash e.2.

(** ** The files that a tree without directories is checked out to *)

(** write_bytes for each entry of mode 100644 in turn, with the contents
    that read_object returns for its hash at that moment. *)
Fixpoint write_files `{Zlib} `{Worktree} (t : files) (dir : path)
    (es : list entry) : result files :=
  match es with
  | [] => Ok t
  | e :: es' =>
      if bool_decide (entry_mode e = U "100644") then
        '(_, content) ← read_object (stored t) (entry_hash e);
        t' ← write_bytes (child dir (entry_name e)) content t;
        write_files t' dir es'
      else write_files t dir es'
  end.


(** A tree of three entries in a store that holds the empty blob: an
    executable, a file and a link. *)
Definition flat_entries : list entry :=
  [(U "100755", U "run.sh", sentinel);
   (U "100644", U "a", U "e69de29bb2d1d6434b8b29ae775ad8c2e48c5391");
   (U "120000", U "link", sentinel)].

Definition flat_bytes : bytes :=
  B "100755 run.sh" ++ [NUL] ++ repeat x00 20
  ++ B "100644 a" ++ [NUL]
  ++ [xe6; x9d; xe2; x9b; xb2; xd1; xd6; x43; x4b; x8b;
      x29; xae; x77; x5a; xd8; xc2; xe4; x8c; x53; x91]
  ++ B "120000 link" ++ [NUL] ++ repeat x00 20.

Definition flat_store : objects :=
  <[object_path (U "aaaaaaaaaaaaaaaaaaaaaaaaaaaaaaaaaaaaaaaa")
      := Plain.deflate (B "tree 91" ++ [NUL] ++ flat_bytes)]>
    (<[object_path (U "e69de29bb2d1d6434b8b29ae775ad8c2e48c5391")
         := Plain.deflate (B "blob 0" ++ [NUL])]> ∅).

(** ** Text that UTF-8 can encode *)

(** A code point that is no surrogate. *)
Definition is_scalar (c : Z) : Prop :=
  (0 <= c < 55296)%Z \/ (57343 < c < 1114112)%Z.

(** ** The entries of a pack *)

(** An entry of a kind the loop has a branch for: an object of one of the
    four kinds, or a delta against a base named by its hash. *)
Inductive pack_item : Type :=
  | Direct (ty declared : Z) (content : bytes)
  | RefDelta (declared : Z) (base delta : bytes).

Definition item_ok (i : pack_item) : Prop :=
  match i with
  | Direct ty declared _ => (1 <= ty <= 4)%Z /\ (0 <= declared)%Z
  | RefDelta declared base _ => (0 <= declared)%Z /\ length base = 20
  end.

(** The bytes of the entry in the pack. *)
Definition item_bytes `{Zlib} (i : pack_item) : bytes :=
  match i with
  | Direct ty declared content => packed_entry (ty, declared, content)
  | RefDelta declared base delta => packed_delta declared base delta
  end.

Definition item_kind (i : pack_item) : str :=
  match i with
  | Direct ty _ _ => type_map ty
  | RefDelta _ _ _ => U "ref_delta"
  end.

(** What the entry does to the store. *)
Definition store_item `{Zlib} (fs : objects) (i : pack_item) : result objects :=
  match i with
  | Direct ty _ content =>
      '(_, fs') ← write_object fs (type_map ty) content;
      Ok fs'
  | RefDelta _ base delta =>
      '(_, base_content) ← read_object fs (hexlify base);
      target_content ← resolve_delta base_content delta;
      '(_, fs') ← write_object fs (U "blob") target_content;
      Ok fs'
  end.

Fixpoint store_items `{Zlib} (fs : objects) (items : list pack_item)
  : result objects :=
  match items with
  | [] => Ok fs
  | i :: items' =>
      fs' ← store_item fs i;
      store_items fs' items'
  end.

(** * Properties *)

(** ** The monad *)

Lemma bind_Ok {A C} (a : A) (k : A -> result C) : (Ok a ≫= k) = k a.
Proof. reflexivity. Qed.

Lemma bind_Ok_inv {A C} (m : result A) (k : A -> result C) (c : C) :
  (m ≫= k) = Ok c -> exists a, m = Ok a /\ k a = Ok c.
Proof. destruct m as [a|e]; [eauto | discriminate]. Qed.

Ltac monad_inv H :=
  let a := fresh "a" in
  let Ha := fresh "H" a in
  apply bind_Ok_inv in H; destruct H as (a & Ha & H).

(** ** Bytes *)

Lemma byte_to_Z_range (b : byte) : (0 <= byte_to_Z b < 256)%Z.
Proof.
  unfold byte_to_Z. pose proof (Byte.to_N_bounded b). lia.
Qed.

Lemma byte_of_to_Z (b : byte) : byte_of_Z (byte_to_Z b) = b.
Proof.
  unfold byte_of_Z. pose proof (byte_to_Z_range b).
  rewrite Z.mod_small by assumption.
  unfold byte_to_Z. rewrite N2Z.id, Byte.of_to_N. reflexivity.
Qed.

Lemma byte_to_of_Z (z : Z) : byte_to_Z (byte_of_Z z) = (z mod 256)%Z.
Proof.
  unfold byte_of_Z, byte_to_Z.
  pose proof (Z.mod_pos_bound z 256 ltac:(lia)) as Hr.
  destruct (Byte.of_N (Z.to_N (z mod 256))) as [b|] eqn:E.
  - apply Byte.to_of_N in E. rewrite E. lia.
  - apply Byte.of_N_None_iff in E. lia.
Qed.

Lemma byte_eqb_eq (a b : byte) : Byte.eqb a b = true <-> a = b.
Proof.
  split; [apply Byte.byte_dec_bl | apply Byte.byte_dec_lb].
Qed.

Lemma byte_eqb_neq (a b : byte) : Byte.eqb a b = false <-> a <> b.
Proof.
  split.
  - apply Byte.eqb_false.
  - intros Hne. destruct (Byte.eqb a b) eqn:E; [|reflexivity].
    apply byte_eqb_eq in E. contradiction.
Qed.

(** ** split *)

Lemma split_once_absent (sep : byte) (bs : bytes) :
  sep ∉ bs -> split_once sep bs = [bs].
Proof.
  induction bs as [|c bs IH]; intros Hn; simpl; [reflexivity|].
  apply not_elem_of_cons in Hn as [Hc Hbs].
  assert (Byte.eqb c sep = false) as -> by (apply byte_eqb_neq; congruence).
  rewrite (IH Hbs). reflexivity.
Qed.

Lemma split_once_first (sep : byte) (pre post : bytes) :
  sep ∉ pre -> split_once sep (pre ++ sep :: post) = [pre; post].
Proof.
  induction pre as [|c pre IH]; intros Hn; simpl.
  - assert (Byte.eqb sep sep = true) as -> by (apply byte_eqb_eq; reflexivity).
    reflexivity.
  - apply not_elem_of_cons in Hn as [Hc Hpre].
    assert (Byte.eqb c sep = false) as -> by (apply byte_eqb_neq; congruence).
    rewrite (IH Hpre). reflexivity.
Qed.

Lemma split_all_absent (sep : byte) (bs : bytes) :
  sep ∉ bs -> split_all sep bs = [bs].
Proof.
  induction bs as [|c bs IH]; intros Hn; simpl; [reflexivity|].
  apply not_elem_of_cons in Hn as [Hc Hbs].
  assert (Byte.eqb c sep = false) as -> by (apply byte_eqb_neq; congruence).
  rewrite (IH Hbs). reflexivity.
Qed.

Lemma split_all_first (sep : byte) (pre post : bytes) :
  sep ∉ pre -> split_all sep (pre ++ sep :: post) = pre :: split_all sep post.
Proof.
  induction pre as [|c pre IH]; intros Hn; simpl.
  - assert (Byte.eqb sep sep = true) as -> by (apply byte_eqb_eq; reflexivity).
    reflexivity.
  - apply not_elem_of_cons in Hn as [Hc Hpre].
    assert (Byte.eqb c sep = false) as -> by (apply byte_eqb_neq; congruence).
    rewrite (IH Hpre). reflexivity.
Qed.

(** The pieces of split_all are separated by exactly the separators. *)
Lemma split_all_length (sep : byte) (bs : bytes) :
  length (split_all sep bs) = S (length (filter (fun c => c = sep) bs)).
Proof.
  induction bs as [|c bs IH]; [reflexivity|].
  cbn [split_all]. rewrite filter_cons.
  destruct (Byte.eqb c sep) eqn:E.
  - apply byte_eqb_eq in E. rewrite decide_True by assumption.
    cbn [length]. rewrite IH. reflexivity.
  - apply byte_eqb_neq in E. rewrite decide_False by assumption.
    destruct (split_all sep bs); cbn [length] in *; [discriminate | assumption].
Qed.

(** ** Decimal rendering *)

Lemma string_of_uint_digits (d : Decimal.uint) :
  Forall is_digit (list_byte_of_string (NilEmpty.string_of_uint d)).
Proof.
  induction d; simpl; constructor; try assumption;
    unfold is_digit, byte_to_Z; simpl; lia.
Qed.

Lemma decimal_digits (n : nat) : Forall is_digit (decimal n).
Proof.
  unfold decimal, NilZero.string_of_uint.
  destruct (Nat.to_uint n) eqn:E; try (rewrite <- E); try apply string_of_uint_digits.
  repeat constructor; unfold is_digit, byte_to_Z; simpl; lia.
Qed.

Lemma decimal_no (sep : byte) (n : nat) :
  ~ is_digit sep -> sep ∉ decimal n.
Proof.
  intros Hsep Hin. pose proof (decimal_digits n) as Hd.
  rewrite Forall_forall in Hd. apply Hsep, Hd. assumption.
Qed.

(** The digits read back in base ten give the number. *)
Lemma decimal_value (n : nat) :
  option_map Nat.of_uint
    (NilZero.uint_of_string (string_of_list_byte (decimal n))) = Some n.
Proof.
  unfold decimal. rewrite string_of_list_byte_of_string.
  pose proof (Unsigned.of_to n) as Hn.
  destruct (Nat.to_uint n) eqn:E;
    [rewrite <- Hn; reflexivity | rewrite NilZero.usu by discriminate ..];
    simpl; congruence.
Qed.

(** ** Hexadecimal text *)

Lemma hexlify_length (bs : bytes) : length (hexlify bs) = 2 * length bs.
Proof.
  unfold hexlify. induction bs as [|b bs IH]; simpl; [reflexivity|].
  rewrite IH. lia.
Qed.

Lemma hex_digits_of_byte (b : byte) :
  let hi := hex_digit (Z.shiftr (byte_to_Z b) 4) in
  let lo := hex_digit (Z.land (byte_to_Z b) 15) in
  is_lower_hex hi = true /\ is_lower_hex lo = true /\
  is_space hi = false /\
  digit_value hi = Some (Z.shiftr (byte_to_Z b) 4) /\
  digit_value lo = Some (Z.land (byte_to_Z b) 15) /\
  byte_of_Z (16 * Z.shiftr (byte_to_Z b) 4 + Z.land (byte_to_Z b) 15) = b.
Proof. destruct b; vm_compute; repeat split; reflexivity. Qed.

Lemma hexlify_lower (bs : bytes) : Forall (fun c => is_lower_hex c = true) (hexlify bs).
Proof.
  unfold hexlify. induction bs as [|b bs IH]; simpl; [constructor|].
  destruct (hex_digits_of_byte b) as (Hhi & Hlo & _).
  repeat constructor; assumption.
Qed.

Lemma fromhex_hexlify (bs : bytes) : fromhex (hexlify bs) = Ok bs.
Proof.
  unfold hexlify. induction bs as [|b bs IH]; [reflexivity|].
  destruct (hex_digits_of_byte b) as (_ & _ & Hsp & Hhi & Hlo & Hb).
  cbn [flat_map app fromhex]. rewrite Hsp, Hhi, Hlo, IH, bind_Ok, Hb.
  reflexivity.
Qed.

Lemma digest_length (msg : bytes) : length (SHA1.digest msg) = 20.
Proof. unfold SHA1.digest. rewrite length_map. reflexivity. Qed.

Lemma hexdigest_length (msg : bytes) : length (SHA1.hexdigest msg) = 40.
Proof.
  unfold SHA1.hexdigest. rewrite hexlify_length, digest_length. reflexivity.
Qed.

(** ** The object store *)

Section ObjectStore.
Context `{Zlib}.

(** What read_object returns for a stored object whose bytes are two
    space-free, NUL-free fields, a NUL and a content: the second field is
    never looked at. *)
Lemma read_object_fields (fs : objects) (sha : str) (bs tyb len content : bytes) :
  fs !! object_path sha = Some bs ->
  decompress bs = Some (tyb ++ B " " ++ len ++ [NUL] ++ content) ->
  NUL ∉ tyb -> SP ∉ tyb -> NUL ∉ len -> SP ∉ len ->
  read_object fs sha = (ty ← decode tyb; Ok (ty, content)).
Proof.
  intros Hfs Hz Htz Hts Hlz Hls.
  unfold read_object, read_bytes, zlib_decompress. rewrite Hfs, bind_Ok, Hz, bind_Ok.
  replace (tyb ++ B " " ++ len ++ [NUL] ++ content)
    with ((tyb ++ B " " ++ len) ++ NUL :: content)
    by (rewrite <- !app_assoc; reflexivity).
  rewrite split_once_first.
  2:{ rewrite !not_elem_of_app. repeat split; try assumption.
      unfold B; simpl. rewrite list_elem_of_In. simpl. intuition discriminate. }
  cbn [unpack2]. rewrite bind_Ok.
  change (tyb ++ B " " ++ len) with (tyb ++ SP :: len).
  rewrite split_all_first by assumption.
  rewrite split_all_absent by assumption.
  cbn [unpack2]. rewrite bind_Ok. reflexivity.
Qed.

Lemma object_bytes_eq (tyb content : bytes) :
  object_bytes tyb content
  = tyb ++ B " " ++ decimal (length content) ++ [NUL] ++ content.
Proof. unfold object_bytes. rewrite <- !app_assoc. reflexivity. Qed.

Lemma kind_bytes (ty : str) :
  ty ∈ direct_kinds ->
  exists tyb, encode ty = Ok tyb /\ decode tyb = Ok ty /\
              (NUL ∉ tyb) /\ (SP ∉ tyb).
Proof.
  unfold direct_kinds. rewrite !elem_of_cons, elem_of_nil.
  intros [-> | [-> | [-> | [-> | []]]]];
    (eexists; split; [vm_compute; reflexivity|]);
    (split; [vm_compute; reflexivity|]);
    split; rewrite list_elem_of_In; simpl; intuition discriminate.
Qed.

(** Writing an object of one of the four kinds and reading it back. *)
Lemma write_then_read (fs : objects) (ty : str) (content : bytes) :
  ty ∈ direct_kinds ->
  exists sha fs',
    write_object fs ty content = Ok (sha, fs') /\
    sha = SHA1.hexdigest (object_bytes (default [] (match encode ty with Ok b => Some b | _ => None end)) content) /\
    read_object fs' sha = Ok (ty, content).
Proof.
  intros Hty. destruct (kind_bytes ty Hty) as (tyb & Henc & Hdec & Hz & Hs).
  unfold write_object. rewrite Henc, bind_Ok.
  eexists _, _. split; [reflexivity|]. split; [reflexivity|].
  rewrite object_bytes_eq.
  erewrite read_object_fields with (tyb := tyb) (len := decimal (length content)).
  - rewrite Hdec. reflexivity.
  - apply lookup_insert_eq.
  - rewrite decompress_compress. reflexivity.
  - assumption.
  - assumption.
  - apply decimal_no. unfold is_digit, byte_to_Z. simpl. lia.
  - apply decimal_no. unfold is_digit, byte_to_Z. simpl. lia.
Qed.

(** C1.  Round trip: for each of the kinds commit, tree, blob and tag and
    every content, write_object succeeds and read_object on the hash it
    returns, in the store it leaves, gives back the kind and the content. *)
Theorem read_write_roundtrip (fs : objects) (ty : str) (content : bytes) :
  ty ∈ direct_kinds ->
  exists sha fs',
    write_object fs ty content = Ok (sha, fs') /\
    read_object fs' sha = Ok (ty, content).
Proof.
  intros Hty.
  destruct (write_then_read fs ty content Hty) as (sha & fs' & Hw & _ & Hr).
  exists sha, fs'. split; assumption.
Qed.

End ObjectStore.

(** C1, at the blob b"hello" in an empty store. *)
Lemma read_write_roundtrip_witness :
  exists sha fs',
    @write_object Plain.codec ∅ (U "blob") (B "hello") = Ok (sha, fs') /\
    @read_object Plain.codec fs' sha = Ok (U "blob", B "hello").
Proof.
  apply (@read_write_roundtrip Plain.codec ∅ (U "blob") (B "hello")).
  unfold direct_kinds. rewrite list_elem_of_In. simpl. tauto.
Defined.

(** hashlib.sha1 on the test vectors of FIPS 180, and on two objects whose
    names every git repository knows: the empty blob and the empty tree. *)
Example sha1_empty :
  SHA1.hexdigest (B "") = U "da39a3ee5e6b4b0d3255bfef95601890afd80709".
Proof. vm_compute. reflexivity. Qed.

Example sha1_abc :
  SHA1.hexdigest (B "abc") = U "a9993e364706816aba3e25717850c26c9cd0d89d".
Proof. vm_compute. reflexivity. Qed.

Example sha1_two_blocks :
  SHA1.hexdigest (B "abcdbcdecdefdefgefghfghighijhijkijkljklmklmnlmnomnopnopq")
  = U "84983e441c3bd26ebaae4aa1f95129e5e54670f1".
Proof. vm_compute. reflexivity. Qed.

Example empty_blob_hash (z : Zlib) (fs : objects) :
  fst <$> write_object fs (U "blob") []
  = Ok (U "e69de29bb2d1d6434b8b29ae775ad8c2e48c5391").
Proof. vm_compute. reflexivity. Qed.

Example empty_tree_hash (z : Zlib) (fs : objects) :
  fst <$> write_object fs (U "tree") []
  = Ok (U "4b825dc642cb6eb9a060e54bf8d69288fbee4904").
Proof. vm_compute. reflexivity. Qed.

(** C2.  The hash write_object returns is the lowercase hexadecimal SHA-1
    digest of the kind, a space, the decimal length of the content, a NUL and
    the content; it is forty characters long, and it is the same whatever
    the store holds and whatever the compressor does. *)
Theorem write_object_hash (z1 z2 : Zlib) (fs1 fs2 : objects)
    (ty : str) (tyb content : bytes) :
  encode ty = Ok tyb ->
  let sha :=
    SHA1.hexdigest (tyb ++ B " " ++ decimal (length content) ++ [NUL] ++ content) in
  (exists fs1', @write_object z1 fs1 ty content = Ok (sha, fs1')) /\
  (exists fs2', @write_object z2 fs2 ty content = Ok (sha, fs2')) /\
  length sha = 40 /\ Forall (fun c => is_lower_hex c = true) sha.
Proof.
  intros Henc sha. unfold write_object. rewrite Henc, !bind_Ok.
  rewrite object_bytes_eq. fold sha.
  split; [eexists; reflexivity|]. split; [eexists; reflexivity|].
  split; [apply hexdigest_length | apply hexlify_lower].
Qed.

(** C2, for a commit written to two stores, one of them not empty. *)
Lemma write_object_hash_witness :
  let sha := SHA1.hexdigest (B "commit 3" ++ [NUL] ++ B "abc") in
  (exists fs1', @write_object Plain.codec ∅ (U "commit") (B "abc")
                = Ok (sha, fs1')) /\
  (exists fs2', @write_object Plain.codec {[ (U "ab", U "cd") := B "x" ]}
                  (U "commit") (B "abc") = Ok (sha, fs2')) /\
  length sha = 40 /\ Forall (fun c => is_lower_hex c = true) sha.
Proof.
  apply (write_object_hash Plain.codec Plain.codec ∅
           {[ (U "ab", U "cd") := B "x" ]} (U "commit") (B "commit") (B "abc")).
  reflexivity.
Defined.

(** ** Slices *)

Lemma slice_bound_nonneg (len i : Z) :
  (0 <= i)%Z -> (0 <= len)%Z -> slice_bound len i = Z.to_nat (Z.min i len).
Proof.
  intros Hi Hlen. unfold slice_bound.
  destruct (i <? 0)%Z eqn:E; [lia | reflexivity].
Qed.

(** With bounds that are not negative a slice is take after drop. *)
Lemma slice_nonneg {A} (l : list A) (lo hi : Z) :
  (0 <= lo)%Z -> (0 <= hi)%Z ->
  slice l lo hi = take (Z.to_nat hi - Z.to_nat lo) (drop (Z.to_nat lo) l).
Proof.
  intros Hlo Hhi. unfold slice. rewrite !slice_bound_nonneg by lia.
  destruct (Z.le_gt_cases lo (Z.of_nat (length l))) as [Hin | Hout].
  - rewrite (Z.min_l lo) by lia.
    destruct (Z.le_gt_cases hi (Z.of_nat (length l))) as [Hin' | Hout'].
    + rewrite Z.min_l by lia. reflexivity.
    + rewrite Z.min_r by lia. rewrite Nat2Z.id.
      rewrite !take_ge; [reflexivity | rewrite length_drop; lia ..].
  - rewrite (Z.min_r lo) by lia. rewrite Nat2Z.id.
    rewrite drop_all, (drop_ge l (Z.to_nat lo)) by lia.
    rewrite !take_nil. reflexivity.
Qed.

Lemma slice_from_nonneg {A} (l : list A) (lo : Z) :
  (0 <= lo)%Z -> slice_from l lo = drop (Z.to_nat lo) l.
Proof.
  intros Hlo. unfold slice_from. rewrite slice_bound_nonneg by lia.
  destruct (Z.le_gt_cases lo (Z.of_nat (length l))).
  - rewrite Z.min_l by lia. reflexivity.
  - rewrite Z.min_r by lia. rewrite Nat2Z.id, drop_all, drop_ge by lia.
    reflexivity.
Qed.


(** ** The variable-length integers *)

Lemma size_loop_eq (prev size off : Z) (rest : bytes) :
  size_loop prev size off rest
  = if (Z.land prev 128 =? 0)%Z then Ok (size, rest)
    else match rest with
         | [] => Raise IndexError
         | b :: rest' =>
             size_loop (byte_to_Z b)
               (size + Z.shiftl (Z.land (byte_to_Z b) 127) off) (off + 7) rest'
         end.
Proof. destruct rest; reflexivity. Qed.

Lemma size_loop_varint (b : byte) (bs rest : bytes) (size off : Z) :
  is_varint (b :: bs) ->
  exists n, size_loop (byte_to_Z b) size off (bs ++ rest) = Ok (n, rest).
Proof.
  revert b size off. induction bs as [|b' bs IH]; intros b size off Hv.
  - inversion Hv as [? Hb | ? ? Hb Hbs]; subst.
    + exists size. rewrite size_loop_eq, Hb. reflexivity.
    + inversion Hbs.
  - inversion Hv as [| ? ? Hb Hbs]; subst.
    rewrite size_loop_eq. cbn [app].
    destruct (Z.eqb_spec (Z.land (byte_to_Z b) 128) 0) as [E | _]; [contradiction|].
    apply IH. assumption.
Qed.

Lemma next_size_varint (v rest : bytes) :
  is_varint v -> exists n, next_size (v ++ rest) = Ok (n, rest).
Proof.
  intros Hv. destruct v as [|b bs]; [inversion Hv|].
  unfold next_size. cbn [app index lookup list_lookup]. rewrite bind_Ok.
  cbn [drop]. apply size_loop_varint. assumption.
Qed.

(** ** The delta resolver *)

Lemma read_field_ptr (content : bytes) (first_bit : Z) (range : list Z)
    (acc : Z) (data_ptr : nat) (v : Z) (data_ptr' : nat) :
  read_field content first_bit range acc data_ptr = Ok (v, data_ptr') ->
  data_ptr <= data_ptr'.
Proof.
  revert acc data_ptr. induction range as [|i range IH]; intros acc data_ptr Hr.
  - simpl in Hr. injection Hr as _ <-. lia.
  - cbn [read_field] in Hr. monad_inv Hr.
    destruct (Z.land a (Z.shiftl 1 (first_bit + i)) =? 0)%Z.
    + apply IH in Hr. assumption.
    + monad_inv Hr. apply IH in Hr. lia.
Qed.

(** Every op consumes at least its own byte. *)
Lemma delta_op_shorter (base_content content content' piece : bytes) :
  delta_op base_content content = Ok (content', piece) ->
  length content' < length content.
Proof.
  unfold delta_op. intros Hop. monad_inv Hop.
  destruct content as [|c0 content0]; [discriminate|].
  cbn [index lookup list_lookup] in Ha. injection Ha as <-.
  pose proof (byte_to_Z_range c0) as Hc0.
  destruct (Z.land (byte_to_Z c0) 128 =? 0)%Z.
  - injection Hop as <- _. rewrite slice_from_nonneg by lia.
    rewrite length_drop. cbn [length]. lia.
  - monad_inv Hop. destruct a as [offset data_ptr].
    monad_inv Hop. destruct a as [size data_ptr'].
    injection Hop as <- _.
    apply read_field_ptr in Ha, Ha0.
    rewrite length_drop. cbn [length]. lia.
Qed.

(** The loop ends within [length content] passes. *)
Lemma delta_loop_fuel (fuel : nat) (base_content content target : bytes) :
  length content <= fuel ->
  exists r, delta_loop fuel base_content content target = Some r.
Proof.
  revert content target. induction fuel as [|fuel IH]; intros content target Hlen.
  - destruct content; [eexists; reflexivity | simpl in Hlen; lia].
  - destruct content as [|c0 content0]; [eexists; reflexivity|].
    cbn [delta_loop].
    destruct (delta_op base_content (c0 :: content0)) as [[content' piece]|e] eqn:Hop;
      [|eexists; reflexivity].
    apply IH. apply delta_op_shorter in Hop. lia.
Qed.

Lemma resolve_delta_sizes (base_content s1 s2 ops : bytes) :
  is_varint s1 -> is_varint s2 ->
  resolve_delta base_content (s1 ++ s2 ++ ops) = run_ops base_content ops.
Proof.
  intros H1 H2. unfold resolve_delta.
  destruct (next_size_varint s1 (s2 ++ ops) H1) as [n1 ->]. rewrite bind_Ok.
  destruct (next_size_varint s2 ops H2) as [n2 ->]. rewrite bind_Ok.
  reflexivity.
Qed.

(** *** The scenario of the quick brown fox *)

(** C3, as the code has it.  On the base b"The quick brown fox" the stream
    Copy{offset=4,size=5}, Insert{b"slow "}, Copy{offset=10,size=9} resolves
    to the two copied ranges around the literal: the first range is the five
    bytes b"quick", with no space after them, so the target is
    b"quickslow brown fox". *)
Theorem fox_delta_resolves :
  resolve_delta fox fox_delta
  = Ok (slice fox 4 (4 + 5) ++ B "slow " ++ slice fox 10 (10 + 9)) /\
  slice fox 4 (4 + 5) = B "quick" /\
  slice fox 10 (10 + 9) = B "brown fox" /\
  resolve_delta fox fox_delta = Ok (B "quickslow brown fox").
Proof. vm_compute. repeat split; reflexivity. Qed.

(** C3 as stated fails: the target is not b"quick slow brown fox". *)
Lemma fox_delta_not_as_claimed :
  resolve_delta fox fox_delta <> Ok (B "quick slow brown fox").
Proof. vm_compute. discriminate. Qed.

(** With six bytes in the first copy the target of the claim comes out. *)
Example fox_delta_six :
  resolve_delta fox
    ([x13; x14] ++ [x91; x04; x06] ++ [x05] ++ B "slow " ++ [x91; x0a; x09])
  = Ok (B "quick slow brown fox").
Proof. vm_compute. reflexivity. Qed.

(** *** The declared sizes *)

(** C10.  The two sizes at the head of a delta are read and dropped: with
    any two well-formed sizes in front, the result of resolve_delta is that
    of the ops alone on the base, so two deltas that differ only in their
    declared sizes resolve alike, to an error or to the same target, and
    the blob written for them is the same. *)
Theorem declared_sizes_ignored (z : Zlib) (fs : objects)
    (base_content s1 s2 s1' s2' ops : bytes) :
  is_varint s1 -> is_varint s2 -> is_varint s1' -> is_varint s2' ->
  resolve_delta base_content (s1 ++ s2 ++ ops) = run_ops base_content ops /\
  resolve_delta base_content (s1' ++ s2' ++ ops)
  = resolve_delta base_content (s1 ++ s2 ++ ops) /\
  (target ← resolve_delta base_content (s1' ++ s2' ++ ops);
   write_object fs (U "blob") target)
  = (target ← resolve_delta base_content (s1 ++ s2 ++ ops);
     write_object fs (U "blob") target).
Proof.
  intros H1 H2 H1' H2'.
  rewrite (resolve_delta_sizes base_content s1 s2 ops H1 H2).
  rewrite (resolve_delta_sizes base_content s1' s2' ops H1' H2').
  repeat split.
Qed.

(** C10 on the fox: the sizes 19 and 20 against the sizes 0 and 16383, both
    wrong for a base of 19 bytes and a target of 19 bytes. *)
Lemma declared_sizes_ignored_witness :
  let ops := drop 2 fox_delta in
  resolve_delta fox ([x13] ++ [x14] ++ ops) = run_ops fox ops /\
  resolve_delta fox ([x00] ++ [xff; x7f] ++ ops)
  = resolve_delta fox ([x13] ++ [x14] ++ ops) /\
  (target ← resolve_delta fox ([x00] ++ [xff; x7f] ++ ops);
   @write_object Plain.codec ∅ (U "blob") target)
  = (target ← resolve_delta fox ([x13] ++ [x14] ++ ops);
     @write_object Plain.codec ∅ (U "blob") target).
Proof.
  apply (declared_sizes_ignored Plain.codec ∅ fox [x13] [x14] [x00] [xff; x7f]).
  - apply varint_last. reflexivity.
  - apply varint_last. reflexivity.
  - apply varint_last. reflexivity.
  - apply varint_more; [discriminate | apply varint_last; reflexivity].
Defined.

Example wrong_sizes_resolve :
  resolve_delta fox ([x00] ++ [xff; x7f] ++ drop 2 fox_delta)
  = Ok (B "quickslow brown fox").
Proof. vm_compute. reflexivity. Qed.

(** ** The entry header *)

(** C7.  The two bytes 9c 03 decode to the kind commit and the size 60: the
    low four bits of the first byte, twelve, and the seven bits of the
    second, three, shifted left by four. *)
Theorem header_9c_03 :
  next_size_type [x9c; x03] = Ok (U "commit", 60%Z, []) /\
  Z.shiftr (Z.land (byte_to_Z x9c) 112) 4 = 1%Z /\
  (Z.land (byte_to_Z x9c) 15 + Z.shiftl (Z.land (byte_to_Z x03) 127) 4)%Z
  = (12 + 48)%Z.
Proof. vm_compute. repeat split; reflexivity. Qed.

(** ** Entries of a kind the loop has no branch for *)

Section PackEntries.
Context `{Zlib}.

(** C5 fails on the code: an entry whose header says ofs_delta raises
    nothing.  The header is consumed, nothing is stored, and the loop goes
    on with the bytes right after the header. *)
Theorem ofs_delta_entry_skipped (fs : objects) (pack_file rest : bytes)
    (size : Z) :
  next_size_type pack_file = Ok (U "ofs_delta", size, rest) ->
  pack_entry fs pack_file = Ok (fs, rest, U "ofs_delta").
Proof.
  intros Hh. unfold pack_entry. rewrite Hh, bind_Ok. reflexivity.
Qed.

End PackEntries.

(** C5 at a pack of one entry whose header is the byte 0x60: the loop ends
    without an error and the store is as it was. *)
Lemma ofs_delta_entry_skipped_witness :
  next_size_type [x60; x78; x01] = Ok (U "ofs_delta", 0%Z, [x78; x01]) /\
  @pack_entry Plain.codec ∅ [x60; x78; x01]
  = Ok (∅, [x78; x01], U "ofs_delta").
Proof.
  split; [reflexivity|].
  apply (@ofs_delta_entry_skipped Plain.codec ∅ [x60; x78; x01] [x78; x01] 0).
  reflexivity.
Defined.

(** ** The tree builder *)

(** *** The order on names *)

Lemma str_ltb_irrefl (a : str) : str_ltb a a = false.
Proof.
  induction a as [|x a IH]; [reflexivity|].
  cbn [str_ltb]. rewrite Z.ltb_irrefl. assumption.
Qed.

Lemma str_ltb_trans (a b c : str) :
  str_ltb a b = true -> str_ltb b c = true -> str_ltb a c = true.
Proof.
  revert b c. induction a as [|x a IH]; intros [|y b] [|z c]; cbn [str_ltb];
    try congruence.
  destruct (Z.ltb_spec x y), (Z.ltb_spec y x), (Z.ltb_spec y z),
    (Z.ltb_spec z y), (Z.ltb_spec x z), (Z.ltb_spec z x);
    try congruence; try lia.
  apply IH.
Qed.

Lemma str_ltb_total (a b : str) :
  str_ltb a b = false -> str_ltb b a = false -> a = b.
Proof.
  revert b. induction a as [|x a IH]; intros [|y b]; cbn [str_ltb];
    try congruence.
  destruct (Z.ltb_spec x y), (Z.ltb_spec y x); try congruence; try lia.
  intros Hab Hba. f_equal; [lia | apply IH; assumption].
Qed.

Lemma str_le_trans (a b c : str) : str_le a b -> str_le b c -> str_le a c.
Proof.
  unfold str_le. intros Hab Hbc.
  destruct (str_ltb c a) eqn:Hca; [|reflexivity].
  destruct (str_ltb a b) eqn:Hlt.
  - rewrite (str_ltb_trans c a b Hca Hlt) in Hbc. discriminate.
  - rewrite (str_ltb_total a b Hlt Hab) in Hca. congruence.
Qed.

(** *** The sort *)

Section Sort.
Context {A : Type}.
Implicit Types (x y : str * A) (l : list (str * A)).

Lemma insert_by_name_perm x l : insert_by_name x l ≡ₚ x :: l.
Proof.
  induction l as [|y l IH]; [reflexivity|].
  cbn [insert_by_name]. destruct (str_ltb y.1 x.1); [|reflexivity].
  rewrite IH. apply Permutation_swap.
Qed.

Lemma sorted_by_name_perm l : sorted_by_name l ≡ₚ l.
Proof.
  induction l as [|x l IH]; [reflexivity|].
  cbn [sorted_by_name foldr]. rewrite insert_by_name_perm.
  constructor. exact IH.
Qed.

Lemma insert_by_name_sorted x l :
  StronglySorted by_name l -> StronglySorted by_name (insert_by_name x l).
Proof.
  induction 1 as [|y l Hl IH Hy]; cbn [insert_by_name].
  - repeat constructor.
  - destruct (str_ltb y.1 x.1) eqn:Hyx.
    + constructor; [assumption|].
      rewrite insert_by_name_perm. constructor; [|assumption].
      unfold by_name, str_le.
      destruct (str_ltb x.1 y.1) eqn:Hxy; [|reflexivity].
      pose proof (str_ltb_trans _ _ _ Hxy Hyx) as Hxx.
      rewrite str_ltb_irrefl in Hxx. discriminate.
    + constructor; [constructor; assumption|].
      constructor; [exact Hyx|].
      eapply Forall_impl; [exact Hy|].
      intros z Hz. eapply str_le_trans; [exact Hyx | exact Hz].
Qed.

Lemma sorted_by_name_sorted l : StronglySorted by_name (sorted_by_name l).
Proof.
  induction l as [|x l IH]; [constructor|].
  cbn [sorted_by_name foldr]. apply insert_by_name_sorted. exact IH.
Qed.

(** Two insertions of different names commute. *)
Lemma insert_by_name_comm x y l :
  x.1 <> y.1 ->
  insert_by_name x (insert_by_name y l) = insert_by_name y (insert_by_name x l).
Proof.
  intros Hne.
  assert (Hcases : forall x y l, str_ltb x.1 y.1 = true ->
            insert_by_name x (insert_by_name y l)
            = insert_by_name y (insert_by_name x l)).
  { clear. intros x y l Hxy.
    assert (Hyx : str_ltb y.1 x.1 = false).
    { destruct (str_ltb y.1 x.1) eqn:E; [|reflexivity].
      pose proof (str_ltb_trans _ _ _ Hxy E) as Hxx.
      rewrite str_ltb_irrefl in Hxx. discriminate. }
    induction l as [|z l IH]; cbn [insert_by_name].
    - rewrite Hxy, Hyx. reflexivity.
    - destruct (str_ltb z.1 x.1) eqn:Hzx, (str_ltb z.1 y.1) eqn:Hzy;
        cbn [insert_by_name]; rewrite ?Hxy, ?Hyx, ?Hzx, ?Hzy;
        cbn [insert_by_name]; rewrite ?Hxy, ?Hyx, ?Hzx, ?Hzy.
      + rewrite IH. reflexivity.
      + rewrite (str_ltb_trans _ _ _ Hzx Hxy) in Hzy. discriminate.
      + reflexivity.
      + reflexivity. }
  destruct (str_ltb x.1 y.1) eqn:Hxy; [apply Hcases; assumption|].
  destruct (str_ltb y.1 x.1) eqn:Hyx; [symmetry; apply Hcases; assumption|].
  destruct Hne. apply str_ltb_total; assumption.
Qed.

(** The sorted list does not depend on the order in which a directory
    with distinct names is listed. *)
Lemma sorted_by_name_order l l' :
  l ≡ₚ l' -> NoDup (map fst l) -> sorted_by_name l = sorted_by_name l'.
Proof.
  induction 1 as [|x l l' Hp IH|x y l|l l' l'' Hp IH Hp' IH']; intros Hnd.
  - reflexivity.
  - cbn [sorted_by_name foldr]. f_equal. apply IH.
    cbn [map] in Hnd. apply NoDup_cons in Hnd as [_ Hnd]. exact Hnd.
  - cbn [sorted_by_name foldr]. apply insert_by_name_comm.
    cbn [map] in Hnd. apply NoDup_cons in Hnd as [Hy _].
    intros E. apply Hy. rewrite E. left.
  - rewrite IH by assumption. apply IH'.
    assert (map fst l ≡ₚ map fst l') as <- by (apply Permutation_map; exact Hp).
    exact Hnd.
Qed.

End Sort.

(** The sort looks at names only. *)
Lemma sorted_by_name_map {A C} (h : str * A -> C) (l : list (str * A)) :
  sorted_by_name (map (fun x => (x.1, h x)) l)
  = map (fun x => (x.1, h x)) (sorted_by_name l).
Proof.
  induction l as [|x l IH]; [reflexivity|].
  cbn [map sorted_by_name foldr]. fold (sorted_by_name l).
  fold (sorted_by_name (map (fun x => (x.1, h x)) l)). rewrite IH.
  generalize (sorted_by_name l) as s. clear.
  induction s as [|y s IH]; [reflexivity|].
  cbn [map insert_by_name fst]. destruct (str_ltb y.1 x.1); cbn [map]; congruence.
Qed.

(** *** Which names are listed *)

(** The name of the metadata directory starts with a dot, so exclude_git
    changes nothing. *)
Lemma listed_dot (exclude_git : bool) (name : str) :
  listed exclude_git name = negb (startswith name (U ".")).
Proof.
  unfold listed. destruct exclude_git; [|reflexivity].
  cbn [andb]. case_bool_decide as E; [|reflexivity].
  subst name. reflexivity.
Qed.

Lemma visible_map {A C} (exclude_git : bool) (h : str * A -> C)
    (l : list (str * A)) :
  visible exclude_git (map (fun x => (x.1, h x)) l)
  = map (fun x => (x.1, h x)) (visible exclude_git l).
Proof.
  unfold visible. rewrite sorted_by_name_map.
  generalize (sorted_by_name l) as s.
  induction s as [|y s IH]; [reflexivity|].
  cbn [map]. rewrite !filter_cons. cbn [fst].
  destruct (decide (Is_true (listed exclude_git y.1))); cbn [map]; congruence.
Qed.

Lemma visible_subset {A} (exclude_git : bool) (l : list (str * A)) (x : str * A) :
  x ∈ visible exclude_git l <-> x ∈ l /\ startswith x.1 (U ".") = false.
Proof.
  unfold visible. rewrite list_elem_of_filter, sorted_by_name_perm, listed_dot.
  destruct (startswith x.1 (U ".")); simpl; intuition congruence.
Qed.

(** *** Induction on a directory tree *)

Lemma node_ind' (P : node -> Prop) :
  (forall content, P (File content)) ->
  (forall children, Forall (fun nc => P nc.2) children -> P (Dir children)) ->
  P Unlistable ->
  forall p, P p.
Proof.
  intros Hfile Hdir Hno.
  fix IH 1. intros [content | children |]; [apply Hfile | | apply Hno].
  apply Hdir. induction children as [|[n c] children IHc]; constructor.
  - apply IH.
  - exact IHc.
Qed.

(** *** The entry of a node, without the store *)

Lemma tree_entry_Dir (children : list (str * node)) (name : str) :
  tree_entry (Dir children) name
  = (entries ← collect (map (fun nc => tree_entry nc.2 nc.1)
                          (visible false children));
     b_entries ← join_entries entries;
     Ok (U "40000", name, SHA1.hexdigest (object_bytes (B "tree") b_entries))).
Proof.
  cbn [tree_entry].
  rewrite (visible_map false (fun nc : str * node => tree_entry nc.2 nc.1)).
  rewrite map_map. reflexivity.
Qed.

Lemma visible_exclude_git {A} (exclude_git : bool) (l : list (str * A)) :
  visible exclude_git l = visible false l.
Proof.
  unfold visible. apply list_filter_iff. intros x.
  rewrite !listed_dot. reflexivity.
Qed.

Section TreeBuilder.
Context `{Zlib}.

Lemma toEntry_Dir (children : list (str * node)) (name : str)
    (exclude_git : bool) (w : walk) :
  toEntry (Dir children) name exclude_git w
  = ('(entries, w1) ←
       run_entries (map (fun nc => (nc.1, toEntry nc.2 nc.1 false))
                      (visible false children)) w;
     b_entries ← join_entries entries;
     '(hash, fs) ← write_object (store w1) (U "tree") b_entries;
     Ok ((U "40000", name, hash), Walk fs (warned w1))).
Proof.
  cbn [toEntry].
  rewrite (visible_map exclude_git
             (fun nc : str * node => toEntry nc.2 nc.1 false)).
  rewrite visible_exclude_git. reflexivity.
Qed.

Lemma write_object_blob (fs : objects) (content : bytes) :
  write_object fs (U "blob") content
  = Ok (SHA1.hexdigest (object_bytes (B "blob") content),
        <[object_path (SHA1.hexdigest (object_bytes (B "blob") content))
            := compress (object_bytes (B "blob") content)]> fs).
Proof. reflexivity. Qed.

Lemma write_object_tree (fs : objects) (content : bytes) :
  write_object fs (U "tree") content
  = Ok (SHA1.hexdigest (object_bytes (B "tree") content),
        <[object_path (SHA1.hexdigest (object_bytes (B "tree") content))
            := compress (object_bytes (B "tree") content)]> fs).
Proof. reflexivity. Qed.

Lemma run_entries_pure (l : list (str * node)) :
  Forall (fun nc => forall name exclude_git w,
            fst <$> toEntry nc.2 name exclude_git w = tree_entry nc.2 name) l ->
  forall w,
    fst <$> run_entries (map (fun nc => (nc.1, toEntry nc.2 nc.1 false)) l) w
    = collect (map (fun nc => tree_entry nc.2 nc.1) l).
Proof.
  induction 1 as [|nc l Hnc _ IH]; intros w; [reflexivity|].
  cbn [map run_entries collect fst snd].
  rewrite <- (Hnc nc.1 false w).
  destruct (toEntry nc.2 nc.1 false w) as [[e w1]|err]; [|reflexivity].
  cbn [fmap result_fmap]. rewrite !bind_Ok.
  rewrite <- (IH w1).
  destruct (run_entries _ w1) as [[es w2]|err]; reflexivity.
Qed.

(** The entry does not depend on the store, on the warnings printed so far,
    on exclude_git or on the compressor. *)
Lemma toEntry_pure (p : node) (name : str) (exclude_git : bool) (w : walk) :
  fst <$> toEntry p name exclude_git w = tree_entry p name.
Proof.
  revert name exclude_git w.
  induction p as [content | children IH |] using node_ind';
    intros name exclude_git w; [| |reflexivity].
  - destruct content as [bs|]; [|reflexivity].
    cbn [toEntry tree_entry]. rewrite bind_Ok, write_object_blob. reflexivity.
  - rewrite toEntry_Dir, tree_entry_Dir.
    assert (IH' : Forall (fun nc => forall name exclude_git w,
              fst <$> toEntry nc.2 name exclude_git w = tree_entry nc.2 name)
              (visible false children)).
    { rewrite Forall_forall in IH |- *. intros nc Hnc.
      apply visible_subset in Hnc as [Hnc _]. apply IH. exact Hnc. }
    rewrite <- (run_entries_pure _ IH' w).
    destruct (run_entries _ w) as [[es w1]|err]; [|reflexivity].
    cbn [fmap result_fmap fst]. rewrite !bind_Ok.
    destruct (join_entries es) as [b|err]; [|reflexivity].
    rewrite !bind_Ok, write_object_tree. reflexivity.
Qed.

End TreeBuilder.

(** *** Shape of the entries *)

Lemma collect_Forall2 {A} (rs : list (result A)) (xs : list A) :
  collect rs = Ok xs <-> Forall2 (fun r x => r = Ok x) rs xs.
Proof.
  revert xs. induction rs as [|r rs IH]; intros xs; cbn [collect].
  - split.
    + intros [= <-]. constructor.
    + inversion 1. reflexivity.
  - split.
    + intros Hc. monad_inv Hc. monad_inv Hc. injection Hc as <-.
      constructor; [assumption | apply IH; assumption].
    + inversion 1 as [|? x ? xs' Hr Hrs]; subst.
      apply IH in Hrs. rewrite Hrs. reflexivity.
Qed.

Lemma tree_entry_shape (p : node) (name : str) (e : entry) :
  tree_entry p name = Ok e ->
  entry_name e = name /\
  (entry_mode e = U "40000" \/ entry_mode e = U "100644") /\
  exists d, entry_hash e = hexlify d.
Proof.
  destruct p as [[bs|]|children|]; [| | |discriminate].
  - intros [= <-]. split; [reflexivity|]. split; [right; reflexivity|].
    eexists. reflexivity.
  - intros [= <-]. split; [reflexivity|]. split; [right; reflexivity|].
    exists (repeat x00 20). reflexivity.
  - rewrite tree_entry_Dir. intros He. monad_inv He. monad_inv He.
    injection He as <-. split; [reflexivity|]. split; [left; reflexivity|].
    eexists. reflexivity.
Qed.

(** The entries of a directory carry the names of its visible children,
    in the order of the walk. *)
Lemma collect_names (l : list (str * node)) (es : list entry) :
  collect (map (fun nc => tree_entry nc.2 nc.1) l) = Ok es ->
  map entry_name es = map fst l.
Proof.
  rewrite collect_Forall2. revert es.
  induction l as [|nc l IH]; intros es; cbn [map]; inversion 1 as [|? e ? es' He Hes]; subst.
  - reflexivity.
  - cbn [map]. f_equal; [|apply IH; assumption].
    apply tree_entry_shape in He. apply He.
Qed.

Lemma join_entries_ok (es : list entry) :
  Forall (fun e => is_ok (encode (entry_mode e)) = true /\
                   is_ok (encode (entry_name e)) = true /\
                   exists d, entry_hash e = hexlify d) es ->
  exists b, join_entries es = Ok b.
Proof.
  induction 1 as [|[[m n] h] es (Hm & Hn & d & Hd) _ [b IH]]; cbn [join_entries].
  - eexists. reflexivity.
  - cbn [entry_mode entry_name entry_hash fst snd] in *. unfold entry_bytes.
    destruct (encode m) as [mb|]; [|discriminate].
    destruct (encode n) as [nb|]; [|discriminate].
    rewrite Hd, fromhex_hexlify, IH, !bind_Ok. eexists. reflexivity.
Qed.

(** With names that can be encoded and directories that can be listed the
    entry of a tree is defined, unreadable files or not. *)
Lemma tree_entry_ok (p : node) (name : str) :
  names_ok p = true -> listable p = true -> exists e, tree_entry p name = Ok e.
Proof.
  revert name. induction p as [[bs|] | children IH |] using node_ind';
    intros name Hok Hls; [eexists; reflexivity .. | | discriminate Hls].
  rewrite tree_entry_Dir. cbn [names_ok] in Hok. cbn [listable] in Hls.
  rewrite forallb_forall in Hok. rewrite forallb_forall in Hls.
  assert (Hall : Forall (fun nc => is_ok (encode nc.1) = true /\
                   exists e, tree_entry nc.2 nc.1 = Ok e)
                 (visible false children)).
  { rewrite Forall_forall in IH |- *. intros nc Hnc.
    apply visible_subset in Hnc as [Hnc _].
    pose proof (Hok nc (proj1 (list_elem_of_In _ _) Hnc)) as Hnc'.
    pose proof (Hls nc (proj1 (list_elem_of_In _ _) Hnc)) as Hnl.
    apply andb_prop in Hnc' as [Hn Hc]. split; [exact Hn|].
    apply IH; assumption. }
  assert (Hes : exists es,
             collect (map (fun nc => tree_entry nc.2 nc.1)
                        (visible false children)) = Ok es /\
             Forall (fun e => is_ok (encode (entry_mode e)) = true /\
                              is_ok (encode (entry_name e)) = true /\
                              exists d, entry_hash e = hexlify d) es).
  { induction Hall as [|nc l (Hn & e & He) _ (es & Hes & Hgood)].
    - exists []. split; [reflexivity | constructor].
    - exists (e :: es). cbn [map collect]. rewrite He, Hes. split; [reflexivity|].
      constructor; [|exact Hgood].
      apply tree_entry_shape in He as (Hname & Hmode & Hhash).
      split; [destruct Hmode as [-> | ->]; reflexivity|].
      split; [rewrite Hname; exact Hn | exact Hhash]. }
  destruct Hes as (es & -> & Hgood). rewrite bind_Ok.
  destruct (join_entries_ok es Hgood) as [b ->]. rewrite bind_Ok.
  eexists. reflexivity.
Qed.

(** *** The same directory, listed in another order *)

Section SameKeys.
Context {A C : Type} (R : str * A -> str * C -> Prop).
Hypothesis R_name : forall a b, R a b -> a.1 = b.1.

Lemma insert_by_name_Forall2 a b l l' :
  R a b -> Forall2 R l l' ->
  Forall2 R (insert_by_name a l) (insert_by_name b l').
Proof.
  intros Hab. induction 1 as [|x y l l' Hxy Hl IH]; cbn [insert_by_name].
  - repeat constructor. exact Hab.
  - rewrite <- (R_name _ _ Hab), <- (R_name _ _ Hxy).
    destruct (str_ltb x.1 a.1); repeat constructor; assumption.
Qed.

Lemma sorted_by_name_Forall2 l l' :
  Forall2 R l l' -> Forall2 R (sorted_by_name l) (sorted_by_name l').
Proof.
  induction 1; cbn [sorted_by_name foldr]; [constructor|].
  apply insert_by_name_Forall2; assumption.
Qed.

Lemma visible_Forall2 exclude_git l l' :
  Forall2 R l l' ->
  Forall2 R (visible exclude_git l) (visible exclude_git l').
Proof.
  intros Hl. unfold visible. apply sorted_by_name_Forall2 in Hl.
  induction Hl as [|x y s s' Hxy Hs IH]; [constructor|].
  rewrite !filter_cons, <- (R_name _ _ Hxy).
  destruct (decide (Is_true (listed exclude_git x.1)));
    [constructor|]; assumption.
Qed.

End SameKeys.

(** The entry of a directory with distinct names does not depend on the
    order in which its children, or theirs, are listed. *)
Lemma tree_entry_same_dir (p q : node) :
  same_dir p q -> distinct_names p ->
  forall name, tree_entry p name = tree_entry q name.
Proof.
  revert q. induction p as [content | children IH |] using node_ind';
    intros q Hsame Hdist name.
  3: { inversion Hsame; subst. reflexivity. }
  - inversion Hsame; subst. reflexivity.
  - inversion Hsame as [|? relisted children' Hperm Hrel|]; subst.
    inversion Hdist as [|? Hnd Hch|]; subst.
    rewrite !tree_entry_Dir.
    unfold visible at 1. rewrite (sorted_by_name_order _ _ Hperm Hnd).
    fold (visible false relisted).
    assert (Hrel' : Forall2 (fun a b : str * node =>
                       a.1 = b.1 /\ tree_entry a.2 a.1 = tree_entry b.2 b.1)
                      relisted children').
    { assert (Hall : Forall (fun nc => distinct_names nc.2 /\
                forall q, same_dir nc.2 q -> distinct_names nc.2 ->
                  forall name, tree_entry nc.2 name = tree_entry q name)
                relisted).
      { rewrite <- Hperm. rewrite Forall_forall in IH, Hch |- *.
        intros nc Hnc. split; [apply Hch | apply IH]; exact Hnc. }
      clear - Hrel Hall. induction Hrel as [|a b l l' [Hn Hs] _ IHrel];
        [constructor|].
      apply Forall_cons in Hall as [[Hd Ha] Hall].
      constructor; [|apply IHrel; exact Hall].
      split; [exact Hn|]. rewrite <- Hn. apply Ha; assumption. }
    apply (visible_Forall2 _ (fun a b H => proj1 H) false) in Hrel'.
    assert (Heq : map (fun nc : str * node => tree_entry nc.2 nc.1)
                    (visible false relisted)
                  = map (fun nc : str * node => tree_entry nc.2 nc.1)
                      (visible false children')).
    { induction Hrel' as [|a b l l' [_ Hab] _ IHl]; cbn [map];
        [reflexivity | congruence]. }
    rewrite Heq. reflexivity.
Qed.

(** *** The names of the entries *)

Lemma StronglySorted_filter {A} (R : A -> A -> Prop) (P : A -> Prop)
    `{forall x, Decision (P x)} (l : list A) :
  StronglySorted R l -> StronglySorted R (filter P l).
Proof.
  induction 1 as [|x l Hl IH Hx]; [constructor|].
  rewrite filter_cons. destruct (decide (P x)); [|exact IH].
  constructor; [exact IH|].
  rewrite Forall_forall in Hx |- *. intros y Hy.
  apply list_elem_of_filter in Hy as [_ Hy]. apply Hx. exact Hy.
Qed.

Lemma visible_names_sorted {A} (exclude_git : bool) (l : list (str * A)) :
  StronglySorted str_le (map fst (visible exclude_git l)).
Proof.
  unfold visible. apply (StronglySorted_fmap fst by_name str_le).
  - intros x y Hxy. exact Hxy.
  - apply StronglySorted_filter, sorted_by_name_sorted.
Qed.

Lemma visible_names_perm {A} (exclude_git : bool) (l : list (str * A)) :
  map fst (visible exclude_git l)
  ≡ₚ filter (fun n => startswith n (U ".") = false) (map fst l).
Proof.
  unfold visible. rewrite <- (sorted_by_name_perm l) at 2.
  generalize (sorted_by_name l) as s.
  induction s as [|x s IH]; [reflexivity|].
  cbn [map]. rewrite !filter_cons, listed_dot.
  destruct (startswith x.1 (U ".")) eqn:E; cbn [negb].
  - rewrite decide_False by (intros []).
    rewrite decide_False by discriminate. exact IH.
  - rewrite decide_True by exact I.
    rewrite decide_True by reflexivity. cbn [map]. constructor. exact IH.
Qed.

Lemma entry_hash_name (p : node) (name name' : str) :
  entry_hash <$> tree_entry p name = entry_hash <$> tree_entry p name'.
Proof.
  destruct p as [[bs|]|children|]; try reflexivity.
  rewrite !tree_entry_Dir.
  destruct (collect _) as [es|]; [|reflexivity]. rewrite !bind_Ok.
  destruct (join_entries es); reflexivity.
Qed.

Section TreeOrder.
Context `{Zlib}.

Lemma fmap_Ok_inv {A C} (f : A -> C) (r : result A) (c : C) :
  f <$> r = Ok c -> exists a, r = Ok a /\ f a = c.
Proof.
  destruct r as [a|]; [|discriminate]. intros [= <-]. eauto.
Qed.

Lemma run_entries_collect (l : list (str * node)) (w w1 : walk)
    (es : list entry) :
  run_entries (map (fun nc => (nc.1, toEntry nc.2 nc.1 false)) l) w
  = Ok (es, w1) ->
  collect (map (fun nc => tree_entry nc.2 nc.1) l) = Ok es.
Proof.
  intros Hrun. rewrite <- (run_entries_pure l) with (w := w).
  - rewrite Hrun. reflexivity.
  - apply Forall_forall. intros nc _ name eg w0. apply toEntry_pure.
Qed.

(** What toEntry writes for a directory. *)
Lemma toEntry_Dir_entries (children : list (str * node)) (name : str)
    (exclude_git : bool) (w w' : walk) (e : entry) :
  toEntry (Dir children) name exclude_git w = Ok (e, w') ->
  exists entries b_entries,
    read_object (store w') (entry_hash e) = Ok (U "tree", b_entries) /\
    join_entries entries = Ok b_entries /\
    map entry_name entries = map fst (visible false children).
Proof.
  rewrite toEntry_Dir. intros Hrun.
  monad_inv Hrun. destruct a as [es w1].
  monad_inv Hrun. rename a into b.
  monad_inv Hrun. destruct a as [hash fs]. injection Hrun as <- <-.
  exists es, b. cbn [entry_hash snd store].
  destruct (write_then_read (store w1) (U "tree") b) as (sha & fs' & Hw & _ & Hr).
  { unfold direct_kinds. rewrite list_elem_of_In. simpl. tauto. }
  rewrite Hw in Ha1. injection Ha1 as <- <-.
  split; [exact Hr|]. split; [exact Ha0|].
  apply collect_names. eapply run_entries_collect. exact Ha.
Qed.

Lemma toEntry_ok (p : node) (name : str) (exclude_git : bool) (w : walk) :
  names_ok p = true -> listable p = true ->
  exists e w', toEntry p name exclude_git w = Ok (e, w').
Proof.
  intros Hok Hls. destruct (tree_entry_ok p name Hok Hls) as [e He].
  rewrite <- (toEntry_pure p name exclude_git w) in He.
  apply fmap_Ok_inv in He as ([e' w'] & Hrun & _). eauto.
Qed.

End TreeOrder.

(** *** The rows of a tree object *)

Lemma hexlify_inj (a b : bytes) : hexlify a = hexlify b -> a = b.
Proof.
  intros E. pose proof (fromhex_hexlify a) as Ha.
  rewrite E, fromhex_hexlify in Ha. congruence.
Qed.

Lemma visible_perm {A} (exclude_git : bool) (l : list (str * A)) :
  visible exclude_git l
  ≡ₚ filter (fun nc => startswith nc.1 (U ".") = false) l.
Proof.
  unfold visible. rewrite <- (sorted_by_name_perm l) at 2.
  generalize (sorted_by_name l) as s.
  induction s as [|x s IH]; [reflexivity|].
  rewrite !filter_cons, listed_dot.
  destruct (startswith x.1 (U ".")) eqn:E; cbn [negb].
  - rewrite decide_False by (intros []).
    rewrite decide_False by discriminate. exact IH.
  - rewrite decide_True by exact I.
    rewrite decide_True by reflexivity. constructor. exact IH.
Qed.

(** The entry of a node names its kind in the mode and carries a digest,
    or twenty zeros, in hexadecimal. *)
Lemma tree_entry_row (p : node) (name : str) (e : entry) :
  tree_entry p name = Ok e ->
  entry_name e = name /\ encode (entry_mode e) = Ok (mode_bytes p) /\
  exists raw, entry_hash e = hexlify raw /\ length raw = 20.
Proof.
  destruct p as [[bs|]|children|]; [| | |discriminate].
  - intros [= <-]. repeat split. eexists. split; [reflexivity|].
    apply digest_length.
  - intros [= <-]. repeat split. exists (repeat x00 20). split; reflexivity.
  - rewrite tree_entry_Dir. intros He. monad_inv He. monad_inv He.
    injection He as <-. repeat split. eexists. split; [reflexivity|].
    apply digest_length.
Qed.

Lemma join_entries_rows (l : list (str * node)) (es : list entry) (b : bytes) :
  collect (map (fun nc => tree_entry nc.2 nc.1) l) = Ok es ->
  join_entries es = Ok b ->
  exists rows, Forall2 row_of l rows /\ b = concat rows.
Proof.
  rewrite collect_Forall2. revert es b.
  induction l as [|nc l IH]; intros es b; cbn [map];
    inversion 1 as [|? e ? es' He Hes]; subst; cbn [join_entries]; intros Hj.
  - injection Hj as <-. exists []. split; [constructor | reflexivity].
  - monad_inv Hj. rename a into row, Ha into Hrow.
    monad_inv Hj. rename a into b', Ha into Hb'. injection Hj as <-.
    destruct (IH es' b' Hes Hb') as (rows & Hrows & ->).
    exists (row :: rows). split; [|reflexivity]. constructor; [|exact Hrows].
    destruct (tree_entry_row _ _ _ He) as (Hname & Hmode & raw & Hraw & Hlen).
    destruct e as [[m n] h]. cbn [entry_mode entry_name entry_hash fst snd] in *.
    subst n h. cbn [entry_bytes] in Hrow. rewrite Hmode, bind_Ok in Hrow.
    monad_inv Hrow. rename a into name_b, Ha into Hname_b.
    rewrite fromhex_hexlify, bind_Ok in Hrow. injection Hrow as <-.
    exists name_b, raw, (m, nc.1, hexlify raw). repeat split; assumption.
Qed.

Section TreeRows.
Context `{Zlib}.

(** What toEntry writes for a directory, row by row. *)
Lemma toEntry_Dir_rows (children : list (str * node)) (name : str)
    (exclude_git : bool) (w w' : walk) (e : entry) :
  toEntry (Dir children) name exclude_git w = Ok (e, w') ->
  exists rows,
    Forall2 row_of (visible false children) rows /\
    read_object (store w') (entry_hash e) = Ok (U "tree", concat rows) /\
    entry_hash e = SHA1.hexdigest (object_bytes (B "tree") (concat rows)).
Proof.
  rewrite toEntry_Dir. intros Hrun.
  monad_inv Hrun. destruct a as [es w1]. rename Ha into Hes.
  monad_inv Hrun. rename a into b, Ha into Hb.
  monad_inv Hrun. destruct a as [hash fs]. rename Ha into Hw.
  injection Hrun as <- <-. cbn [entry_hash snd store].
  apply run_entries_collect in Hes.
  destruct (join_entries_rows _ es b Hes Hb) as (rows & Hrows & ->).
  exists rows. split; [exact Hrows|].
  destruct (write_then_read (store w1) (U "tree") (concat rows))
    as (sha & fs' & Hw' & _ & Hr).
  { unfold direct_kinds. rewrite list_elem_of_In. simpl. tauto. }
  rewrite Hw' in Hw. injection Hw as <- <-.
  split; [exact Hr|].
  rewrite write_object_tree in Hw'. injection Hw' as <- _. reflexivity.
Qed.

End TreeRows.

(** ** What the delta resolver does with short input *)


Lemma index_nonneg (bs : bytes) (i : nat) (v : Z) :
  index bs i = Ok v -> (0 <= v < 256)%Z.
Proof.
  unfold index. destruct (bs !! i) as [b|]; [|discriminate].
  intros [= <-]. apply byte_to_Z_range.
Qed.


Lemma read_field_nonneg (content : bytes) (first_bit : Z) (range : list Z)
    (acc : Z) (data_ptr : nat) (v : Z) (data_ptr' : nat) :
  (0 <= acc)%Z -> Forall (fun i => (0 <= i)%Z) range ->
  read_field content first_bit range acc data_ptr = Ok (v, data_ptr') ->
  (0 <= v)%Z.
Proof.
  intros Hacc Hrange. revert acc data_ptr Hacc.
  induction Hrange as [|i range Hi _ IH]; intros acc data_ptr Hacc Hr.
  - cbn [read_field] in Hr. congruence.
  - cbn [read_field] in Hr. monad_inv Hr.
    destruct (Z.land a (Z.shiftl 1 (first_bit + i)) =? 0)%Z.
    + eapply IH; eassumption.
    + monad_inv Hr. apply index_nonneg in Ha0.
      eapply IH; [|exact Hr].
      apply Z.lor_nonneg. split; [exact Hacc|].
      apply Z.shiftl_nonneg. lia.
Qed.





(** An insert op appends the literal bytes that are there, however few. *)
Lemma delta_op_insert (base_content rest : bytes) (b : byte) :
  Z.land (byte_to_Z b) 128 = 0%Z ->
  delta_op base_content (b :: rest)
  = Ok (drop (Z.to_nat (byte_to_Z b)) rest, take (Z.to_nat (byte_to_Z b)) rest).
Proof.
  intros Hins. unfold delta_op. cbn [index lookup list_lookup].
  rewrite bind_Ok, Hins. cbn [Z.eqb].
  pose proof (byte_to_Z_range b) as Hb.
  rewrite slice_from_nonneg, slice_nonneg by lia.
  replace (Z.to_nat (byte_to_Z b + 1)) with (S (Z.to_nat (byte_to_Z b))) by lia.
  replace (S (Z.to_nat (byte_to_Z b)) - Z.to_nat 1)
    with (Z.to_nat (byte_to_Z b)) by lia.
  reflexivity.
Qed.


(** ** The outcomes of read_object *)

Lemma unpack2_length {A} (pieces : list A) :
  length pieces <> 2 -> unpack2 pieces = Raise ValueError.
Proof.
  destruct pieces as [|a [|b [|c pieces]]]; cbn [length unpack2];
    intros Hlen; try reflexivity. lia.
Qed.

Lemma decode_values_raises (l : list Z) (e : exn) :
  decode_values l = Raise e -> e = UnicodeDecodeError.
Proof.
  revert l e. fix IH 1. intros l e.
  destruct l as [|b0 r0]; cbn [decode_values]; [discriminate|].
  repeat match goal with
  | |- context [if ?c then _ else _] => destruct c
  | |- context [match ?r with [] => _ | _ :: _ => _ end] => destruct r
  end;
  try (intros [= <-]; reflexivity);
  match goal with
  | |- context [decode_values ?r] =>
      destruct (decode_values r) as [s|e'] eqn:Hr;
      cbn [mbind result_bind];
      [discriminate | intros [= <-]; eapply IH; exact Hr]
  end.
Qed.

Section ReadOutcomes.
Context `{Zlib}.

Lemma read_object_missing (fs : objects) (sha : str) :
  fs !! object_path sha = None -> read_object fs sha = Raise FileNotFoundError.
Proof. intros Hfs. unfold read_object, read_bytes. rewrite Hfs. reflexivity. Qed.

Lemma read_object_corrupt (fs : objects) (sha : str) (bs : bytes) :
  fs !! object_path sha = Some bs -> decompress bs = None ->
  read_object fs sha = Raise zlib_error.
Proof.
  intros Hfs Hz. unfold read_object, read_bytes, zlib_decompress.
  rewrite Hfs, bind_Ok, Hz. reflexivity.
Qed.

Lemma read_object_no_nul (fs : objects) (sha : str) (bs raw : bytes) :
  fs !! object_path sha = Some bs -> decompress bs = Some raw ->
  NUL ∉ raw -> read_object fs sha = Raise ValueError.
Proof.
  intros Hfs Hz Hraw. unfold read_object, read_bytes, zlib_decompress.
  rewrite Hfs, bind_Ok, Hz, bind_Ok, split_once_absent by exact Hraw.
  reflexivity.
Qed.

Lemma read_object_fields_count (fs : objects) (sha : str)
    (bs head content : bytes) :
  fs !! object_path sha = Some bs ->
  decompress bs = Some (head ++ NUL :: content) -> NUL ∉ head ->
  length (filter (fun c => c = SP) head) <> 1 ->
  read_object fs sha = Raise ValueError.
Proof.
  intros Hfs Hz Hhead Hcount. unfold read_object, read_bytes, zlib_decompress.
  rewrite Hfs, bind_Ok, Hz, bind_Ok, split_once_first by exact Hhead.
  cbn [unpack2]. rewrite bind_Ok, unpack2_length; [reflexivity|].
  rewrite split_all_length. lia.
Qed.

Lemma unpack2_raises {A} (pieces : list A) (e : exn) :
  unpack2 pieces = Raise e -> e = ValueError.
Proof.
  destruct pieces as [|a [|b [|c pieces]]]; cbn [unpack2]; congruence.
Qed.

Lemma read_object_raises (fs : objects) (sha : str) (e : exn) :
  read_object fs sha = Raise e ->
  e = FileNotFoundError \/ e = zlib_error \/ e = ValueError
  \/ e = UnicodeDecodeError.
Proof.
  unfold read_object, read_bytes, zlib_decompress.
  destruct (fs !! object_path sha) as [bs|]; cbn [mbind result_bind];
    [|intros [= <-]; tauto].
  destruct (decompress bs) as [raw|]; cbn [mbind result_bind];
    [|intros [= <-]; tauto].
  destruct (unpack2 (split_once NUL raw)) as [[head content]|e1] eqn:E1;
    cbn [mbind result_bind];
    [|intros [= <-]; apply unpack2_raises in E1; tauto].
  destruct (unpack2 (split_all SP head)) as [[ty len]|e2] eqn:E2;
    cbn [mbind result_bind];
    [|intros [= <-]; apply unpack2_raises in E2; tauto].
  destruct (decode ty) as [ty'|e3] eqn:E3; cbn [mbind result_bind];
    [discriminate|].
  intros [= <-]. apply decode_values_raises in E3. tauto.
Qed.

End ReadOutcomes.

(** C4 as stated fails: with a length that is no number, and with a kind
    that is none of the four, read_object returns. *)
Lemma read_object_accepts_any_header :
  let sha := repeat 97%Z 40 in
  @read_object Plain.codec
    {[ object_path sha := Plain.deflate (B "blob xyz" ++ [NUL] ++ B "abc") ]}
    sha = Ok (U "blob", B "abc") /\
  @read_object Plain.codec
    {[ object_path sha := Plain.deflate (B "frob 3" ++ [NUL] ++ B "abc") ]}
    sha = Ok (U "frob", B "abc").
Proof. split; vm_compute; reflexivity. Qed.

(** C4, as the code has it.  For a hash, read_object raises
    FileNotFoundError when the path is not there, zlib.error when
    decompression fails, ValueError when the bytes hold no NUL or when the
    header before the first NUL is not two fields around one space, and
    UnicodeDecodeError when the first field is not UTF-8.  Otherwise it
    returns the first field, decoded, and the bytes after the first NUL: the
    second field is not read and the first is not compared with the kinds. *)
Theorem read_object_outcomes (z : Zlib) (fs : objects) (sha : str) :
  is_hash sha ->
  (fs !! object_path sha = None ->
   read_object fs sha = Raise FileNotFoundError) /\
  (forall bs, fs !! object_path sha = Some bs -> decompress bs = None ->
   read_object fs sha = Raise zlib_error) /\
  (forall bs raw, fs !! object_path sha = Some bs ->
   decompress bs = Some raw -> NUL ∉ raw ->
   read_object fs sha = Raise ValueError) /\
  (forall bs head content, fs !! object_path sha = Some bs ->
   decompress bs = Some (head ++ NUL :: content) -> NUL ∉ head ->
   length (filter (fun c => c = SP) head) <> 1 ->
   read_object fs sha = Raise ValueError) /\
  (forall bs field1 field2 content, fs !! object_path sha = Some bs ->
   decompress bs = Some (field1 ++ SP :: field2 ++ NUL :: content) ->
   NUL ∉ field1 -> SP ∉ field1 -> NUL ∉ field2 -> SP ∉ field2 ->
   read_object fs sha
   = match decode field1 with
     | Ok ty => Ok (ty, content)
     | Raise _ => Raise UnicodeDecodeError
     end) /\
  (forall e, read_object fs sha = Raise e ->
   e = FileNotFoundError \/ e = zlib_error \/ e = ValueError
   \/ e = UnicodeDecodeError).
Proof.
  intros _. split; [|split; [|split; [|split; [|split]]]];
    [| | | | |apply read_object_raises].
  - apply read_object_missing.
  - apply read_object_corrupt.
  - apply read_object_no_nul.
  - apply read_object_fields_count.
  - intros bs field1 field2 content Hfs Hz H1z H1s H2z H2s.
    rewrite (read_object_fields fs sha bs field1 field2 content Hfs Hz H1z H1s H2z H2s).
    destruct (decode field1) as [ty|e] eqn:Hd; [reflexivity|].
    cbn [mbind result_bind]. f_equal. eapply decode_values_raises. exact Hd.
Qed.

(** C4 on an object whose header says tree and 99 over a content of three
    bytes. *)
Lemma read_object_outcomes_witness :
  let sha := repeat 97%Z 40 in
  @read_object Plain.codec
    {[ object_path sha := Plain.deflate (B "tree 99" ++ [NUL] ++ B "abc") ]}
    sha = Ok (U "tree", B "abc").
Proof.
  intros sha.
  destruct (read_object_outcomes Plain.codec
              {[ object_path sha
                 := Plain.deflate (B "tree 99" ++ [NUL] ++ B "abc") ]} sha)
    as (_ & _ & _ & _ & Hfields & _).
  - split; [reflexivity | repeat constructor].
  - apply (Hfields (Plain.deflate (B "tree 99" ++ [NUL] ++ B "abc"))
             (B "tree") (B "99") (B "abc")).
    + apply lookup_singleton_eq.
    + reflexivity.
    + rewrite list_elem_of_In. simpl. intuition discriminate.
    + rewrite list_elem_of_In. simpl. intuition discriminate.
    + rewrite list_elem_of_In. simpl. intuition discriminate.
    + rewrite list_elem_of_In. simpl. intuition discriminate.
Defined.

(** ** pkt-lines *)

Lemma int16_reads_all :
  forallb (fun d3 => forallb (fun d2 => forallb (fun d1 =>
    forallb (fun d0 => int16_reads d3 d2 d1 d0) digits16) digits16) digits16)
    digits16 = true.
Proof. vm_compute. reflexivity. Qed.

Lemma digits16_In (d : Z) : (0 <= d < 16)%Z -> In d digits16.
Proof.
  intros Hd. unfold digits16.
  assert (d = 0 \/ d = 1 \/ d = 2 \/ d = 3 \/ d = 4 \/ d = 5 \/ d = 6 \/ d = 7
          \/ d = 8 \/ d = 9 \/ d = 10 \/ d = 11 \/ d = 12 \/ d = 13 \/ d = 14
          \/ d = 15)%Z as Hcases by lia.
  simpl. intuition.
Qed.

(** Pkt-line length round trip: int reads back what the sender wrote. *)
Lemma int16_hex4 (n : Z) : (0 <= n < 65536)%Z -> int16 (hex4 n) = Ok n.
Proof.
  intros Hn. pose proof int16_reads_all as Hall.
  rewrite forallb_forall in Hall.
  specialize (Hall (n / 4096 mod 16)%Z (digits16_In _ ltac:(apply Z.mod_pos_bound; lia))).
  rewrite forallb_forall in Hall.
  specialize (Hall (n / 256 mod 16)%Z (digits16_In _ ltac:(apply Z.mod_pos_bound; lia))).
  rewrite forallb_forall in Hall.
  specialize (Hall (n / 16 mod 16)%Z (digits16_In _ ltac:(apply Z.mod_pos_bound; lia))).
  rewrite forallb_forall in Hall.
  specialize (Hall (n mod 16)%Z (digits16_In _ ltac:(apply Z.mod_pos_bound; lia))).
  unfold int16_reads in Hall. unfold hex4.
  destruct (int16 _) as [v|]; [|discriminate].
  apply Z.eqb_eq in Hall. f_equal. rewrite Hall. clear Hall.
  Z.to_euclidean_division_equations. lia.
Qed.

Lemma hex4_length (n : Z) : length (hex4 n) = 4.
Proof. reflexivity. Qed.

Lemma pkt_lines_step (fuel : nat) (pack_bytes : bytes) (pack_lines : list bytes) :
  pack_bytes <> [] ->
  pkt_lines (S fuel) pack_bytes pack_lines
  = match int16 (take 4 pack_bytes) with
    | Raise e => Some (Raise e)
    | Ok line_len =>
        if (line_len =? 0)%Z then Some (Ok pack_lines)
        else pkt_lines fuel (slice_from pack_bytes line_len)
               (pack_lines ++ [slice pack_bytes 4 line_len])
    end.
Proof. destruct pack_bytes; [congruence | reflexivity]. Qed.

(** One pass of the loop takes one data line off the front. *)
Lemma pkt_lines_line (fuel : nat) (payload rest : bytes) (pack_lines : list bytes) :
  (Z.of_nat (length payload) + 4 < 65536)%Z ->
  pkt_lines (S fuel) (pkt_line payload ++ rest) pack_lines
  = pkt_lines fuel rest (pack_lines ++ [payload]).
Proof.
  intros Hlen. unfold pkt_line.
  set (n := (Z.of_nat (length payload) + 4)%Z).
  pose proof (hex4_length n) as Hh.
  rewrite pkt_lines_step.
  2:{ destruct (hex4 n); [discriminate Hh | discriminate]. }
  rewrite <- !app_assoc.
  rewrite take_app_length' by exact Hh.
  rewrite int16_hex4 by lia.
  destruct (Z.eqb_spec n 0) as [E|_]; [lia|].
  rewrite slice_from_nonneg, slice_nonneg by lia.
  replace (Z.to_nat n) with (4 + length payload) by lia.
  replace (4 + length payload - Z.to_nat 4) with (length payload) by lia.
  change (Z.to_nat 4) with 4.
  rewrite <- drop_drop, !drop_app_length' by (exact Hh || reflexivity).
  rewrite take_app_length. reflexivity.
Qed.

(** The loop on a framed body: data lines, then the line of length zero. *)
Lemma pkt_lines_framed (payloads : list bytes) (rest : bytes) (fuel : nat)
    (pack_lines : list bytes) :
  Forall (fun p => (Z.of_nat (length p) + 4 < 65536)%Z) payloads ->
  length payloads < fuel ->
  pkt_lines fuel (concat (map pkt_line payloads) ++ flush_pkt ++ rest) pack_lines
  = Some (Ok (pack_lines ++ payloads)).
Proof.
  intros Hall. revert fuel pack_lines.
  induction Hall as [|p payloads Hp _ IH]; intros fuel pack_lines Hfuel;
    (destruct fuel as [|fuel]; [cbn [length] in Hfuel; lia|]).
  - rewrite app_nil_r. reflexivity.
  - cbn [map concat]. rewrite <- app_assoc, pkt_lines_line by exact Hp.
    rewrite IH by (cbn [length] in Hfuel; lia).
    rewrite <- app_assoc. reflexivity.
Qed.

Section EntryLoop.
Context `{Zlib}.

(** The for loop reads one entry header per pass. *)
Lemma pack_entries_seen (n : nat) (fs fs' : objects) (pack_file unread : bytes)
    (seen seen' : list str) :
  pack_entries n fs pack_file seen = Ok (fs', unread, seen') ->
  length seen' = length seen + n.
Proof.
  revert fs pack_file seen. induction n as [|n IH]; intros fs pack_file seen;
    cbn [pack_entries].
  - intros [= _ _ <-]. lia.
  - intros Hrun. monad_inv Hrun. destruct a as [[fs1 pack1] ty].
    apply IH in Hrun. rewrite length_app in Hrun. cbn [length] in Hrun. lia.
Qed.

End EntryLoop.

Lemma unpack_be32_value (bs : bytes) (n : Z) :
  unpack_be32 bs = Ok n ->
  exists b3 b2 b1 b0,
    bs = [b3; b2; b1; b0] /\
    n = (((byte_to_Z b3 * 256 + byte_to_Z b2) * 256 + byte_to_Z b1) * 256
         + byte_to_Z b0)%Z.
Proof.
  unfold unpack_be32. destruct (decide (length bs = 4)) as [Hlen|]; [|discriminate].
  destruct bs as [|b3 [|b2 [|b1 [|b0 [|]]]]]; try discriminate.
  intros [= <-]. exists b3, b2, b1, b0. split; [reflexivity|].
  unfold be_value. cbn [fold_left]. lia.
Qed.

(** The entry loop on that response runs to its end: two entries read, no
    byte unread. *)
Example response_unpacked :
  match @unpack_response Plain.codec 4 ∅
          (concat (map pkt_line response_lines) ++ flush_pkt) with
  | Some (Ok (_, unread, seen)) => unread = [] /\ seen = [U "blob"; U "commit"]
  | _ => False
  end.
Proof. vm_compute. split; reflexivity. Qed.

(** * Further properties *)

(** ** Bit operations as arithmetic *)

Lemma lor_disjoint (a b k : Z) :
  (0 <= k)%Z -> (0 <= b < 2 ^ k)%Z -> (a mod 2 ^ k = 0)%Z ->
  Z.lor a b = (a + b)%Z.
Proof.
  intros Hk Hb Ha. rewrite <- Z.add_lor_land.
  assert (Z.land a b = 0%Z) as ->; [|lia].
  apply Z.bits_inj'. intros n Hn. rewrite Z.land_spec, Z.bits_0.
  destruct (Z.lt_ge_cases n k) as [Hlt | Hge].
  - rewrite <- (Z.mod_pow2_bits_low a k n) by lia. rewrite Ha, Z.bits_0.
    reflexivity.
  - rewrite <- (Z.mod_small b (2 ^ k)) by lia.
    rewrite Z.mod_pow2_bits_high by lia. apply andb_false_r.
Qed.

Lemma land_low (a m k : Z) :
  (0 <= k)%Z -> m = (2 ^ k - 1)%Z -> Z.land a m = (a mod 2 ^ k)%Z.
Proof.
  intros Hk ->. rewrite <- Z.land_ones by lia. f_equal.
  rewrite Z.ones_equiv. lia.
Qed.

Lemma byte_to_of_Z_small (z : Z) :
  (0 <= z < 256)%Z -> byte_to_Z (byte_of_Z z) = z.
Proof. intros Hz. rewrite byte_to_of_Z. apply Z.mod_small. exact Hz. Qed.

Ltac div_lia := Z.to_euclidean_division_equations; lia.

(** ** UTF-8 *)

Lemma cont_value (z : Z) :
  byte_to_Z (cont z) = (128 + z mod 64)%Z.
Proof.
  unfold cont. rewrite (land_low z 63 6) by first [lia | reflexivity].
  change (2 ^ 6)%Z with 64%Z.
  pose proof (Z.mod_pos_bound z 64 ltac:(lia)).
  rewrite (lor_disjoint 128 (z mod 64) 6) by (try reflexivity; lia).
  apply byte_to_of_Z_small. lia.
Qed.

Lemma in_range_true (lo hi z : Z) :
  (lo <= z <= hi)%Z -> in_range lo hi z = true.
Proof. unfold in_range. lia. Qed.

Lemma in_range_false (lo hi z : Z) :
  (z < lo \/ hi < z)%Z -> in_range lo hi z = false.
Proof. unfold in_range. lia. Qed.

(** Putting the pieces of a code point back together. *)
Lemma join2 (c : Z) :
  (0 <= c < 2048)%Z ->
  Z.lor (Z.shiftl (Z.land (192 + c / 64) 31) 6) (Z.land (128 + c mod 64) 63)
  = c.
Proof.
  intros Hc.
  rewrite (land_low _ 31 5), (land_low _ 63 6) by first [lia | reflexivity].
  rewrite Z.shiftl_mul_pow2 by lia.
  change (2 ^ 5)%Z with 32%Z. change (2 ^ 6)%Z with 64%Z.
  rewrite (lor_disjoint _ _ 6); change (2 ^ 6)%Z with 64%Z; div_lia.
Qed.

Lemma join3 (c : Z) :
  (0 <= c < 65536)%Z ->
  Z.lor (Z.shiftl (Z.land (224 + c / 4096) 15) 12)
    (Z.lor (Z.shiftl (Z.land (128 + c / 64 mod 64) 63) 6)
       (Z.land (128 + c mod 64) 63))
  = c.
Proof.
  intros Hc.
  rewrite (land_low _ 15 4), !(land_low _ 63 6) by first [lia | reflexivity].
  rewrite !Z.shiftl_mul_pow2 by lia.
  change (2 ^ 4)%Z with 16%Z. change (2 ^ 6)%Z with 64%Z.
  change (2 ^ 12)%Z with 4096%Z.
  rewrite (lor_disjoint (_ * 64) _ 6)
    by (change (2 ^ 6)%Z with 64%Z; div_lia).
  rewrite (lor_disjoint (_ * 4096) _ 12); change (2 ^ 12)%Z with 4096%Z; div_lia.
Qed.

Lemma join4 (c : Z) :
  (0 <= c < 2097152)%Z ->
  Z.lor (Z.shiftl (Z.land (240 + c / 262144) 7) 18)
    (Z.lor (Z.shiftl (Z.land (128 + c / 4096 mod 64) 63) 12)
       (Z.lor (Z.shiftl (Z.land (128 + c / 64 mod 64) 63) 6)
          (Z.land (128 + c mod 64) 63)))
  = c.
Proof.
  intros Hc.
  rewrite (land_low _ 7 3), !(land_low _ 63 6) by first [lia | reflexivity].
  rewrite !Z.shiftl_mul_pow2 by lia.
  change (2 ^ 3)%Z with 8%Z. change (2 ^ 6)%Z with 64%Z.
  change (2 ^ 12)%Z with 4096%Z. change (2 ^ 18)%Z with 262144%Z.
  rewrite (lor_disjoint (_ * 64) _ 6)
    by (change (2 ^ 6)%Z with 64%Z; div_lia).
  rewrite (lor_disjoint (_ * 4096) _ 12)
    by (change (2 ^ 12)%Z with 4096%Z; div_lia).
  rewrite (lor_disjoint (_ * 262144) _ 18); change (2 ^ 18)%Z with 262144%Z; div_lia.
Qed.

Lemma decode_encode_char (c : Z) (bs : bytes) (rest : list Z) :
  encode_char c = Ok bs ->
  decode_values (map byte_to_Z bs ++ rest)
  = (s ← decode_values rest; Ok (c :: s)).
Proof.
  unfold encode_char.
  destruct (Z.ltb_spec c 0); [discriminate|].
  destruct (Z.ltb_spec c 128).
  { intros [= <-]. cbn [map app decode_values].
    rewrite byte_to_of_Z_small by lia.
    destruct (Z.ltb_spec c 128); [reflexivity | lia]. }
  destruct (Z.ltb_spec c 2048).
  { intros [= <-]. cbn [map app decode_values].
    rewrite !cont_value.
    rewrite Z.shiftr_div_pow2 by lia. change (2 ^ 6)%Z with 64%Z.
    rewrite (lor_disjoint 192 (c / 64) 5)
      by (try reflexivity; change (2 ^ 5)%Z with 32%Z; div_lia).
    rewrite byte_to_of_Z_small by div_lia.
    destruct (Z.ltb_spec (192 + c / 64) 128); [div_lia|].
    rewrite in_range_true by div_lia.
    rewrite in_range_true by div_lia.
    rewrite join2 by lia. reflexivity. }
  destruct (Z.leb_spec 55296 c), (Z.leb_spec c 57343);
    cbn [andb]; try discriminate.
  all: destruct (Z.ltb_spec c 65536).
  all: try (intros [= <-]; cbn [map app decode_values];
    rewrite !cont_value;
    rewrite !Z.shiftr_div_pow2 by lia;
    change (2 ^ 6)%Z with 64%Z; change (2 ^ 12)%Z with 4096%Z;
    rewrite (lor_disjoint 224 (c / 4096) 4)
      by (try reflexivity; change (2 ^ 4)%Z with 16%Z; div_lia);
    rewrite byte_to_of_Z_small by div_lia;
    destruct (Z.ltb_spec (224 + c / 4096) 128); [div_lia|];
    rewrite (in_range_false 194 223) by div_lia;
    rewrite (in_range_true 224 239) by div_lia;
    rewrite (in_range_true _ _ (128 + c / 64 mod 64))
      by (destruct (Z.eqb_spec (224 + c / 4096) 224),
                   (Z.eqb_spec (224 + c / 4096) 237); div_lia);
    rewrite in_range_true by div_lia;
    cbn [andb]; rewrite join3 by lia; reflexivity).
  all: try lia.
  all: destruct (Z.ltb_spec c 1114112); [|discriminate].
  all: intros [= <-]; cbn [map app decode_values];
    rewrite !cont_value;
    rewrite !Z.shiftr_div_pow2 by lia;
    change (2 ^ 6)%Z with 64%Z; change (2 ^ 12)%Z with 4096%Z;
    change (2 ^ 18)%Z with 262144%Z;
    rewrite (lor_disjoint 240 (c / 262144) 3)
      by (try reflexivity; change (2 ^ 3)%Z with 8%Z; div_lia);
    rewrite byte_to_of_Z_small by div_lia;
    destruct (Z.ltb_spec (240 + c / 262144) 128); [div_lia|];
    rewrite (in_range_false 194 223) by div_lia;
    rewrite (in_range_false 224 239) by div_lia;
    rewrite (in_range_true 240 244) by div_lia;
    rewrite (in_range_true _ _ (128 + c / 4096 mod 64))
      by (destruct (Z.eqb_spec (240 + c / 262144) 240),
                   (Z.eqb_spec (240 + c / 262144) 244); div_lia);
    rewrite !in_range_true by div_lia;
    cbn [andb]; rewrite join4 by lia; reflexivity.
Qed.

Lemma decode_encode (s : str) (bs : bytes) :
  encode s = Ok bs -> decode bs = Ok s.
Proof.
  unfold decode. revert bs. induction s as [|c s IH]; intros bs; cbn [encode].
  - intros [= <-]. reflexivity.
  - intros He. monad_inv He. rename a into bc. monad_inv He. rename a into br.
    injection He as <-. rewrite map_app, (decode_encode_char c bc) by assumption.
    rewrite (IH br) by assumption. reflexivity.
Qed.

(** The bytes below 128 of an encoded text are its characters below 128. *)
Lemma encode_char_low (c : Z) (bs : bytes) (b : byte) :
  encode_char c = Ok bs -> (byte_to_Z b < 128)%Z ->
  b ∈ bs <-> byte_to_Z b = c.
Proof.
  intros He Hb. pose proof (byte_to_Z_range b) as Hr.
  assert (Hcont : forall z, b <> cont z).
  { intros z ->. rewrite cont_value in Hb.
    pose proof (Z.mod_pos_bound z 64 ltac:(lia)). lia. }
  assert (Hlead : forall base x k,
             (128 <= base)%Z -> (0 <= k)%Z -> (base mod 2 ^ k = 0)%Z ->
             (0 <= x < 2 ^ k)%Z -> (base + x < 256)%Z ->
             b <> byte_of_Z (Z.lor base x)).
  { intros base x k Hbase Hk Hmod Hx Hsum ->.
    rewrite (lor_disjoint base x k), byte_to_of_Z_small in Hb by lia. lia. }
  unfold encode_char in He.
  destruct (Z.ltb_spec c 0); [discriminate|].
  destruct (Z.ltb_spec c 128).
  { injection He as <-. rewrite list_elem_of_singleton. split.
    - intros ->. apply byte_to_of_Z_small. lia.
    - intros <-. symmetry. apply byte_of_to_Z. }
  assert (Hno : b ∉ bs); [|split; [contradiction | lia]].
  destruct (Z.ltb_spec c 2048).
  { injection He as <-. rewrite !not_elem_of_cons. repeat split.
    - rewrite Z.shiftr_div_pow2 by lia.
      apply (Hlead 192 _ 5)%Z; try reflexivity; try lia;
        change (2 ^ 6)%Z with 64%Z; change (2 ^ 5)%Z with 32%Z; div_lia.
    - apply Hcont.
    - apply not_elem_of_nil. }
  destruct ((55296 <=? c) && (c <=? 57343))%Z; [discriminate|].
  destruct (Z.ltb_spec c 65536).
  { injection He as <-. rewrite !not_elem_of_cons. repeat split.
    - rewrite Z.shiftr_div_pow2 by lia.
      apply (Hlead 224 _ 4)%Z; try reflexivity; try lia;
        change (2 ^ 12)%Z with 4096%Z; change (2 ^ 4)%Z with 16%Z; div_lia.
    - apply Hcont.
    - apply Hcont.
    - apply not_elem_of_nil. }
  destruct (Z.ltb_spec c 1114112); [|discriminate].
  injection He as <-. rewrite !not_elem_of_cons. repeat split.
  - rewrite Z.shiftr_div_pow2 by lia.
    apply (Hlead 240 _ 3)%Z; try reflexivity; try lia;
      change (2 ^ 18)%Z with 262144%Z; change (2 ^ 3)%Z with 8%Z; div_lia.
  - apply Hcont.
  - apply Hcont.
  - apply Hcont.
  - apply not_elem_of_nil.
Qed.

Lemma encode_low (s : str) (bs : bytes) (b : byte) :
  encode s = Ok bs -> (byte_to_Z b < 128)%Z ->
  b ∈ bs <-> byte_to_Z b ∈ s.
Proof.
  intros He Hb. revert bs He. induction s as [|c s IH]; intros bs; cbn [encode].
  - intros [= <-]. rewrite !elem_of_nil. reflexivity.
  - intros He. monad_inv He. rename a into bc. monad_inv He. rename a into br.
    injection He as <-.
    rewrite elem_of_app, elem_of_cons, (encode_char_low c bc b Ha Hb),
      (IH br Ha0).
    reflexivity.
Qed.

(** ** The object store: more on write_object and read_object *)

Lemma classic_scalar (c : Z) : is_scalar c \/ ~ is_scalar c.
Proof. unfold is_scalar. lia. Qed.

Lemma encode_char_scalar (c : Z) :
  (is_scalar c -> exists bc, encode_char c = Ok bc) /\
  (~ is_scalar c -> encode_char c = Raise UnicodeEncodeError).
Proof.
  unfold is_scalar, encode_char. split; intros Hc.
  - destruct (Z.ltb_spec c 0); [lia|].
    destruct (Z.ltb_spec c 128); [eauto|].
    destruct (Z.ltb_spec c 2048); [eauto|].
    destruct ((55296 <=? c) && (c <=? 57343))%Z eqn:E; [lia|].
    destruct (Z.ltb_spec c 65536); [eauto|].
    destruct (Z.ltb_spec c 1114112); [eauto | lia].
  - destruct (Z.ltb_spec c 0); [reflexivity|].
    destruct (Z.ltb_spec c 128); [lia|].
    destruct (Z.ltb_spec c 2048); [lia|].
    destruct ((55296 <=? c) && (c <=? 57343))%Z eqn:E; [reflexivity|].
    destruct (Z.ltb_spec c 65536); [lia|].
    destruct (Z.ltb_spec c 1114112); [lia | reflexivity].
Qed.

Lemma encode_raises (s : str) (e : exn) :
  encode s = Raise e -> e = UnicodeEncodeError.
Proof.
  induction s as [|c s IH]; cbn [encode]; [discriminate|].
  destruct (encode_char c) as [bc|e0] eqn:Ec.
  - rewrite bind_Ok. destruct (encode s) as [br|e1]; [discriminate|].
    intros [= <-]. apply IH. reflexivity.
  - intros [= <-]. unfold encode_char in Ec.
    repeat match type of Ec with
           | (if ?b then _ else _) = _ => destruct b
           end; congruence.
Qed.

Lemma encode_scalar (s : str) :
  Forall is_scalar s -> exists bs, encode s = Ok bs.
Proof.
  induction 1 as [|c s Hc _ [br IH]]; [eexists; reflexivity|].
  destruct (proj1 (encode_char_scalar c) Hc) as [bc Hbc].
  cbn [encode]. rewrite Hbc, IH, !bind_Ok. eauto.
Qed.

Lemma encode_not_scalar (s : str) :
  ~ Forall is_scalar s -> encode s = Raise UnicodeEncodeError.
Proof.
  intros Hs. destruct (encode s) as [bs|e] eqn:E.
  - exfalso. apply Hs. clear Hs. revert bs E.
    induction s as [|c s IH]; intros bs E; [constructor|].
    cbn [encode] in E. monad_inv E. monad_inv E. constructor.
    + destruct (classic_scalar c) as [Hc|Hc]; [exact Hc|].
      rewrite (proj2 (encode_char_scalar c) Hc) in Ha. discriminate.
    + eapply IH. exact Ha0.
  - f_equal. eapply encode_raises. exact E.
Qed.

Lemma object_path_inj (sha sha' : str) :
  object_path sha = object_path sha' -> sha = sha'.
Proof.
  unfold object_path. intros [= Ht Hd].
  rewrite <- (take_drop 2 sha), <- (take_drop 2 sha'). congruence.
Qed.

Section StoreMore.
Context `{Zlib}.

Lemma read_object_lookup (fs fs' : objects) (sha : str) :
  fs !! object_path sha = fs' !! object_path sha ->
  read_object fs sha = read_object fs' sha.
Proof.
  intros Hl. unfold read_object, read_bytes. rewrite Hl. reflexivity.
Qed.

(** What read_object returns once the bytes before the first NUL are
    known. *)
Lemma read_object_head (fs : objects) (sha : str) (bs head content : bytes) :
  fs !! object_path sha = Some bs ->
  decompress bs = Some (head ++ NUL :: content) -> NUL ∉ head ->
  read_object fs sha
  = ('(ty, _) ← unpack2 (split_all SP head);
     ty' ← decode ty;
     Ok (ty', content)).
Proof.
  intros Hfs Hz Hhead. unfold read_object, read_bytes, zlib_decompress.
  rewrite Hfs, bind_Ok, Hz, bind_Ok, split_once_first by exact Hhead.
  reflexivity.
Qed.

(** X3.  Writing the same object again changes nothing. *)
Theorem write_object_twice (fs fs' : objects) (ty sha : str)
    (content : bytes) :
  write_object fs ty content = Ok (sha, fs') ->
  write_object fs' ty content = Ok (sha, fs').
Proof.
  unfold write_object. destruct (encode ty) as [tyb|]; [|discriminate].
  rewrite !bind_Ok. intros [= <- <-]. rewrite insert_insert_eq. reflexivity.
Qed.

(** X2.  A write leaves every other hash as it was: what read_object returned
    for it before, value or exception, it returns after.  The hash asked
    for is a hash, so that its path names one file of the store. *)
Theorem write_object_frame (fs fs' : objects) (ty sha sha' : str)
    (content : bytes) :
  write_object fs ty content = Ok (sha, fs') -> is_hash sha' -> sha' <> sha ->
  read_object fs' sha' = read_object fs sha'.
Proof.
  unfold write_object. destruct (encode ty) as [tyb|]; [|discriminate].
  rewrite !bind_Ok. intros [= <- <-] _ Hne.
  apply read_object_lookup. apply lookup_insert_ne.
  intros Hp. apply Hne. symmetry. apply object_path_inj. exact Hp.
Qed.

Lemma write_read_iff (fs fs' : objects) (ty sha : str) (content : bytes) :
  write_object fs ty content = Ok (sha, fs') ->
  read_object fs' sha = Ok (ty, content) <-> (0%Z ∉ ty) /\ (32%Z ∉ ty).
Proof.
  unfold write_object. destruct (encode ty) as [tyb|] eqn:Henc; [|discriminate].
  rewrite !bind_Ok. rewrite object_bytes_eq.
  set (raw := tyb ++ _). intros [= <- Hfs'].
  set (sha := SHA1.hexdigest raw) in *.
  assert (Hfs : fs' !! object_path sha = Some (compress raw))
    by (rewrite <- Hfs'; apply lookup_insert_eq).
  assert (Hz : decompress (compress raw) = Some raw) by apply decompress_compress.
  assert (Hnul : NUL ∈ tyb <-> 0%Z ∈ ty) by (apply (encode_low ty tyb NUL Henc); reflexivity).
  assert (Hsp : SP ∈ tyb <-> 32%Z ∈ ty) by (apply (encode_low ty tyb SP Henc); reflexivity).
  assert (Hdn : NUL ∉ decimal (length content))
    by (apply decimal_no; unfold is_digit, byte_to_Z; simpl; lia).
  assert (Hds : SP ∉ decimal (length content))
    by (apply decimal_no; unfold is_digit, byte_to_Z; simpl; lia).
  assert (Hcut : NUL ∈ tyb -> read_object fs' sha <> Ok (ty, content)).
  { (* a NUL in the kind cuts the header short *)
    intros Hin Hread.
    apply list_elem_of_split_l in Hin as (p & q & Htyb & Hp).
    assert (Hz' : decompress (compress raw)
                  = Some (p ++ NUL :: (q ++ B " " ++ decimal (length content)
                                         ++ [NUL] ++ content))).
    { rewrite Hz. f_equal. subst raw. rewrite Htyb, <- app_assoc. reflexivity. }
    subst fs'. rewrite (read_object_head _ sha _ p _ Hfs Hz' Hp) in Hread.
    monad_inv Hread. destruct a as [f1 f2]. monad_inv Hread.
    injection Hread as _ Hc. apply (f_equal length) in Hc.
    rewrite !length_app in Hc. cbn [length] in Hc.
    rewrite !length_app in Hc. cbn [length] in Hc. lia. }
  split.
  - intros Hread. split.
    + intros Hin. apply Hnul in Hin. exact (Hcut Hin Hread).
    + (* a space in the kind makes a third field *)
      intros Hin. apply Hsp in Hin.
      destruct (decide (NUL ∈ tyb)) as [Hn|Hn]; [exact (Hcut Hn Hread)|].
      assert (Hz' : decompress (compress raw)
                    = Some ((tyb ++ SP :: decimal (length content))
                              ++ NUL :: content)).
      { rewrite Hz. f_equal. subst raw. rewrite <- app_assoc. reflexivity. }
      subst fs'.
      rewrite (read_object_fields_count _ sha _ _ _ Hfs Hz') in Hread;
        [discriminate| |].
      * rewrite not_elem_of_app, not_elem_of_cons. repeat split; try assumption.
        discriminate.
      * rewrite filter_app, filter_cons_True, length_app by reflexivity.
        cbn [length].
        apply list_elem_of_split in Hin as (p & q & ->).
        rewrite filter_app, filter_cons_True, length_app by reflexivity.
        cbn [length]. lia.
  - intros [H0 H32]. subst fs'.
    rewrite (read_object_fields _ sha (compress raw) tyb
               (decimal (length content)) content).
    + rewrite (decode_encode ty tyb Henc). reflexivity.
    + exact Hfs.
    + exact Hz.
    + rewrite Hnul. exact H0.
    + rewrite Hsp. exact H32.
    + exact Hdn.
    + exact Hds.
Qed.

(** X1.  The kind can be any text that UTF-8 can encode: write_object
    then returns, and the object written is read back as it was written
    exactly when the kind holds no space and no NUL.  A kind that holds a
    lone surrogate makes write_object raise UnicodeEncodeError. *)
Theorem roundtrip_iff_plain_kind (fs : objects) (ty : str) (content : bytes) :
  (Forall is_scalar ty ->
   exists sha fs',
     write_object fs ty content = Ok (sha, fs') /\
     (read_object fs' sha = Ok (ty, content) <-> (0%Z ∉ ty) /\ (32%Z ∉ ty))) /\
  (~ Forall is_scalar ty ->
   write_object fs ty content = Raise UnicodeEncodeError).
Proof.
  split.
  - intros Hty. destruct (encode_scalar ty Hty) as [tyb Henc].
    assert (Hw : exists sha fs', write_object fs ty content = Ok (sha, fs'))
      by (unfold write_object; rewrite Henc, bind_Ok; eauto).
    destruct Hw as (sha & fs' & Hw). exists sha, fs'.
    split; [exact Hw | exact (write_read_iff fs fs' ty sha content Hw)].
  - intros Hty. unfold write_object.
    rewrite (encode_not_scalar ty Hty). reflexivity.
Qed.

End StoreMore.

Example sha1_hello_blob :
  SHA1.hexdigest (object_bytes (B "blob") (B "hello"))
  = U "b6fc4c620b67d95f953a5c1c1230aaab5db5a1b0".
Proof. vm_compute. reflexivity. Qed.

(** The blob b"hello", written to the store that already holds it. *)
Lemma write_object_twice_witness :
  let sha := SHA1.hexdigest (object_bytes (B "blob") (B "hello")) in
  let fs' : objects :=
    <[object_path sha := @compress Plain.codec (object_bytes (B "blob") (B "hello"))]> ∅ in
  @write_object Plain.codec fs' (U "blob") (B "hello") = Ok (sha, fs').
Proof.
  intros sha fs'.
  apply (@write_object_twice Plain.codec ∅ fs' (U "blob") sha (B "hello")).
  apply (@write_object_blob Plain.codec).
Defined.

(** The empty blob is still missing after b"hello" was written. *)
Lemma write_object_frame_witness :
  let sha := SHA1.hexdigest (object_bytes (B "blob") (B "hello")) in
  let fs' : objects :=
    <[object_path sha := @compress Plain.codec (object_bytes (B "blob") (B "hello"))]> ∅ in
  @read_object Plain.codec fs' (U "e69de29bb2d1d6434b8b29ae775ad8c2e48c5391")
  = @read_object Plain.codec ∅ (U "e69de29bb2d1d6434b8b29ae775ad8c2e48c5391").
Proof.
  intros sha fs'.
  apply (@write_object_frame Plain.codec ∅ fs' (U "blob") sha
           (U "e69de29bb2d1d6434b8b29ae775ad8c2e48c5391") (B "hello")).
  - apply (@write_object_blob Plain.codec).
  - split; [reflexivity | repeat constructor].
  - subst sha. rewrite sha1_hello_blob. discriminate.
Defined.

(** The kind blob holds neither character, and b"hello" is read back; a
    lone surrogate in the kind is an error. *)
Lemma roundtrip_iff_plain_kind_witness :
  (exists sha fs',
     @write_object Plain.codec ∅ (U "blob") (B "hello") = Ok (sha, fs') /\
     (@read_object Plain.codec fs' sha = Ok (U "blob", B "hello")
      <-> (0%Z ∉ U "blob") /\ (32%Z ∉ U "blob"))) /\
  @write_object Plain.codec ∅ [55296%Z] (B "hello") = Raise UnicodeEncodeError.
Proof.
  split.
  - apply (@roundtrip_iff_plain_kind Plain.codec ∅ (U "blob") (B "hello")).
    repeat (apply List.Forall_cons; [left; cbn; lia|]). apply List.Forall_nil.
  - apply (@roundtrip_iff_plain_kind Plain.codec ∅ [55296%Z] (B "hello")).
    intros Hall. apply List.Forall_inv in Hall. unfold is_scalar in Hall. lia.
Defined.

(** ** The variable-length integers, written and read *)

Lemma high_bit (b : byte) :
  Z.land (byte_to_Z b) 128
  = if (byte_to_Z b <? 128)%Z then 0%Z else 128%Z.
Proof. destruct b; reflexivity. Qed.

Lemma low_seven (b : byte) :
  Z.land (byte_to_Z b) 127 = (byte_to_Z b mod 128)%Z.
Proof. apply (land_low _ 127 7); [lia | reflexivity]. Qed.

Lemma groups_of_spec (fuel : nat) (n : Z) :
  (0 <= n)%Z -> (Z.log2 n <= Z.of_nat fuel)%Z ->
  Forall is_group (groups_of fuel n) /\ groups_of fuel n <> [] /\
  groups_value (groups_of fuel n) = n.
Proof.
  revert n. induction fuel as [|fuel IH]; intros n Hn Hlog; cbn [groups_of].
  - assert (n < 2)%Z.
    { destruct (Z.eq_dec n 0%Z) as [->|]; [lia|].
      apply (Z.log2_lt_pow2 n 1%Z); lia. }
    repeat split; [repeat constructor; unfold is_group; lia | discriminate
                  | cbn [groups_value]; lia].
  - destruct (Z.ltb_spec n 128).
    + repeat split; [repeat constructor; unfold is_group; lia | discriminate
                    | cbn [groups_value]; lia].
    + destruct (IH (n / 128)%Z) as (Hall & Hne & Hval).
      * div_lia.
      * change 128%Z with (2 ^ 7)%Z. rewrite <- Z.shiftr_div_pow2 by lia.
        rewrite Z.log2_shiftr by lia. lia.
      * repeat split.
        -- constructor; [unfold is_group; div_lia | exact Hall].
        -- discriminate.
        -- cbn [groups_value]. rewrite Hval. div_lia.
Qed.

(** The loop of next_size_type and next_size on well-formed groups: [prev]
    says go on exactly when a group is left. *)
Lemma size_loop_groups (gs : list Z) (rest : bytes) (prev size off : Z) :
  Forall is_group gs -> (0 <= off)%Z -> (0 <= prev < 256)%Z ->
  ((prev <? 128)%Z = true <-> gs = []) ->
  size_loop prev size off (groups_bytes gs ++ rest)
  = Ok ((size + 2 ^ off * groups_value gs)%Z, rest).
Proof.
  intros Hall. revert prev size off.
  induction Hall as [|g gs Hg Hgs IH]; intros prev size off Hoff Hprev Hcont;
    rewrite size_loop_eq.
  - assert (prev = byte_to_Z (byte_of_Z prev)) as ->
      by (symmetry; apply byte_to_of_Z_small; exact Hprev).
    rewrite high_bit, byte_to_of_Z_small by exact Hprev.
    rewrite (proj2 Hcont eq_refl). cbn [groups_value Z.eqb app].
    do 2 f_equal. lia.
  - assert (prev = byte_to_Z (byte_of_Z prev)) as ->
      by (symmetry; apply byte_to_of_Z_small; exact Hprev).
    rewrite high_bit, byte_to_of_Z_small by exact Hprev.
    destruct (prev <? 128)%Z eqn:Hp; [destruct Hcont as [Hc _]; discriminate (Hc eq_refl)|].
    cbn [Z.eqb]. unfold is_group in Hg.
    destruct gs as [|g' gs'].
    + cbn [groups_bytes app]. rewrite size_loop_eq, high_bit, low_seven.
      rewrite byte_to_of_Z_small by lia.
      destruct (Z.ltb_spec g 128); [|lia]. cbn [Z.eqb groups_value].
      rewrite Z.mod_small, Z.shiftl_mul_pow2 by lia. do 2 f_equal. lia.
    + change (groups_bytes (g :: g' :: gs'))
        with (byte_of_Z (128 + g) :: groups_bytes (g' :: gs')).
      cbn [app]. rewrite IH.
      * rewrite low_seven, byte_to_of_Z_small by lia.
        rewrite Z.shiftl_mul_pow2 by lia.
        replace ((128 + g) mod 128)%Z with g by div_lia.
        rewrite Z.pow_add_r by lia. cbn [groups_value].
        do 2 f_equal. change (2 ^ 7)%Z with 128%Z. lia.
      * lia.
      * apply byte_to_Z_range.
      * rewrite byte_to_of_Z_small by lia. split; [lia | discriminate].
Qed.

Lemma size_loop_cut (bs : bytes) (prev size off : Z) :
  Z.land prev 128 <> 0%Z ->
  Forall (fun b => Z.land (byte_to_Z b) 128 <> 0%Z) bs ->
  size_loop prev size off bs = Raise IndexError.
Proof.
  intros Hprev Hall. revert prev size off Hprev.
  induction Hall as [|b bs Hb _ IH]; intros prev size off Hprev;
    rewrite size_loop_eq;
    (destruct (Z.eqb_spec (Z.land prev 128) 0); [contradiction|]).
  - reflexivity.
  - apply IH. exact Hb.
Qed.

Lemma next_size_written (n : Z) (rest : bytes) :
  (0 <= n)%Z -> next_size (size_bytes n ++ rest) = Ok (n, rest).
Proof.
  intros Hn. unfold size_bytes.
  destruct (groups_of_spec (Z.to_nat (Z.log2 n)) n Hn) as (Hall & Hne & Hval).
  { pose proof (Z.log2_nonneg n). lia. }
  destruct (groups_of (Z.to_nat (Z.log2 n)) n) as [|g gs]; [contradiction|].
  apply Forall_cons in Hall as [Hg Hgs]. unfold is_group in Hg.
  cbn [groups_value] in Hval. unfold next_size.
  destruct gs as [|g' gs'].
  - cbn [groups_bytes app index lookup list_lookup]. rewrite bind_Ok.
    cbn [drop]. rewrite size_loop_eq, high_bit, low_seven.
    rewrite byte_to_of_Z_small by lia.
    destruct (Z.ltb_spec g 128); [|lia]. cbn [Z.eqb groups_value] in *.
    rewrite Z.mod_small by lia. do 2 f_equal. lia.
  - change (groups_bytes (g :: g' :: gs'))
      with (byte_of_Z (128 + g) :: groups_bytes (g' :: gs')).
    cbn [app index lookup list_lookup]. rewrite bind_Ok. cbn [drop].
    rewrite drop_0, size_loop_groups.
    + rewrite low_seven, byte_to_of_Z_small by lia.
      replace ((128 + g) mod 128)%Z with g by div_lia.
      do 2 f_equal. change (2 ^ 7)%Z with 128%Z. lia.
    + exact Hgs.
    + lia.
    + apply byte_to_Z_range.
    + rewrite byte_to_of_Z_small by lia. split; [lia | discriminate].
Qed.

Lemma header_byte_fields (b : byte) :
  Z.shiftr (Z.land (byte_to_Z b) 112) 4 = (byte_to_Z b / 16 mod 8)%Z /\
  Z.land (byte_to_Z b) 15 = (byte_to_Z b mod 16)%Z.
Proof. destruct b; split; reflexivity. Qed.

Lemma next_size_type_written (ty n : Z) (rest : bytes) :
  (0 <= ty < 8)%Z -> (0 <= n)%Z ->
  next_size_type (header_bytes ty n ++ rest) = Ok (type_map ty, n, rest).
Proof.
  intros Hty Hn. unfold header_bytes, next_size_type.
  destruct (Z.ltb_spec n 16).
  - cbn [app index lookup list_lookup]. rewrite bind_Ok. cbn [drop].
    destruct (header_byte_fields (byte_of_Z (16 * ty + n))) as [-> ->].
    rewrite byte_to_of_Z_small by lia.
    rewrite (size_loop_groups [] rest);
      [| constructor | lia | lia
       | split; [reflexivity | intros _; apply Z.ltb_lt; lia]].
    rewrite bind_Ok. cbn [groups_value].
    replace ((16 * ty + n) / 16 mod 8)%Z with ty by div_lia.
    replace ((16 * ty + n) mod 16 + 2 ^ 4 * 0)%Z with n by div_lia.
    reflexivity.
  - cbn [app index lookup list_lookup]. rewrite bind_Ok. cbn [drop].
    rewrite drop_0.
    destruct (header_byte_fields (byte_of_Z (128 + 16 * ty + n mod 16)))
      as [-> ->].
    rewrite byte_to_of_Z_small by div_lia.
    unfold size_bytes.
    destruct (groups_of_spec (Z.to_nat (Z.log2 (n / 16))) (n / 16)%Z)
      as (Hall & Hne & Hval).
    { div_lia. }
    { pose proof (Z.log2_nonneg (n / 16)). lia. }
    rewrite size_loop_groups.
    + rewrite bind_Ok, Hval.
      replace ((128 + 16 * ty + n mod 16) / 16 mod 8)%Z with ty by div_lia.
      replace ((128 + 16 * ty + n mod 16) mod 16 + 2 ^ 4 * (n / 16))%Z
        with n by (change (2 ^ 4)%Z with 16%Z; div_lia).
      reflexivity.
    + exact Hall.
    + lia.
    + div_lia.
    + split; [intros Hlt; apply Z.ltb_lt in Hlt; div_lia | contradiction].
Qed.

(** X5.  next_size reads back every size that is not negative, and leaves the
    bytes after it. *)
Theorem next_size_roundtrip (n : Z) (rest : bytes) :
  (0 <= n)%Z -> next_size (size_bytes n ++ rest) = Ok (n, rest).
Proof. apply next_size_written. Qed.

(** X4.  next_size_type reads back the type and every size that is not
    negative, and leaves the bytes after the header. *)
Theorem next_size_type_roundtrip (ty n : Z) (rest : bytes) :
  (0 <= ty < 8)%Z -> (0 <= n)%Z ->
  next_size_type (header_bytes ty n ++ rest) = Ok (type_map ty, n, rest).
Proof. apply next_size_type_written. Qed.

(** X6.  A size that stops before a byte with a clear high bit, the empty input
    among them, is an IndexError in both readers. *)
Theorem size_cut_short (bs : bytes) :
  Forall (fun b => Z.land (byte_to_Z b) 128 <> 0%Z) bs ->
  next_size bs = Raise IndexError /\ next_size_type bs = Raise IndexError.
Proof.
  intros Hall. unfold next_size, next_size_type.
  destruct Hall as [|b bs Hb Hbs]; [split; reflexivity|].
  cbn [index lookup list_lookup drop]. rewrite !bind_Ok, drop_0.
  rewrite !size_loop_cut by assumption. split; reflexivity.
Qed.

Lemma next_size_roundtrip_witness :
  next_size (size_bytes 300 ++ [x91]) = Ok (300%Z, [x91]).
Proof. apply (next_size_roundtrip 300 [x91]). lia. Defined.

Lemma next_size_type_roundtrip_witness :
  next_size_type (header_bytes 3 1000 ++ [x78]) = Ok (U "blob", 1000%Z, [x78]).
Proof. apply (next_size_type_roundtrip 3 1000 [x78]); lia. Defined.

Lemma size_cut_short_witness :
  next_size [x91; xff] = Raise IndexError /\
  next_size_type [x91; xff] = Raise IndexError.
Proof.
  apply (size_cut_short [x91; xff]).
  repeat (apply List.Forall_cons; [discriminate|]). apply List.Forall_nil.
Defined.

(** ** Delta instructions, written and resolved *)

Lemma le_bytes_range (n : nat) (v : Z) : Forall is_byte_value (le_bytes n v).
Proof.
  revert v. induction n as [|n IH]; intros v; cbn [le_bytes]; constructor.
  - unfold is_byte_value. div_lia.
  - apply IH.
Qed.

Lemma le_bytes_value (n : nat) (v : Z) :
  (0 <= v < 256 ^ Z.of_nat n)%Z -> le_value (le_bytes n v) = v.
Proof.
  revert v. induction n as [|n IH]; intros v Hv; cbn [le_bytes le_value].
  - change (256 ^ Z.of_nat 0)%Z with 1%Z in Hv. lia.
  - rewrite IH; [div_lia|].
    rewrite Nat2Z.inj_succ, Z.pow_succ_r in Hv by lia. div_lia.
Qed.

(** One for loop of a copy op on a field as it is written: [pre] holds the
    bytes of the fields before it, [k] the position of the first byte of
    [vs], and the bit of each position is set in the op byte exactly when the
    byte there is not zero. *)
Lemma read_field_written (cmd : byte) (pre post : bytes) (first_bit : Z)
    (vs : list Z) (k : Z) (acc : Z) :
  Forall is_byte_value vs -> (0 <= k)%Z -> (0 <= acc < 2 ^ (8 * k))%Z ->
  (forall j v, vs !! j = Some v ->
     (Z.land (byte_to_Z cmd) (Z.shiftl 1 (first_bit + (k + Z.of_nat j))) =? 0)%Z
     = (v =? 0)%Z) ->
  read_field (cmd :: pre ++ field_bytes vs ++ post) first_bit
    (range_from k (length vs)) acc (S (length pre))
  = Ok ((acc + 2 ^ (8 * k) * le_value vs)%Z,
        S (length pre + length (field_bytes vs))).
Proof.
  intros Hall. revert pre k acc.
  induction Hall as [|v vs Hv _ IH]; intros pre k acc Hk Hacc Hbits.
  - cbn [length range_from read_field field_bytes le_value].
    do 2 f_equal; lia.
  - cbn [length range_from read_field index lookup list_lookup].
    rewrite bind_Ok.
    pose proof (Hbits 0 v eq_refl) as Hbit. cbn [Z.of_nat] in Hbit.
    rewrite Z.add_0_r in Hbit. rewrite Hbit.
    assert (Hrest : forall j v', vs !! j = Some v' ->
              (Z.land (byte_to_Z cmd)
                 (Z.shiftl 1 (first_bit + (k + 1 + Z.of_nat j))) =? 0)%Z
              = (v' =? 0)%Z).
    { intros j v' Hj. rewrite <- (Hbits (S j) v' Hj). do 3 f_equal. lia. }
    assert (Hpow : (2 ^ (8 * (k + 1)) = 2 ^ (8 * k) * 256)%Z).
    { replace (8 * (k + 1))%Z with (8 * k + 8)%Z by lia.
      rewrite Z.pow_add_r by lia. reflexivity. }
    cbn [field_bytes le_value].
    destruct (Z.eqb_spec v 0) as [-> | Hnz].
    + rewrite (IH pre (k + 1)%Z acc) by (try assumption; lia).
      do 2 f_equal. rewrite Hpow. lia.
    + unfold is_byte_value in Hv.
      replace (pre ++ (byte_of_Z v :: field_bytes vs) ++ post)
        with ((pre ++ [byte_of_Z v]) ++ field_bytes vs ++ post)
        by (rewrite <- app_assoc; reflexivity).
      assert (Hlook : (cmd :: (pre ++ [byte_of_Z v]) ++ field_bytes vs ++ post)
                      !! S (length pre) = Some (byte_of_Z v)).
      { change (((pre ++ [byte_of_Z v]) ++ field_bytes vs ++ post)
                !! length pre = Some (byte_of_Z v)).
        rewrite <- app_assoc, lookup_app_r by lia.
        rewrite Nat.sub_diag. reflexivity. }
      unfold index at 1. rewrite Hlook, byte_to_of_Z_small, bind_Ok by lia.
      replace (S (S (length pre))) with (S (length (pre ++ [byte_of_Z v])))
        by (rewrite length_app; cbn [length]; lia).
      replace (Z.lor acc (Z.shiftl v (k * 8)))
        with (acc + 2 ^ (8 * k) * v)%Z.
      * rewrite (IH (pre ++ [byte_of_Z v]) (k + 1)%Z).
        -- rewrite length_app. cbn [length]. do 2 f_equal; [|lia].
           rewrite Hpow. lia.
        -- lia.
        -- rewrite Hpow. nia.
        -- exact Hrest.
      * rewrite Z.lor_comm, Z.shiftl_mul_pow2 by lia.
        rewrite (lor_disjoint _ acc (8 * k)).
        -- replace (k * 8)%Z with (8 * k)%Z by lia. lia.
        -- lia.
        -- replace (k * 8)%Z with (8 * k)%Z by lia. exact Hacc.
        -- replace (k * 8)%Z with (8 * k)%Z by lia. apply Z.mod_mul.
           apply Z.pow_nonzero; lia.
Qed.

Lemma copy_cmd_bits (o0 o1 o2 o3 s0 s1 s2 : Z) :
  let cmd := byte_to_Z (byte_of_Z (128 + field_mask [o0; o1; o2; o3]
                                   + 16 * field_mask [s0; s1; s2])) in
  Z.land cmd 128 <> 0%Z /\
  ((Z.land cmd (Z.shiftl 1 0) =? 0)%Z = (o0 =? 0)%Z /\
   (Z.land cmd (Z.shiftl 1 1) =? 0)%Z = (o1 =? 0)%Z /\
   (Z.land cmd (Z.shiftl 1 2) =? 0)%Z = (o2 =? 0)%Z /\
   (Z.land cmd (Z.shiftl 1 3) =? 0)%Z = (o3 =? 0)%Z) /\
  ((Z.land cmd (Z.shiftl 1 4) =? 0)%Z = (s0 =? 0)%Z /\
   (Z.land cmd (Z.shiftl 1 5) =? 0)%Z = (s1 =? 0)%Z /\
   (Z.land cmd (Z.shiftl 1 6) =? 0)%Z = (s2 =? 0)%Z).
Proof.
  cbn [field_mask].
  destruct (o0 =? 0)%Z, (o1 =? 0)%Z, (o2 =? 0)%Z, (o3 =? 0)%Z,
    (s0 =? 0)%Z, (s1 =? 0)%Z, (s2 =? 0)%Z;
    vm_compute; repeat split; (reflexivity || discriminate).
Qed.

(** A written instruction at the head of the stream is resolved to its
    piece, and the stream after it is left. *)
Lemma delta_op_written (base_content rest : bytes) (i : instr) :
  instr_ok i ->
  delta_op base_content (instr_bytes i ++ rest)
  = Ok (rest, instr_piece base_content i).
Proof.
  destruct i as [offset size | literal]; cbn [instr_ok instr_bytes instr_piece].
  - intros [Hoff Hsize].
    set (offs := le_bytes 4 offset). set (sizes := le_bytes 3 size).
    set (cmd := byte_of_Z _).
    destruct (copy_cmd_bits (offset mod 256) (offset / 256 mod 256)
                (offset / 256 / 256 mod 256) (offset / 256 / 256 / 256 mod 256)
                (size mod 256) (size / 256 mod 256) (size / 256 / 256 mod 256))
      as (Hcopy & (Ho0 & Ho1 & Ho2 & Ho3) & (Hs0 & Hs1 & Hs2)).
    fold cmd in Hcopy, Ho0, Ho1, Ho2, Ho3, Hs0, Hs1, Hs2.
    assert (Hfield1 : read_field
              (cmd :: [] ++ field_bytes offs ++ (field_bytes sizes ++ rest))
              0 [0; 1; 2; 3]%Z 0 1
            = Ok ((0 + 2 ^ (8 * 0) * le_value offs)%Z,
                  S (length (@nil byte) + length (field_bytes offs)))).
    { apply (read_field_written cmd [] (field_bytes sizes ++ rest) 0 offs 0 0).
      - apply le_bytes_range.
      - lia.
      - cbn. lia.
      - intros [|[|[|[|j]]]] v; cbn [offs le_bytes lookup list_lookup];
          intros [= <-]; assumption. }
    assert (Hfield2 : read_field
              (cmd :: field_bytes offs ++ field_bytes sizes ++ rest)
              4 [0; 1; 2]%Z 0 (S (length (field_bytes offs)))
            = Ok ((0 + 2 ^ (8 * 0) * le_value sizes)%Z,
                  S (length (field_bytes offs) + length (field_bytes sizes)))).
    { apply (read_field_written cmd (field_bytes offs) rest 4 sizes 0 0).
      - apply le_bytes_range.
      - lia.
      - cbn. lia.
      - intros [|[|[|j]]] v; cbn [sizes le_bytes lookup list_lookup];
          intros [= <-]; assumption. }
    unfold delta_op. cbn [app index lookup list_lookup]. rewrite bind_Ok.
    fold cmd. destruct (Z.eqb_spec (Z.land (byte_to_Z cmd) 128) 0);
      [contradiction|].
    cbn [app length Nat.add] in Hfield1.
    rewrite <- app_assoc, Hfield1, bind_Ok.
    rewrite Hfield2, bind_Ok.
    unfold offs, sizes.
    rewrite (le_bytes_value 4 offset), (le_bytes_value 3 size)
      by (cbn; lia).
    change (2 ^ (8 * 0))%Z with 1%Z.
    replace (0 + 1 * offset)%Z with offset by lia.
    replace (0 + 1 * size)%Z with size by lia.
    do 2 f_equal.
    change (drop (S ?n) (?c :: ?l)) with (drop n l).
    rewrite app_assoc, drop_app_length'; [reflexivity|].
    rewrite length_app. reflexivity.
  - intros Hlen. cbn [app]. rewrite delta_op_insert.
    + rewrite byte_to_of_Z_small, Nat2Z.id by lia.
      rewrite drop_app_length, take_app_length. reflexivity.
    + rewrite high_bit, byte_to_of_Z_small by lia.
      destruct (Z.ltb_spec (Z.of_nat (length literal)) 128); [reflexivity | lia].
Qed.

Lemma delta_loop_written (base_content : bytes) (instrs : list instr)
    (fuel : nat) (target : bytes) :
  Forall instr_ok instrs -> length instrs <= fuel ->
  delta_loop fuel base_content (concat (map instr_bytes instrs)) target
  = Some (Ok (target ++ concat (map (instr_piece base_content) instrs))).
Proof.
  intros Hall. revert fuel target.
  induction Hall as [|i instrs Hi _ IH]; intros fuel target Hfuel.
  - cbn [map concat]. rewrite app_nil_r. destruct fuel; reflexivity.
  - destruct fuel as [|fuel]; [cbn [length] in Hfuel; lia|].
    cbn [map concat].
    assert (Hne : exists c l, instr_bytes i ++ concat (map instr_bytes instrs) = c :: l)
      by (destruct i; cbn [instr_bytes app]; eauto).
    destruct Hne as (c & l & Hcl).
    assert (Hop := delta_op_written base_content (concat (map instr_bytes instrs)) i Hi).
    rewrite Hcl in Hop |- *. cbn [delta_loop]. rewrite Hop.
    rewrite IH by (cbn [length] in Hfuel; lia).
    rewrite <- app_assoc. reflexivity.
Qed.

Lemma instr_bytes_count (instrs : list instr) :
  length instrs <= length (concat (map instr_bytes instrs)).
Proof.
  induction instrs as [|i instrs IH]; cbn [map concat length]; [lia|].
  rewrite length_app. destruct i; cbn [instr_bytes length]; lia.
Qed.

(** X7.  The resolver follows a written delta, instruction by instruction: the
    target is the pieces of the instructions, one after the other. *)
Theorem resolve_written_delta (base_content : bytes) (base_size target_size : Z)
    (instrs : list instr) :
  (0 <= base_size)%Z -> (0 <= target_size)%Z -> Forall instr_ok instrs ->
  resolve_delta base_content
    (size_bytes base_size ++ size_bytes target_size
       ++ concat (map instr_bytes instrs))
  = Ok (concat (map (instr_piece base_content) instrs)).
Proof.
  intros Hb Ht Hall. unfold resolve_delta.
  rewrite next_size_written, bind_Ok by exact Hb.
  rewrite next_size_written, bind_Ok by exact Ht.
  rewrite (delta_loop_written base_content instrs _ [] Hall (instr_bytes_count instrs)).
  reflexivity.
Qed.

Lemma resolve_written_delta_witness :
  resolve_delta fox
    (size_bytes 19 ++ size_bytes 20
       ++ concat (map instr_bytes [Copy 4 6; Insert (B "slow "); Copy 10 9]))
  = Ok (concat (map (instr_piece fox) [Copy 4 6; Insert (B "slow "); Copy 10 9])).
Proof.
  apply (resolve_written_delta fox 19 20
           [Copy 4 6; Insert (B "slow "); Copy 10 9]); try lia.
  repeat (apply List.Forall_cons; [cbn; lia|]). apply List.Forall_nil.
Defined.

Lemma no_size_bits (b : byte) :
  Z.land (byte_to_Z b) 112 = 0%Z ->
  (Z.land (byte_to_Z b) (Z.shiftl 1 (4 + 0)) =? 0)%Z = true /\
  (Z.land (byte_to_Z b) (Z.shiftl 1 (4 + 1)) =? 0)%Z = true /\
  (Z.land (byte_to_Z b) (Z.shiftl 1 (4 + 2)) =? 0)%Z = true.
Proof. destruct b; vm_compute; intros Hb; repeat split; congruence. Qed.

(** X8.  A copy op without a size byte copies nothing: once its offset
    bytes are read, the op is done and the target is as it was.  The
    format's reading of the size zero as 65536 is not made. *)
Theorem copy_without_size (base_content rest : bytes) (b : byte) :
  Z.land (byte_to_Z b) 128 <> 0%Z -> Z.land (byte_to_Z b) 112 = 0%Z ->
  delta_op base_content (b :: rest)
  = ('(_, data_ptr) ← read_field (b :: rest) 0 [0; 1; 2; 3]%Z 0 1;
     Ok (drop data_ptr (b :: rest), [])).
Proof.
  intros Hcopy Hsize. unfold delta_op.
  cbn [index lookup list_lookup]. rewrite bind_Ok.
  destruct (Z.eqb_spec (Z.land (byte_to_Z b) 128) 0); [contradiction|].
  destruct (read_field (b :: rest) 0 [0; 1; 2; 3]%Z 0 1)
    as [[offset data_ptr]|e] eqn:Hoff; [|reflexivity].
  rewrite !bind_Ok.
  destruct (no_size_bits b Hsize) as (H0 & H1 & H2).
  cbn [read_field index lookup list_lookup].
  rewrite !bind_Ok, H0, H1, H2, bind_Ok.
  apply read_field_nonneg in Hoff; [|lia|repeat constructor; lia].
  rewrite slice_nonneg by lia.
  replace (Z.to_nat (offset + 0) - Z.to_nat offset) with 0 by lia.
  rewrite take_0. reflexivity.
Qed.

(** The op 0x81 with the offset 4 on the fox. *)
Lemma copy_without_size_witness :
  delta_op fox [x81; x04] = Ok ([], []).
Proof.
  apply (copy_without_size fox [x04] x81); [discriminate | reflexivity].
Defined.

(** ** pkt-lines: short lines and lengths below zero *)

Lemma pkt_lines_prefix (payloads : list bytes) (rest : bytes) (fuel : nat)
    (pack_lines : list bytes) :
  Forall (fun p => (Z.of_nat (length p) + 4 < 65536)%Z) payloads ->
  pkt_lines (length payloads + fuel) (concat (map pkt_line payloads) ++ rest)
    pack_lines
  = pkt_lines fuel rest (pack_lines ++ payloads).
Proof.
  intros Hall. revert pack_lines.
  induction Hall as [|p payloads Hp _ IH]; intros pack_lines.
  - rewrite app_nil_r. reflexivity.
  - cbn [map concat length Nat.add].
    rewrite <- app_assoc, pkt_lines_line by exact Hp.
    rewrite IH, <- app_assoc. reflexivity.
Qed.

(** X9.  The body may end without the line of length zero, and its last line
    may be shorter than its length says: the loop takes the bytes that are
    there as the payload and ends without an error. *)
Theorem pkt_lines_short_last (payloads : list bytes) (n : Z) (last : bytes)
    (fuel : nat) :
  Forall (fun p => (Z.of_nat (length p) + 4 < 65536)%Z) payloads ->
  (Z.of_nat (length last) + 4 <= n < 65536)%Z ->
  length payloads < fuel ->
  pkt_lines fuel (concat (map pkt_line payloads) ++ hex4 n ++ last) []
  = Some (Ok (payloads ++ [last])).
Proof.
  intros Hall Hn Hfuel.
  replace fuel with (length payloads + S (fuel - length payloads - 1)) by lia.
  rewrite pkt_lines_prefix by exact Hall. cbn [app].
  rewrite pkt_lines_step by (destruct (hex4 n) eqn:E; [discriminate E | discriminate]).
  rewrite take_app_length' by reflexivity.
  rewrite int16_hex4 by lia.
  destruct (Z.eqb_spec n 0); [lia|].
  rewrite slice_from_nonneg, slice_nonneg by lia.
  rewrite drop_ge by (rewrite length_app, hex4_length; lia).
  change (Z.to_nat 4) with 4.
  rewrite drop_app_length' by reflexivity.
  rewrite take_ge by lia.
  destruct (fuel - length payloads - 1); reflexivity.
Qed.

Lemma pkt_lines_short_last_witness :
  pkt_lines 2 (concat (map pkt_line [B "ab"]) ++ hex4 20 ++ B "cut") []
  = Some (Ok ([B "ab"] ++ [B "cut"])).
Proof.
  apply (pkt_lines_short_last [B "ab"] 20 (B "cut") 2).
  - repeat (apply List.Forall_cons; [reflexivity|]). apply List.Forall_nil.
  - cbn. lia.
  - cbn. lia.
Defined.

(** X10.  A length below zero (int accepts a sign) that reaches back to the start
    of what is left leaves pack_bytes as it is: the loop never ends. *)
Theorem pkt_lines_never_ends (body : bytes) (line_len : Z) :
  body <> [] -> int16 (take 4 body) = Ok line_len ->
  (line_len <= - Z.of_nat (length body))%Z ->
  forall fuel pack_lines, pkt_lines fuel body pack_lines = None.
Proof.
  intros Hne Hint Hneg fuel.
  assert (Hlen : 0 < length body) by (destruct body; [congruence | cbn; lia]).
  induction fuel as [|fuel IH]; intros pack_lines.
  - destruct body; [congruence | reflexivity].
  - rewrite pkt_lines_step, Hint by exact Hne.
    destruct (Z.eqb_spec line_len 0); [lia|].
    replace (slice_from body line_len) with body; [apply IH|].
    unfold slice_from, slice_bound.
    destruct (Z.ltb_spec line_len 0); [|lia].
    rewrite Z.max_r by lia. reflexivity.
Qed.

Lemma pkt_lines_never_ends_witness :
  pkt_lines 1000 (B "-004") [] = None.
Proof.
  apply (pkt_lines_never_ends (B "-004") (-4)).
  - discriminate.
  - reflexivity.
  - cbn. lia.
Defined.

(** ** The clone command: refs and the fetch request *)

Lemma decode_ascii (bs : bytes) :
  Forall (fun c => (byte_to_Z c < 128)%Z) bs ->
  decode bs = Ok (map byte_to_Z bs).
Proof.
  unfold decode. induction 1 as [|c bs Hc _ IH]; [reflexivity|].
  cbn [map decode_values]. destruct (Z.ltb_spec (byte_to_Z c) 128); [|lia].
  rewrite IH. reflexivity.
Qed.

Lemma encode_ascii (s : str) :
  Forall (fun c => (0 <= c < 128)%Z) s -> encode s = Ok (map byte_of_Z s).
Proof.
  induction 1 as [|c s Hc _ IH]; [reflexivity|].
  cbn [encode map]. unfold encode_char.
  destruct (Z.ltb_spec c 0); [lia|]. destruct (Z.ltb_spec c 128); [|lia].
  rewrite bind_Ok, IH. reflexivity.
Qed.

Lemma lower_hex_cases (c : Z) :
  is_lower_hex c = true -> (48 <= c <= 57 \/ 97 <= c <= 102)%Z.
Proof. unfold is_lower_hex, in_range. lia. Qed.

Lemma hex_bytes_no (b : bytes) (c : byte) :
  Forall (fun c => is_lower_hex (byte_to_Z c) = true) b ->
  is_lower_hex (byte_to_Z c) = false -> c ∉ b.
Proof.
  intros Hall Hc Hin. rewrite Forall_forall in Hall.
  rewrite (Hall c Hin) in Hc. discriminate.
Qed.

Lemma hex4_hex (n : Z) :
  Forall (fun c => is_lower_hex (byte_to_Z c) = true) (hex4 n).
Proof.
  unfold hex4, hex4_digits. cbn [map].
  assert (Hd : forall d, (0 <= d < 16)%Z ->
             is_lower_hex (byte_to_Z (byte_of_Z (hex_digit d))) = true).
  { intros d Hd. unfold hex_digit, is_lower_hex, in_range.
    destruct (Z.ltb_spec d 10); rewrite byte_to_of_Z_small by lia; lia. }
  repeat constructor; apply Hd; apply Z.mod_pos_bound; lia.
Qed.

(** A line that does not end in HEAD: its first field is recorded under
    its second, whatever the four bytes at its head are. *)
Lemma parse_ref_line_plain (pfx sha name_b : bytes) (name : str)
    (lines : list bytes) (refs : list (str * str)) :
  length pfx = 4 -> hex_bytes sha -> name_bytes name_b ->
  decode name_b = Ok name ->
  bytes_endswith (sha ++ SP :: name_b) (B "HEAD") = false ->
  parse_ref_lines ((pfx ++ sha ++ SP :: name_b) :: lines) refs
  = parse_ref_lines lines (dict_set refs name (map byte_to_Z sha)).
Proof.
  intros Hpfx [Hne Hhex] (Hsp & Hnul & Hlf) Hdec Hend.
  cbn [parse_ref_lines]. rewrite drop_app_length' by lia.
  assert (Hsha_no : forall c, is_lower_hex (byte_to_Z c) = false -> c ∉ sha)
    by (intros c; apply hex_bytes_no; exact Hhex).
  rewrite bool_decide_true by (destruct sha; [contradiction | discriminate]).
  assert (Hhash : bytes_startswith (sha ++ SP :: name_b) (B "#") = false).
  { unfold bytes_startswith. apply bool_decide_false.
    destruct sha as [|c0 sha']; [contradiction|]. cbn. intros [= ->].
    apply (Hsha_no "#"%byte); [reflexivity | left]. }
  rewrite Hhash. cbn [negb andb].
  rewrite split_all_absent.
  2:{ rewrite not_elem_of_app, not_elem_of_cons. repeat split.
      - apply Hsha_no. reflexivity.
      - discriminate.
      - exact Hnul. }
  cbn [hd].
  rewrite bool_decide_true by (destruct sha; [contradiction | discriminate]).
  rewrite Hend.
  rewrite split_all_first by (apply Hsha_no; reflexivity).
  rewrite split_all_absent by exact Hsp.
  cbn [piece lookup list_lookup]. rewrite !bind_Ok, Hdec, !bind_Ok.
  rewrite decode_ascii, bind_Ok; [reflexivity|].
  eapply Forall_impl; [exact Hhex|]. intros c Hc.
  apply lower_hex_cases in Hc. lia.
Qed.

(** A line that holds nothing after its first four bytes, or a comment
    there, is passed over. *)
Lemma parse_ref_line_skipped (pfx rest : bytes) (lines : list bytes)
    (refs : list (str * str)) :
  length pfx = 4 -> rest = [] \/ bytes_startswith rest (B "#") = true ->
  parse_ref_lines ((pfx ++ rest) :: lines) refs = parse_ref_lines lines refs.
Proof.
  intros Hpfx Hrest. cbn [parse_ref_lines].
  rewrite drop_app_length' by lia.
  destruct Hrest as [-> | ->]; [|rewrite andb_false_r]; reflexivity.
Qed.

Lemma bytes_endswith_app (pre s suf : bytes) :
  bytes_endswith s suf = true -> bytes_endswith (pre ++ s) suf = true.
Proof.
  unfold bytes_endswith. intros Hs. apply bool_decide_eq_true in Hs as [Hlen Hs].
  apply bool_decide_eq_true. rewrite length_app. split; [lia|].
  rewrite drop_app_ge by lia.
  replace (length pre + length s - length suf - length pre)
    with (length s - length suf) by lia.
  exact Hs.
Qed.

(** The line of HEAD, which comes glued to the line of length zero before
    it: the four bytes dropped twice are that line and the length. *)
Lemma parse_head_line (pfx len4 head_sha caps : bytes) (lines : list bytes)
    (refs : list (str * str)) :
  length pfx = 4 -> length len4 = 4 ->
  Forall (fun c => is_lower_hex (byte_to_Z c) = true) len4 ->
  hex_bytes head_sha ->
  parse_ref_lines
    ((pfx ++ len4 ++ head_sha ++ B " HEAD" ++ [NUL] ++ caps) :: lines) refs
  = parse_ref_lines lines (dict_set refs (U "HEAD") (map byte_to_Z head_sha)).
Proof.
  intros Hpfx Hlen4 Hhex4 [Hne Hhex].
  cbn [parse_ref_lines]. rewrite drop_app_length' by lia.
  assert (Hno : forall (l : bytes) c,
            Forall (fun c => is_lower_hex (byte_to_Z c) = true) l ->
            is_lower_hex (byte_to_Z c) = false -> c ∉ l)
    by (intros l c Hl Hc; apply hex_bytes_no; assumption).
  rewrite bool_decide_true
    by (destruct len4; [discriminate Hlen4 | discriminate]).
  assert (Hhash : bytes_startswith
                    (len4 ++ head_sha ++ B " HEAD" ++ [NUL] ++ caps) (B "#")
                  = false).
  { unfold bytes_startswith. apply bool_decide_false.
    destruct len4 as [|c0 len4']; [discriminate Hlen4|]. cbn. intros [= ->].
    apply (Hno _ "#"%byte Hhex4); [reflexivity | left]. }
  rewrite Hhash. cbn [negb andb].
  replace (len4 ++ head_sha ++ B " HEAD" ++ [NUL] ++ caps)
    with ((len4 ++ head_sha ++ B " HEAD") ++ NUL :: caps)
    by (rewrite <- !app_assoc; reflexivity).
  rewrite split_all_first.
  2:{ rewrite !not_elem_of_app. repeat split.
      - apply (Hno _ _ Hhex4). reflexivity.
      - apply (Hno _ _ Hhex). reflexivity.
      - rewrite list_elem_of_In. cbn. intuition discriminate. }
  cbn [hd].
  rewrite bool_decide_true
    by (destruct len4; [discriminate Hlen4 | discriminate]).
  assert (Hend : bytes_endswith (len4 ++ head_sha ++ B " HEAD") (B "HEAD") = true).
  { rewrite app_assoc. apply bytes_endswith_app. reflexivity. }
  rewrite Hend, drop_app_length' by lia.
  change (head_sha ++ B " HEAD") with (head_sha ++ SP :: B "HEAD").
  rewrite split_all_first by (apply (Hno _ _ Hhex); reflexivity).
  change (split_all SP (B "HEAD")) with [B "HEAD"].
  cbn [piece lookup list_lookup]. rewrite !bind_Ok.
  change (decode (B "HEAD")) with (Ok (U "HEAD")).
  rewrite !bind_Ok, decode_ascii, bind_Ok; [reflexivity|].
  eapply Forall_impl; [exact Hhex|]. intros c Hc.
  apply lower_hex_cases in Hc. lia.
Qed.

(** X12.  A ref whose name ends in HEAD, on a line of its own, loses the first
    four characters of its hash: the line is taken for the line of HEAD. *)
Theorem ref_named_HEAD_cut (pfx sha name_b : bytes) (name : str)
    (lines : list bytes) (refs : list (str * str)) :
  length pfx = 4 -> hex_bytes sha -> 4 <= length sha -> name_bytes name_b ->
  decode name_b = Ok name -> bytes_endswith name_b (B "HEAD") = true ->
  parse_ref_lines ((pfx ++ sha ++ SP :: name_b) :: lines) refs
  = parse_ref_lines lines (dict_set refs name (map byte_to_Z (drop 4 sha))).
Proof.
  intros Hpfx [Hne Hhex] Hlen (Hsp & Hnul & Hlf) Hdec Hend.
  cbn [parse_ref_lines]. rewrite drop_app_length' by lia.
  assert (Hsha_no : forall c, is_lower_hex (byte_to_Z c) = false -> c ∉ sha)
    by (intros c; apply hex_bytes_no; exact Hhex).
  rewrite bool_decide_true by (destruct sha; [contradiction | discriminate]).
  assert (Hhash : bytes_startswith (sha ++ SP :: name_b) (B "#") = false).
  { unfold bytes_startswith. apply bool_decide_false.
    destruct sha as [|c0 sha']; [contradiction|]. cbn. intros [= ->].
    apply (Hsha_no "#"%byte); [reflexivity | left]. }
  rewrite Hhash. cbn [negb andb].
  rewrite split_all_absent.
  2:{ rewrite not_elem_of_app, not_elem_of_cons. repeat split.
      - apply Hsha_no. reflexivity.
      - discriminate.
      - exact Hnul. }
  cbn [hd].
  rewrite bool_decide_true by (destruct sha; [contradiction | discriminate]).
  assert (Hend' : bytes_endswith (sha ++ SP :: name_b) (B "HEAD") = true).
  { change (sha ++ SP :: name_b) with (sha ++ [SP] ++ name_b).
    rewrite app_assoc. apply bytes_endswith_app. exact Hend. }
  rewrite Hend', drop_app_le by lia.
  assert (Hdrop_no : SP ∉ drop 4 sha).
  { intros Hin. apply (Hsha_no SP); [reflexivity|].
    exact (subseteq_drop 4 sha _ Hin). }
  rewrite split_all_first by exact Hdrop_no.
  rewrite split_all_absent by exact Hsp.
  cbn [piece lookup list_lookup]. rewrite !bind_Ok, Hdec, !bind_Ok.
  rewrite decode_ascii, bind_Ok; [reflexivity|].
  apply Forall_drop. eapply Forall_impl; [exact Hhex|]. intros c Hc.
  apply lower_hex_cases in Hc. lia.
Qed.

Lemma bytes_endswith_after (pre s suf : bytes) (c : byte) :
  c ∉ suf -> bytes_endswith (pre ++ c :: s) suf = bytes_endswith s suf.
Proof.
  intros Hc. destruct (bytes_endswith s suf) eqn:Hs.
  - change (pre ++ c :: s) with (pre ++ [c] ++ s). rewrite app_assoc.
    apply bytes_endswith_app. exact Hs.
  - unfold bytes_endswith in *. apply bool_decide_eq_false in Hs.
    apply bool_decide_eq_false. intros [Hlen Hdrop]. apply Hs.
    rewrite length_app in Hlen, Hdrop. cbn [length] in Hlen, Hdrop.
    destruct (le_lt_dec (length suf) (length s)) as [Hle | Hlt].
    + split; [exact Hle|]. rewrite drop_app_ge in Hdrop by lia.
      replace (length pre + S (length s) - length suf - length pre)
        with (S (length s - length suf)) in Hdrop by lia.
      exact Hdrop.
    + exfalso. apply Hc. rewrite <- Hdrop.
      rewrite drop_app_le by lia. apply elem_of_app. right. left.
Qed.

(** The lines of a run of ref lines, cut at the line feeds. *)
Lemma split_ref_lines (refs : list (bytes * bytes)) (rest : bytes) :
  Forall (fun r => hex_bytes r.1 /\ name_bytes r.2) refs ->
  split_all LF (concat (map (fun r => ref_line r.1 r.2) refs) ++ rest)
  = map (fun r => hex4 (Z.of_nat (length (r.1 ++ SP :: r.2 ++ [LF])) + 4)
                  ++ r.1 ++ SP :: r.2) refs
    ++ split_all LF rest.
Proof.
  induction 1 as [|[sha name] refs [[_ Hhex] (_ & _ & Hlf)] _ IH]; [reflexivity|].
  cbn [map concat fst snd app]. unfold ref_line at 1, pkt_line.
  cbn [fst snd] in *.
  match goal with
  | |- split_all LF ?x = _ =>
      replace x
        with ((hex4 (Z.of_nat (length (sha ++ SP :: name ++ [LF])) + 4)
               ++ sha ++ SP :: name)
              ++ LF :: (concat (map (fun r => ref_line r.1 r.2) refs) ++ rest))
        by (rewrite <- !app_assoc; cbn [app]; rewrite <- ?app_assoc;
            cbn [app]; reflexivity)
  end.
  rewrite split_all_first, IH; [reflexivity|].
  rewrite !not_elem_of_app, not_elem_of_cons. repeat split.
  - apply hex_bytes_no; [apply hex4_hex | reflexivity].
  - apply hex_bytes_no; [exact Hhex | reflexivity].
  - discriminate.
  - exact Hlf.
Qed.

Lemma parse_plain_lines (refs : list (bytes * bytes)) (lines : list bytes)
    (d : list (str * str)) :
  Forall plain_ref refs ->
  parse_ref_lines
    (map (fun r => hex4 (Z.of_nat (length (r.1 ++ SP :: r.2 ++ [LF])) + 4)
                   ++ r.1 ++ SP :: r.2) refs ++ lines) d
  = parse_ref_lines lines (fold_left record_ref refs d).
Proof.
  intros Hall. revert d.
  induction Hall as [|[sha name] refs (Hsha & Hname & Hascii & Hend) _ IH];
    intros d; [reflexivity|].
  cbn [map app fold_left fst snd] in *.
  rewrite (parse_ref_line_plain _ sha name (map byte_to_Z name));
    [apply IH | apply hex4_length | exact Hsha | exact Hname
    | apply decode_ascii; exact Hascii |].
  rewrite bytes_endswith_after; [exact Hend|].
  rewrite list_elem_of_In. cbn. intuition discriminate.
Qed.

Lemma parse_refs_advert_eq (head_sha caps : bytes) (refs : list (bytes * bytes)) :
  hex_bytes head_sha -> LF ∉ caps -> Forall plain_ref refs ->
  parse_refs (advert head_sha caps refs)
  = Ok (fold_left record_ref refs [(U "HEAD", map byte_to_Z head_sha)]).
Proof.
  intros Hhead Hcaps Hrefs. unfold parse_refs, advert.
  set (n0 := (Z.of_nat (length (B "# service=git-upload-pack" ++ [LF])) + 4)%Z).
  set (n1 := (Z.of_nat (length (head_sha ++ B " HEAD" ++ [NUL] ++ caps ++ [LF])) + 4)%Z).
  assert (Hplain : Forall (fun r => hex_bytes r.1 /\ name_bytes r.2) refs).
  { eapply Forall_impl; [exact Hrefs|]. intros r (? & ? & _). split; assumption. }
  assert (Hno : forall (l : bytes) c,
            Forall (fun c => is_lower_hex (byte_to_Z c) = true) l ->
            is_lower_hex (byte_to_Z c) = false -> c ∉ l)
    by (intros l c Hl Hc; apply hex_bytes_no; assumption).
  match goal with
  | |- parse_ref_lines (split_all LF ?x) _ = _ =>
      replace x
        with ((hex4 n0 ++ B "# service=git-upload-pack")
              ++ LF :: ((flush_pkt ++ hex4 n1 ++ head_sha ++ B " HEAD"
                         ++ [NUL] ++ caps)
                        ++ LF :: (concat (map (fun r => ref_line r.1 r.2) refs)
                                  ++ flush_pkt)))
        by (unfold pkt_line; fold n0 n1; rewrite <- !app_assoc; reflexivity)
  end.
  rewrite split_all_first.
  2:{ rewrite not_elem_of_app. split.
      - apply (Hno _ _ (hex4_hex n0)). reflexivity.
      - rewrite list_elem_of_In. vm_compute. intuition discriminate. }
  rewrite split_all_first.
  2:{ destruct Hhead as [_ Hhex]. rewrite !not_elem_of_app. repeat split.
      - rewrite list_elem_of_In. vm_compute. intuition discriminate.
      - apply (Hno _ _ (hex4_hex n1)). reflexivity.
      - apply (Hno _ _ Hhex). reflexivity.
      - rewrite list_elem_of_In. vm_compute. intuition discriminate.
      - rewrite list_elem_of_In. vm_compute. intuition discriminate.
      - exact Hcaps. }
  rewrite (split_ref_lines refs flush_pkt Hplain).
  rewrite (parse_ref_line_skipped (hex4 n0)) by (first [apply hex4_length | right; reflexivity]).
  rewrite (parse_head_line flush_pkt (hex4 n1))
    by first [reflexivity | apply hex4_hex | exact Hhead].
  rewrite (parse_plain_lines refs _ _ Hrefs).
  change (split_all LF flush_pkt) with [flush_pkt ++ []].
  rewrite (parse_ref_line_skipped flush_pkt []) by (first [reflexivity | left; reflexivity]).
  reflexivity.
Qed.

(** X11.  The refs read off a well-formed advertisement are HEAD, then the
    advertised refs in their order, each name bound to its hash; a name
    advertised twice keeps its place and takes the later hash. *)
Theorem parse_refs_advert (head_sha caps : bytes) (refs : list (bytes * bytes)) :
  hex_bytes head_sha -> LF ∉ caps -> Forall plain_ref refs ->
  parse_refs (advert head_sha caps refs)
  = Ok (fold_left record_ref refs [(U "HEAD", map byte_to_Z head_sha)]).
Proof. apply parse_refs_advert_eq. Qed.

Lemma join_wants_hashes (shas : list str) :
  Forall is_hash shas ->
  join_wants shas
  = Ok (concat (map (fun sha => pkt_line (B "want " ++ map byte_of_Z sha ++ [LF]))
                    shas)).
Proof.
  induction 1 as [|sha shas [Hlen Hhex] _ IH]; [reflexivity|].
  cbn [join_wants map concat].
  rewrite encode_ascii, bind_Ok, IH, bind_Ok.
  - unfold pkt_line. rewrite !length_app, length_map, Hlen. reflexivity.
  - eapply Forall_impl; [exact Hhex|]. intros c Hc.
    apply lower_hex_cases in Hc. lia.
Qed.

(** X13.  For refs that hold full hashes, the request sent is a framed
    sequence: the command, the delimiter, the option, one want line per
    ref in the order of the refs, done, and the line of length zero. *)
Theorem fetch_body_framed (refs : list (str * str)) :
  Forall (fun kv => is_hash kv.2) refs ->
  fetch_body refs
  = Ok (pkt_line (B "command=fetch") ++ B "0001" ++ pkt_line (B "no-progress")
        ++ concat (map (fun kv => pkt_line (B "want " ++ map byte_of_Z kv.2 ++ [LF]))
                       refs)
        ++ pkt_line (B "done" ++ [LF]) ++ flush_pkt).
Proof.
  intros Hrefs. unfold fetch_body.
  rewrite join_wants_hashes by (apply Forall_map; exact Hrefs).
  rewrite bind_Ok, map_map. reflexivity.
Qed.

Lemma fetch_body_framed_witness :
  fetch_body [(U "HEAD", U "5f3c1a9be27d40886c0e4a1b7f92d3e5a6b8c0d1")]
  = Ok (B "0011command=fetch0001000fno-progress0032want 5f3c1a9be27d40886c0e4a1b7f92d3e5a6b8c0d1"
        ++ [LF] ++ B "0009done" ++ [LF] ++ B "0000").
Proof.
  apply (fetch_body_framed [(U "HEAD", U "5f3c1a9be27d40886c0e4a1b7f92d3e5a6b8c0d1")]).
  constructor; [|constructor].
  split; [reflexivity | repeat constructor].
Defined.

Lemma parse_refs_advert_witness :
  parse_refs
    (advert (B "5f3c1a9be27d40886c0e4a1b7f92d3e5a6b8c0d1")
            (B "multi_ack side-band-64k")
            [(B "5f3c1a9be27d40886c0e4a1b7f92d3e5a6b8c0d1", B "refs/heads/main");
             (B "0a1b2c3d4e5f60718293a4b5c6d7e8f901234567", B "refs/tags/v1")])
  = Ok [(U "HEAD", U "5f3c1a9be27d40886c0e4a1b7f92d3e5a6b8c0d1");
        (U "refs/heads/main", U "5f3c1a9be27d40886c0e4a1b7f92d3e5a6b8c0d1");
        (U "refs/tags/v1", U "0a1b2c3d4e5f60718293a4b5c6d7e8f901234567")].
Proof.
  apply (parse_refs_advert
           (B "5f3c1a9be27d40886c0e4a1b7f92d3e5a6b8c0d1")
           (B "multi_ack side-band-64k")
           [(B "5f3c1a9be27d40886c0e4a1b7f92d3e5a6b8c0d1", B "refs/heads/main");
            (B "0a1b2c3d4e5f60718293a4b5c6d7e8f901234567", B "refs/tags/v1")]).
  - split; [discriminate | repeat constructor].
  - rewrite list_elem_of_In. cbn. intuition discriminate.
  - repeat apply List.Forall_cons; [| |apply List.Forall_nil];
      (split; [split; [discriminate | repeat constructor]|]);
      (split; [repeat split; rewrite list_elem_of_In; cbn; intuition discriminate|]);
      (split; [repeat constructor | reflexivity]).
Defined.

Lemma ref_named_HEAD_cut_witness :
  parse_ref_lines
    [B "0040" ++ B "5f3c1a9be27d40886c0e4a1b7f92d3e5a6b8c0d1"
      ++ SP :: B "refs/remotes/origin/HEAD"] []
  = Ok [(U "refs/remotes/origin/HEAD", U "1a9be27d40886c0e4a1b7f92d3e5a6b8c0d1")].
Proof.
  apply (ref_named_HEAD_cut (B "0040") (B "5f3c1a9be27d40886c0e4a1b7f92d3e5a6b8c0d1")
           (B "refs/remotes/origin/HEAD") (U "refs/remotes/origin/HEAD") [] []).
  - reflexivity.
  - split; [discriminate | repeat constructor].
  - cbn. lia.
  - repeat split; rewrite list_elem_of_In; cbn; intuition discriminate.
  - reflexivity.
  - reflexivity.
Defined.

(** ** Pack entries, written and unpacked *)

Lemma Plain_stream (x r : bytes) :
  Plain.inflate (Plain.deflate x ++ r) = Some (x, r).
Proof.
  unfold Plain.deflate. induction x as [|b x IH]; [reflexivity|].
  cbn [flat_map app Plain.inflate]. rewrite <- !app_assoc in *.
  cbn [app] in *. rewrite IH. reflexivity.
Qed.

Section PackWritten.
Context `{Zlib}.
Hypothesis stream :
  forall x r : bytes, decompressobj (compress x ++ r) = Some (x, r).

Lemma direct_type (ty : Z) : (1 <= ty <= 4)%Z -> type_map ty ∈ direct_kinds.
Proof.
  intros Hty. assert (ty = 1 \/ ty = 2 \/ ty = 3 \/ ty = 4)%Z
    as [-> | [-> | [-> | ->]]] by lia;
    unfold direct_kinds; rewrite list_elem_of_In; cbn; tauto.
Qed.

Lemma pack_entry_direct_eq (fs : objects) (ty declared : Z)
    (content rest : bytes) :
  (1 <= ty <= 4)%Z -> (0 <= declared)%Z ->
  pack_entry fs (packed_entry (ty, declared, content) ++ rest)
  = ('(_, fs') ← write_object fs (type_map ty) content;
     Ok (fs', rest, type_map ty)).
Proof.
  intros Hty Hn. unfold pack_entry, packed_entry. cbn [fst snd].
  rewrite <- app_assoc, next_size_type_written, bind_Ok by lia.
  rewrite bool_decide_true by (apply direct_type; exact Hty).
  unfold zlib_decompressobj. rewrite stream, bind_Ok. reflexivity.
Qed.

(** X15.  An entry of one of the four kinds is stored by write_object under
    the kind of its header and can be read back; the size its header
    declares plays no part, and the bytes after the entry are left. *)
Theorem pack_entry_direct (fs : objects) (ty declared : Z)
    (content rest : bytes) :
  (1 <= ty <= 4)%Z -> (0 <= declared)%Z ->
  exists sha fs',
    pack_entry fs (packed_entry (ty, declared, content) ++ rest)
    = Ok (fs', rest, type_map ty) /\
    write_object fs (type_map ty) content = Ok (sha, fs') /\
    read_object fs' sha = Ok (type_map ty, content).
Proof.
  intros Hty Hn.
  destruct (write_then_read fs (type_map ty) content (direct_type ty Hty))
    as (sha & fs' & Hw & _ & Hr).
  exists sha, fs'. rewrite pack_entry_direct_eq, Hw by assumption.
  repeat split; assumption.
Qed.

(** The entry loop over a pack of entries of the four kinds does what
    write_object does for each of them in the order of the pack, and
    leaves what follows the last entry. *)
Lemma pack_entries_written (es : list (Z * Z * bytes)) (fs : objects)
    (rest : bytes) (seen : list str) :
  Forall (fun e => (1 <= e.1.1 <= 4)%Z /\ (0 <= e.1.2)%Z) es ->
  exists fs',
    write_each fs es = Ok fs' /\
    pack_entries (length es) fs (concat (map packed_entry es) ++ rest) seen
    = Ok (fs', rest, seen ++ map (fun e => type_map e.1.1) es).
Proof.
  intros Hall. revert fs seen.
  induction Hall as [|[[ty declared] content] es [Hty Hn] _ IH]; intros fs seen.
  - exists fs. split; [reflexivity|]. cbn. rewrite app_nil_r. reflexivity.
  - cbn [fst snd] in Hty, Hn.
    destruct (write_then_read fs (type_map ty) content (direct_type ty Hty))
      as (sha & fs1 & Hw & _ & _).
    destruct (IH fs1 (seen ++ [type_map ty])) as (fs' & Hrest & Hrun).
    exists fs'. cbn [write_each length map concat pack_entries fst snd].
    rewrite Hw, bind_Ok. split; [exact Hrest|].
    rewrite <- app_assoc, pack_entry_direct_eq, Hw, !bind_Ok by assumption.
    rewrite Hrun, <- app_assoc. reflexivity.
Qed.

Lemma pack_entry_delta_eq (fs : objects) (declared : Z)
    (base delta rest : bytes) :
  length base = 20 -> (0 <= declared)%Z ->
  pack_entry fs (packed_delta declared base delta ++ rest)
  = ('(_, base_content) ← read_object fs (hexlify base);
     target_content ← resolve_delta base_content delta;
     '(_, fs') ← write_object fs (U "blob") target_content;
     Ok (fs', rest, U "ref_delta")).
Proof.
  intros Hlen Hn. unfold pack_entry, packed_delta.
  rewrite <- !app_assoc, next_size_type_written, bind_Ok by lia.
  change (type_map 7) with (U "ref_delta").
  rewrite bool_decide_false
    by (unfold direct_kinds; rewrite list_elem_of_In; cbn; intuition discriminate).
  rewrite bool_decide_true by reflexivity.
  rewrite take_app_length', drop_app_length' by (symmetry; exact Hlen).
  unfold zlib_decompressobj. rewrite stream, bind_Ok. reflexivity.
Qed.

(** X16.  The object a ref_delta entry resolves to is stored as a blob,
    whatever the kind of its base. *)
Theorem ref_delta_stored_as_blob (fs : objects) (declared : Z)
    (base delta rest : bytes) (base_kind : str) (base_content target : bytes) :
  length base = 20 -> (0 <= declared)%Z ->
  read_object fs (hexlify base) = Ok (base_kind, base_content) ->
  resolve_delta base_content delta = Ok target ->
  exists sha fs',
    pack_entry fs (packed_delta declared base delta ++ rest)
    = Ok (fs', rest, U "ref_delta") /\
    write_object fs (U "blob") target = Ok (sha, fs') /\
    read_object fs' sha = Ok (U "blob", target).
Proof.
  intros Hlen Hn Hbase Hres.
  destruct (write_then_read fs (U "blob") target) as (sha & fs' & Hw & _ & Hr).
  { unfold direct_kinds. rewrite list_elem_of_In. cbn. tauto. }
  exists sha, fs'.
  rewrite pack_entry_delta_eq, Hbase, bind_Ok, Hres, bind_Ok, Hw by assumption.
  repeat split; assumption.
Qed.

(** X17.  A ref_delta entry whose base is not in the store when the loop
    reaches it ends the loop with FileNotFoundError, whatever follows it in
    the pack. *)
Theorem ref_delta_before_base (fs : objects) (declared : Z)
    (base delta later : bytes) (n : nat) (seen : list str) :
  length base = 20 -> (0 <= declared)%Z ->
  fs !! object_path (hexlify base) = None ->
  pack_entries (S n) fs (packed_delta declared base delta ++ later) seen
  = Raise FileNotFoundError.
Proof.
  intros Hlen Hn Hmiss. cbn [pack_entries].
  rewrite pack_entry_delta_eq by assumption.
  unfold read_object, read_bytes. rewrite Hmiss. reflexivity.
Qed.

End PackWritten.

Lemma pack_entry_direct_witness :
  exists sha fs',
    @pack_entry Plain.codec ∅
      (@packed_entry Plain.codec (3, 1000, B "hello")%Z ++ [x60])
    = Ok (fs', [x60], U "blob") /\
    @write_object Plain.codec ∅ (U "blob") (B "hello") = Ok (sha, fs') /\
    @read_object Plain.codec fs' sha = Ok (U "blob", B "hello").
Proof.
  apply (@pack_entry_direct Plain.codec Plain_stream ∅ 3 1000 (B "hello") [x60]);
    lia.
Defined.

(** The fox as the content of a commit, in a store of its own. *)
Lemma commit_fox_read :
  @read_object Plain.codec
    (<[object_path (SHA1.hexdigest (object_bytes (B "commit") fox))
         := Plain.deflate (object_bytes (B "commit") fox)]> ∅)
    (SHA1.hexdigest (object_bytes (B "commit") fox))
  = Ok (U "commit", fox).
Proof.
  rewrite (@read_object_fields Plain.codec _ _
             (Plain.deflate (object_bytes (B "commit") fox))
             (B "commit") (decimal (length fox)) fox).
  - reflexivity.
  - apply lookup_insert_eq.
  - rewrite <- object_bytes_eq. apply (@decompress_compress Plain.codec).
  - rewrite list_elem_of_In. cbn. intuition discriminate.
  - rewrite list_elem_of_In. cbn. intuition discriminate.
  - apply decimal_no. unfold is_digit, byte_to_Z; simpl; lia.
  - apply decimal_no. unfold is_digit, byte_to_Z; simpl; lia.
Qed.

(** The delta of the fox against a base that is a commit: a blob comes
    out. *)
Lemma ref_delta_stored_as_blob_witness :
  let base := SHA1.digest (object_bytes (B "commit") fox) in
  let fs : objects :=
    <[object_path (hexlify base)
        := Plain.deflate (object_bytes (B "commit") fox)]> ∅ in
  exists sha fs',
    @pack_entry Plain.codec fs
      (@packed_delta Plain.codec 17 base fox_delta ++ [])
    = Ok (fs', [], U "ref_delta") /\
    @write_object Plain.codec fs (U "blob") (B "quickslow brown fox")
    = Ok (sha, fs') /\
    @read_object Plain.codec fs' sha = Ok (U "blob", B "quickslow brown fox").
Proof.
  intros base fs.
  apply (@ref_delta_stored_as_blob Plain.codec Plain_stream fs 17 base
           fox_delta [] (U "commit") fox (B "quickslow brown fox")).
  - apply digest_length.
  - lia.
  - apply commit_fox_read.
  - reflexivity.
Defined.

(** A pack that holds the delta before its base. *)
Lemma ref_delta_before_base_witness :
  let base := SHA1.digest (object_bytes (B "blob") fox) in
  @pack_entries Plain.codec 2 ∅
    (@packed_delta Plain.codec 20 base fox_delta
     ++ @packed_entry Plain.codec (3, 19, fox)%Z) []
  = Raise FileNotFoundError.
Proof.
  intros base.
  apply (@ref_delta_before_base Plain.codec Plain_stream ∅ 20 base fox_delta
           (@packed_entry Plain.codec (3, 19, fox)%Z) 1 []).
  - apply digest_length.
  - lia.
  - apply lookup_empty.
Defined.

(** ** ls-tree, and the trees that write_tree writes *)

Lemma split_once_shorter (sep : byte) (bs pre post : bytes) :
  split_once sep bs = [pre; post] -> length pre + length post < length bs.
Proof.
  revert pre post. induction bs as [|c bs IH]; intros pre post; cbn [split_once].
  - discriminate.
  - destruct (Byte.eqb c sep).
    + intros [= <- <-]. cbn. lia.
    + destruct (split_once sep bs) as [|p [|a [|]]] eqn:E; try discriminate.
      intros [= <- <-]. specialize (IH p a eq_refl). cbn. lia.
Qed.

Lemma unpack2_inv {A} (pieces : list A) (a b : A) :
  unpack2 pieces = Ok (a, b) -> pieces = [a; b].
Proof.
  destruct pieces as [|x [|y [|]]]; try discriminate. intros [= <- <-]. reflexivity.
Qed.

Lemma tree_item_shorter (contents contents' : bytes) (item : entry) :
  tree_item contents = Ok (item, contents') -> length contents' < length contents.
Proof.
  unfold tree_item. intros Hrun.
  monad_inv Hrun. destruct a as [mode c1]. apply unpack2_inv in Ha.
  monad_inv Hrun. destruct a as [name c2]. apply unpack2_inv in Ha0.
  monad_inv Hrun. monad_inv Hrun. injection Hrun as _ <-.
  apply split_once_shorter in Ha, Ha0. rewrite length_drop. lia.
Qed.

Lemma tree_items_fuel (fuel : nat) (contents : bytes) (items : list entry) :
  length contents <= fuel -> exists r, tree_items fuel contents items = Some r.
Proof.
  revert contents items. induction fuel as [|fuel IH]; intros contents items Hlen.
  - destruct contents; [eexists; reflexivity | simpl in Hlen; lia].
  - destruct contents as [|c0 contents0]; [eexists; reflexivity|].
    cbn [tree_items].
    destruct (tree_item (c0 :: contents0)) as [[item contents']|e] eqn:Hitem;
      [|eexists; reflexivity].
    apply IH. apply tree_item_shorter in Hitem. cbn [length] in *. lia.
Qed.

Lemma hex_pair (hi lo : Z) :
  is_lower_hex hi = true -> is_lower_hex lo = true ->
  exists h l,
    digit_value hi = Some h /\ digit_value lo = Some l /\ is_space hi = false /\
    hexlify [byte_of_Z (16 * h + l)] = [hi; lo].
Proof.
  intros Hhi Hlo. apply lower_hex_cases in Hhi, Hlo.
  assert (Hcase : forall c, (48 <= c <= 57 \/ 97 <= c <= 102)%Z ->
            exists d, digit_value c = Some d /\ (0 <= d < 16)%Z /\
                      hex_digit d = c /\ is_space c = false).
  { intros c Hc. unfold digit_value, is_space, hex_digit, in_range.
    destruct Hc as [Hc | Hc].
    - exists (c - 48)%Z.
      replace ((48 <=? c) && (c <=? 57))%Z with true by lia.
      repeat split; try lia.
      destruct (Z.ltb_spec (c - 48) 10); lia.
    - exists (c - 87)%Z.
      replace ((48 <=? c) && (c <=? 57))%Z with false by lia.
      replace ((97 <=? c) && (c <=? 102))%Z with true by lia.
      repeat split; try lia.
      destruct (Z.ltb_spec (c - 87) 10); lia. }
  destruct (Hcase hi Hhi) as (h & Hh & Hhr & Hhd & Hsp).
  destruct (Hcase lo Hlo) as (l & Hl & Hlr & Hld & _).
  exists h, l. repeat split; try assumption.
  unfold hexlify. cbn [flat_map app].
  rewrite byte_to_of_Z_small by lia.
  rewrite Z.shiftr_div_pow2 by lia.
  rewrite (land_low _ 15 4) by first [lia | reflexivity].
  change (2 ^ 4)%Z with 16%Z.
  replace ((16 * h + l) / 16)%Z with h by div_lia.
  replace ((16 * h + l) mod 16)%Z with l by div_lia.
  rewrite Hhd, Hld. reflexivity.
Qed.

Lemma fromhex_lower (n : nat) (h : str) :
  length h = 2 * n -> Forall (fun c => is_lower_hex c = true) h ->
  exists hb, fromhex h = Ok hb /\ length hb = n /\ hexlify hb = h.
Proof.
  revert h. induction n as [|n IH]; intros h Hlen Hall.
  - destruct h; [|discriminate]. exists []. repeat split.
  - destruct h as [|hi [|lo h']]; try (cbn in Hlen; lia).
    apply Forall_cons in Hall as [Hhi Hall].
    apply Forall_cons in Hall as [Hlo Hall].
    destruct (IH h') as (hb & Hrun & Hlb & Hhex); [cbn in Hlen; lia | exact Hall|].
    destruct (hex_pair hi lo Hhi Hlo) as (a & b & Ha & Hb & Hsp & Hpair).
    exists (byte_of_Z (16 * a + b) :: hb). cbn [fromhex].
    rewrite Hsp, Ha, Hb, Hrun, bind_Ok. repeat split.
    + cbn. lia.
    + change (hexlify (byte_of_Z (16 * a + b) :: hb))
        with (hexlify [byte_of_Z (16 * a + b)] ++ hexlify hb).
      rewrite Hpair, Hhex. reflexivity.
Qed.

Lemma tree_item_written (e : entry) (b rest : bytes) :
  plain_entry e -> entry_bytes e = Ok b ->
  tree_item (b ++ rest) = Ok (e, rest).
Proof.
  destruct e as [[m n] h]. intros (Hm & Hn & Hlen & Hhex) Hb.
  cbn [fst snd] in *. cbn [entry_bytes] in Hb.
  monad_inv Hb. rename a into mb. monad_inv Hb. rename a into nb.
  monad_inv Hb. rename a into hb. injection Hb as <-.
  destruct (fromhex_lower 20 h Hlen Hhex) as (hb' & Hhb & Hlb & Hback).
  rewrite Hhb in Ha1. injection Ha1 as ->.
  unfold tree_item.
  match goal with
  | |- context [split_once SP ?x] =>
      replace x with (mb ++ SP :: (nb ++ NUL :: (hb ++ rest)))
        by (rewrite <- !app_assoc; cbn [app]; rewrite <- ?app_assoc;
            reflexivity)
  end.
  rewrite split_once_first
    by (rewrite (encode_low m mb SP Ha) by reflexivity; exact Hm).
  cbn [unpack2]. rewrite bind_Ok.
  rewrite split_once_first
    by (rewrite (encode_low n nb NUL Ha0) by reflexivity; exact Hn).
  cbn [unpack2]. rewrite bind_Ok.
  rewrite (decode_encode m mb Ha), bind_Ok, (decode_encode n nb Ha0), bind_Ok.
  rewrite take_app_length', drop_app_length' by (symmetry; exact Hlb).
  rewrite Hback. reflexivity.
Qed.

Lemma tree_items_prefix (es : list entry) (bs rest : bytes) (fuel : nat)
    (items : list entry) :
  Forall plain_entry es -> join_entries es = Ok bs ->
  tree_items (length es + fuel) (bs ++ rest) items
  = tree_items fuel rest (items ++ es).
Proof.
  intros Hall. revert bs items.
  induction Hall as [|e es He _ IH]; intros bs items Hj.
  - injection Hj as <-. rewrite app_nil_r. reflexivity.
  - cbn [join_entries] in Hj. monad_inv Hj. rename a into b.
    monad_inv Hj. rename a into bs'. injection Hj as <-.
    assert (Hne : b <> []).
    { destruct e as [[m n] h]. cbn [entry_bytes] in Ha.
      monad_inv Ha. monad_inv Ha. monad_inv Ha. injection Ha as <-.
      destruct a; discriminate. }
    destruct b as [|b0 b']; [contradiction|].
    cbn [length Nat.add tree_items app].
    change (b0 :: (b' ++ bs') ++ rest) with (((b0 :: b') ++ bs') ++ rest).
    rewrite <- app_assoc, (tree_item_written e (b0 :: b') (bs' ++ rest) He Ha).
    rewrite (IH bs' (items ++ [e]) Ha0), <- app_assoc. reflexivity.
Qed.

Lemma tree_items_written (es : list entry) (bs : bytes) (fuel : nat)
    (items : list entry) :
  Forall plain_entry es -> join_entries es = Ok bs -> length es <= fuel ->
  tree_items fuel bs items = Some (Ok (items ++ es)).
Proof.
  intros Hall Hj Hfuel.
  replace fuel with (length es + (fuel - length es)) by lia.
  rewrite <- (app_nil_r bs), (tree_items_prefix es bs [] _ items Hall Hj).
  destruct (fuel - length es); reflexivity.
Qed.

Lemma join_entries_length (es : list entry) (bs : bytes) :
  join_entries es = Ok bs -> length es <= length bs.
Proof.
  revert bs. induction es as [|e es IH]; intros bs Hj; [cbn; lia|].
  cbn [join_entries] in Hj. monad_inv Hj. rename a into b.
  monad_inv Hj. rename a into bs'. injection Hj as <-.
  destruct e as [[m n] h]. cbn [entry_bytes] in Ha.
  monad_inv Ha. monad_inv Ha. monad_inv Ha. injection Ha as <-.
  specialize (IH bs' Ha0). rewrite !length_app. cbn [length]. lia.
Qed.

Section ListTree.
Context `{Zlib}.

Lemma ls_tree_joined (fs : objects) (tree_sha kind : str)
    (es : list entry) (bs : bytes) :
  Forall plain_entry es -> join_entries es = Ok bs ->
  read_object fs tree_sha = Ok (kind, bs) ->
  ls_tree fs tree_sha = Ok (map entry_name es).
Proof.
  intros Hall Hj Hread. unfold ls_tree. rewrite Hread, bind_Ok.
  rewrite (tree_items_written es bs (length bs) [] Hall Hj)
    by (apply join_entries_length; exact Hj).
  reflexivity.
Qed.

(** X19.  ls-tree on an object whose contents are entries joined as
    write_tree joins them prints the names of the entries, in their order,
    whatever kind the object says it is. *)
Theorem ls_tree_written (fs : objects) (tree_sha kind : str)
    (es : list entry) (bs : bytes) :
  Forall plain_entry es -> join_entries es = Ok bs ->
  read_object fs tree_sha = Ok (kind, bs) ->
  ls_tree fs tree_sha = Ok (map entry_name es).
Proof. apply ls_tree_joined. Qed.

End ListTree.

Lemma tree_entry_plain (p : node) (name : str) (e : entry) :
  0%Z ∉ name -> tree_entry p name = Ok e -> plain_entry e.
Proof.
  intros Hname He.
  assert (Hdigest : forall msg, is_hash (SHA1.hexdigest msg))
    by (intros msg; split; [apply hexdigest_length | apply hexlify_lower]).
  assert (Hmode : forall m, m = U "40000" \/ m = U "100644" -> 32%Z ∉ m)
    by (intros m [-> | ->]; rewrite list_elem_of_In; cbn; intuition discriminate).
  destruct p as [[bs|]|children|]; [| | |discriminate He].
  - injection He as <-. split; [|split]; cbn [fst snd];
      [apply Hmode; right; reflexivity | exact Hname | apply Hdigest].
  - injection He as <-. split; [|split]; cbn [fst snd];
      [apply Hmode; right; reflexivity | exact Hname |].
    split; [reflexivity | repeat constructor].
  - rewrite tree_entry_Dir in He. monad_inv He. monad_inv He.
    injection He as <-. split; [|split]; cbn [fst snd];
      [apply Hmode; left; reflexivity | exact Hname | apply Hdigest].
Qed.

Lemma collect_plain (l : list (str * node)) (es : list entry) :
  Forall (fun nc => 0%Z ∉ nc.1) l ->
  collect (map (fun nc => tree_entry nc.2 nc.1) l) = Ok es ->
  Forall plain_entry es.
Proof.
  rewrite collect_Forall2. intros Hall. revert es.
  induction Hall as [|nc l Hnc _ IH]; intros es; cbn [map];
    inversion 1 as [|? e ? es' He Hes]; subst; constructor.
  - eapply tree_entry_plain; eassumption.
  - apply IH. assumption.
Qed.

Section ListWritten.
Context `{Zlib}.

Lemma toEntry_Dir_collect (children : list (str * node)) (name : str)
    (exclude_git : bool) (w w' : walk) (e : entry) :
  toEntry (Dir children) name exclude_git w = Ok (e, w') ->
  exists entries b_entries,
    read_object (store w') (entry_hash e) = Ok (U "tree", b_entries) /\
    join_entries entries = Ok b_entries /\
    collect (map (fun nc => tree_entry nc.2 nc.1) (visible false children))
    = Ok entries.
Proof.
  rewrite toEntry_Dir. intros Hrun.
  monad_inv Hrun. destruct a as [es w1].
  monad_inv Hrun. rename a into b.
  monad_inv Hrun. destruct a as [hash fs]. injection Hrun as <- <-.
  exists es, b. cbn [entry_hash snd store].
  destruct (write_then_read (store w1) (U "tree") b) as (sha & fs' & Hw & _ & Hr).
  { unfold direct_kinds. rewrite list_elem_of_In. simpl. tauto. }
  rewrite Hw in Ha1. injection Ha1 as <- <-.
  split; [exact Hr|]. split; [exact Ha0|].
  eapply run_entries_collect. exact Ha.
Qed.

(** X21.  ls-tree on the hash that write_tree returned for a directory prints
    the names of the children that the walk kept, in the order of the
    walk: sorted, without the names that start with a dot. *)
Theorem ls_tree_write_tree (children : list (str * node)) (root_name sha : str)
    (w w' : walk) :
  Forall (fun nc => 0%Z ∉ nc.1) children ->
  write_tree (Dir children) root_name w = Ok (sha, w') ->
  ls_tree (store w') sha = Ok (map fst (visible true children)).
Proof.
  intros Hnames Hrun. unfold write_tree in Hrun.
  monad_inv Hrun. destruct a as [e w1]. injection Hrun as <- <-.
  apply toEntry_Dir_collect in Ha as (es & b & Hread & Hjoin & Hes).
  rewrite (visible_exclude_git true).
  rewrite <- (collect_names _ es Hes).
  apply (ls_tree_joined _ _ (U "tree") es b); [|exact Hjoin | exact Hread].
  apply (collect_plain (visible false children)); [|exact Hes].
  rewrite Forall_forall in Hnames |- *. intros nc Hnc.
  apply visible_subset in Hnc as [Hnc _]. apply Hnames. exact Hnc.
Qed.

End ListWritten.

Lemma ls_tree_write_tree_witness :
  let children := [(U "b", File (Some (B "2"))); (U ".git", Dir []);
                   (U "a", File None); (U ".env", File (Some (B "k")))] in
  exists sha w',
    @write_tree Plain.codec (Dir children) (U "repo") (Walk ∅ []) = Ok (sha, w') /\
    @ls_tree Plain.codec (store w') sha = Ok [U "a"; U "b"].
Proof.
  intros children.
  destruct (@toEntry_ok Plain.codec (Dir children) (U "repo") true (Walk ∅ [])
              eq_refl eq_refl) as (e & w' & E).
  assert (Hw : @write_tree Plain.codec (Dir children) (U "repo") (Walk ∅ [])
               = Ok (e.2, w'))
    by (unfold write_tree; rewrite E; reflexivity).
  exists e.2, w'. split; [exact Hw|].
  apply (@ls_tree_write_tree Plain.codec children (U "repo") e.2 (Walk ∅ []) w');
    [|exact Hw].
  repeat (apply List.Forall_cons;
          [rewrite list_elem_of_In; cbn; intuition discriminate|]).
  apply List.Forall_nil.
Defined.

(** C8.  For every directory the tree object that toEntry writes holds one
    row for each child whose name does not start with a dot, .git among
    the excluded, and no other byte: the rows stand in ascending order of
    name, and each is the mode of the child, a space, its name, a NUL and
    the twenty bytes of its hash; where no name holds a NUL, ls-tree reads
    these names back in this order.  A directory with the files b, a and c
    gives the rows of a, b and c.  The hash write_tree returns is the same
    for the same directory whatever the store holds, whatever was printed
    and in whatever order the directories list their children. *)
Theorem tree_sorted_listed_deterministic :
  (forall (z : Zlib) (children : list (str * node)) (name : str)
          (exclude_git : bool) (w w' : walk) (e : entry),
      toEntry (Dir children) name exclude_git w = Ok (e, w') ->
      exists (kept : list (str * node)) (rows : list bytes),
        StronglySorted str_le (map fst kept) /\
        (kept ≡ₚ filter (fun nc => startswith nc.1 (U ".") = false) children) /\
        (U ".git" ∉ map fst kept) /\
        Forall2 row_of kept rows /\
        read_object (store w') (entry_hash e) = Ok (U "tree", concat rows) /\
        entry_hash e = SHA1.hexdigest (object_bytes (B "tree") (concat rows)) /\
        (Forall (fun nc => 0%Z ∉ nc.1) children ->
         ls_tree (store w') (entry_hash e) = Ok (map fst kept))) /\
  (forall (z : Zlib) (fa fb fc : option bytes) (name : str) (w : walk),
      exists sha w',
        write_tree
          (Dir [(U "b", File fb); (U "a", File fa); (U "c", File fc)]) name w
        = Ok (sha, w') /\
        read_object (store w') sha
        = Ok (U "tree",
              tree_row (B "100644") (B "a") (file_raw fa)
              ++ tree_row (B "100644") (B "b") (file_raw fb)
              ++ tree_row (B "100644") (B "c") (file_raw fc))) /\
  (forall (z1 z2 : Zlib) (root root' : node) (name name' : str)
          (w1 w2 : walk),
      same_dir root root' -> distinct_names root ->
      fst <$> @write_tree z1 root name w1
      = fst <$> @write_tree z2 root' name' w2).
Proof.
  split; [|split].
  - intros z children name exclude_git w w' e Hrun.
    destruct (toEntry_Dir_rows children name exclude_git w w' e Hrun)
      as (rows & Hrows & Hread & Hhash).
    exists (visible false children), rows.
    split; [apply visible_names_sorted|].
    split; [apply visible_perm|].
    split.
    { intros Hin. apply list_elem_of_fmap in Hin as (nc & Hname & Hin).
      apply visible_subset in Hin as [_ Hdot]. rewrite <- Hname in Hdot.
      discriminate. }
    split; [exact Hrows|]. split; [exact Hread|]. split; [exact Hhash|].
    intros Hnames.
    apply toEntry_Dir_collect in Hrun as (es & b & Hread' & Hjoin & Hes).
    rewrite <- (collect_names _ es Hes).
    apply (ls_tree_joined _ _ (U "tree") es b); [|exact Hjoin | exact Hread'].
    apply (collect_plain (visible false children)); [|exact Hes].
    rewrite Forall_forall in Hnames |- *. intros nc Hnc.
    apply visible_subset in Hnc as [Hnc _]. apply Hnames. exact Hnc.
  - intros z fa fb fc name w. unfold write_tree.
    destruct (toEntry_ok
                (Dir [(U "b", File fb); (U "a", File fa); (U "c", File fc)])
                name true w eq_refl eq_refl) as (e & w' & Hrun).
    destruct (toEntry_Dir_rows _ name true w w' e Hrun)
      as (rows & Hrows & Hread & _).
    rewrite Hrun, bind_Ok. exists (snd e), w'. split; [reflexivity|].
    change (visible false
              [(U "b", File fb); (U "a", File fa); (U "c", File fc)])
      with [(U "a", File fa); (U "b", File fb); (U "c", File fc)] in Hrows.
    assert (Hfile : forall (n : str) (nb : bytes) (f : option bytes) (row : bytes),
              encode n = Ok nb -> row_of (n, File f) row ->
              row = tree_row (B "100644") nb (file_raw f)).
    { intros n nb f row Hn (nb' & raw & e' & Hnb & He & Hraw & _ & ->).
      cbn [fst snd] in *. rewrite Hn in Hnb. injection Hnb as <-.
      cbn [mode_bytes]. f_equal. f_equal. f_equal. f_equal.
      apply hexlify_inj. rewrite <- Hraw.
      destruct f as [bs|]; injection He as <-; reflexivity. }
    inversion Hrows as [|? ra ? rs1 Ha Hrows1]; subst.
    inversion Hrows1 as [|? rb ? rs2 Hb Hrows2]; subst.
    inversion Hrows2 as [|? rc ? rs3 Hc Hrows3]; subst.
    inversion Hrows3; subst.
    rewrite (Hfile (U "a") (B "a") fa ra eq_refl Ha),
      (Hfile (U "b") (B "b") fb rb eq_refl Hb),
      (Hfile (U "c") (B "c") fc rc eq_refl Hc) in Hread.
    cbn [concat] in Hread. rewrite app_nil_r in Hread. exact Hread.
  - intros z1 z2 root root' name name' w1 w2 Hsame Hdist. unfold write_tree.
    assert (Hpure : forall (z : Zlib) p n w,
              fst <$> ('(e, w') ← @toEntry z p n true w; Ok (snd e, w'))
              = entry_hash <$> tree_entry p n).
    { intros z p n w. rewrite <- (@toEntry_pure z p n true w).
      destruct (@toEntry z p n true w) as [[e w']|]; reflexivity. }
    rewrite !Hpure, (tree_entry_same_dir root root' Hsame Hdist name).
    apply entry_hash_name.
Qed.

(** C8 on a directory with the files b and a and the metadata directory,
    listed in two orders. *)
Lemma tree_sorted_listed_deterministic_witness :
  let children := [(U "b", File (Some (B "2"))); (U ".git", Dir []);
                   (U "a", File (Some (B "1")))] in
  let d' := Dir [(U ".git", Dir []); (U "b", File (Some (B "2")));
                 (U "a", File (Some (B "1")))] in
  match @toEntry Plain.codec (Dir children) (U "repo") true (Walk ∅ []) with
  | Ok (e, w') =>
      exists (kept : list (str * node)) (rows : list bytes),
        StronglySorted str_le (map fst kept) /\
        (kept ≡ₚ filter (fun nc => startswith nc.1 (U ".") = false) children) /\
        (U ".git" ∉ map fst kept) /\
        Forall2 row_of kept rows /\
        @read_object Plain.codec (store w') (entry_hash e)
        = Ok (U "tree", concat rows) /\
        entry_hash e = SHA1.hexdigest (object_bytes (B "tree") (concat rows)) /\
        (Forall (fun nc => 0%Z ∉ nc.1) children ->
         @ls_tree Plain.codec (store w') (entry_hash e) = Ok (map fst kept))
  | Raise _ => False
  end /\
  fst <$> @write_tree Plain.codec (Dir children) (U "repo") (Walk ∅ [])
  = fst <$> @write_tree Plain.codec d' (U "copy") (Walk ∅ [U "x"]).
Proof.
  intros children d'.
  destruct tree_sorted_listed_deterministic as (Horder & _ & Hsame).
  split.
  - destruct (@toEntry_ok Plain.codec (Dir children) (U "repo") true (Walk ∅ [])
                eq_refl eq_refl) as (e & w' & E).
    rewrite E. exact (Horder Plain.codec _ _ _ _ _ _ E).
  - apply Hsame.
    + eapply same_listing; [apply Permutation_swap|].
      repeat constructor. eapply same_listing; [reflexivity | constructor].
    + constructor.
      * apply (bool_decide_unpack _). vm_compute. exact I.
      * repeat constructor.
Defined.

Lemma ls_tree_written_witness :
  let es := [(U "100644", U "a b", sentinel); (U "40000", U "d", sentinel)] in
  let bs := B "100644 a b" ++ [NUL] ++ repeat x00 20
            ++ B "40000 d" ++ [NUL] ++ repeat x00 20 in
  exists sha fs',
    @write_object Plain.codec ∅ (U "tree") bs = Ok (sha, fs') /\
    @ls_tree Plain.codec fs' sha = Ok [U "a b"; U "d"].
Proof.
  intros es bs.
  destruct (@write_then_read Plain.codec ∅ (U "tree") bs)
    as (sha & fs' & Hw & _ & Hr).
  { unfold direct_kinds. rewrite list_elem_of_In. simpl. tauto. }
  exists sha, fs'. split; [exact Hw|].
  apply (@ls_tree_written Plain.codec fs' sha (U "tree") es bs);
    [|reflexivity | exact Hr].
  repeat (apply List.Forall_cons;
          [split; [|split]; cbn [fst snd];
           [rewrite list_elem_of_In; cbn; intuition discriminate
           |rewrite list_elem_of_In; cbn; intuition discriminate
           |split; [reflexivity | repeat constructor]]|]).
  apply List.Forall_nil.
Defined.

Section ListCut.
Context `{Zlib}.

(** X20.  ls-tree does not ask for the twenty bytes of a hash: a tree whose
    last entry is cut short after its name, or within its hash, is listed
    to the end without an error. *)
Theorem ls_tree_short_hash (fs : objects) (tree_sha kind : str)
    (es : list entry) (bs : bytes) (m n : str) (mb nb short : bytes) :
  Forall plain_entry es -> join_entries es = Ok bs ->
  encode m = Ok mb -> 32%Z ∉ m -> encode n = Ok nb -> 0%Z ∉ n ->
  length short < 20 ->
  read_object fs tree_sha = Ok (kind, bs ++ mb ++ SP :: nb ++ NUL :: short) ->
  ls_tree fs tree_sha = Ok (map entry_name es ++ [n]).
Proof.
  intros Hall Hj Hm Hsp Hn Hnul Hshort Hread.
  unfold ls_tree. rewrite Hread, bind_Ok.
  pose proof (join_entries_length es bs Hj) as Hlen.
  set (last := mb ++ SP :: nb ++ NUL :: short).
  assert (Hlast : 2 <= length last)
    by (unfold last; rewrite !length_app; cbn [length];
        rewrite !length_app; cbn [length]; lia).
  replace (length (bs ++ last))
    with (length es + S (length (bs ++ last) - length es - 1))
    by (rewrite length_app; lia).
  rewrite (tree_items_prefix es bs last _ [] Hall Hj).
  assert (Hitem : tree_item last = Ok ((m, n, hexlify short), [])).
  { unfold tree_item, last.
    rewrite split_once_first
      by (rewrite (encode_low m mb SP Hm) by reflexivity; exact Hsp).
    cbn [unpack2]. rewrite bind_Ok.
    rewrite split_once_first
      by (rewrite (encode_low n nb NUL Hn) by reflexivity; exact Hnul).
    cbn [unpack2]. rewrite bind_Ok.
    rewrite (decode_encode m mb Hm), bind_Ok, (decode_encode n nb Hn), bind_Ok.
    rewrite take_ge, drop_ge by lia. reflexivity. }
  destruct last as [|c0 last']; [cbn in Hlast; lia|].
  cbn [tree_items app]. rewrite Hitem.
  destruct (length (bs ++ c0 :: last') - length es - 1);
    cbn [tree_items]; rewrite bind_Ok, map_app; reflexivity.
Qed.

End ListCut.

Lemma ls_tree_short_hash_witness :
  let bs := B "100644 a" ++ [NUL] ++ repeat x00 20
            ++ B "100644 cut" ++ [NUL] ++ [x01; x02] in
  exists sha fs',
    @write_object Plain.codec ∅ (U "tree") bs = Ok (sha, fs') /\
    @ls_tree Plain.codec fs' sha = Ok [U "a"; U "cut"].
Proof.
  intros bs.
  destruct (@write_then_read Plain.codec ∅ (U "tree") bs)
    as (sha & fs' & Hw & _ & Hr).
  { unfold direct_kinds. rewrite list_elem_of_In. simpl. tauto. }
  exists sha, fs'. split; [exact Hw|].
  apply (@ls_tree_short_hash Plain.codec fs' sha (U "tree")
           [(U "100644", U "a", sentinel)]
           (B "100644 a" ++ [NUL] ++ repeat x00 20)
           (U "100644") (U "cut") (B "100644") (B "cut") [x01; x02]).
  - apply List.Forall_cons; [|apply List.Forall_nil].
    split; [|split]; cbn [fst snd];
      [rewrite list_elem_of_In; cbn; intuition discriminate
      |rewrite list_elem_of_In; cbn; intuition discriminate
      |split; [reflexivity | repeat constructor]].
  - reflexivity.
  - reflexivity.
  - rewrite list_elem_of_In; cbn; intuition discriminate.
  - reflexivity.
  - rewrite list_elem_of_In; cbn; intuition discriminate.
  - cbn. lia.
  - exact Hr.
Defined.

(** *** Hidden children *)

Section Hidden.
Context {A : Type} (exclude_git : bool).

Let keeps (x : str * A) : Prop := Is_true (listed exclude_git x.1).

Lemma insert_hidden (x : str * A) (s : list (str * A)) :
  ~ keeps x -> filter keeps (insert_by_name x s) = filter keeps s.
Proof.
  intros Hx. induction s as [|y s IH]; cbn [insert_by_name].
  - rewrite filter_cons_False by exact Hx. reflexivity.
  - destruct (str_ltb y.1 x.1).
    + rewrite !filter_cons, IH. reflexivity.
    + rewrite (filter_cons_False _ x) by exact Hx. reflexivity.
Qed.

Lemma insert_before (x : str * A) (s : list (str * A)) :
  Forall (by_name x) s -> insert_by_name x s = x :: s.
Proof.
  destruct 1 as [|y s Hy _]; [reflexivity|].
  cbn [insert_by_name]. unfold by_name, str_le in Hy. rewrite Hy. reflexivity.
Qed.

Lemma insert_kept (x : str * A) (s : list (str * A)) :
  keeps x -> StronglySorted by_name s ->
  filter keeps (insert_by_name x s) = insert_by_name x (filter keeps s).
Proof.
  intros Hx. induction 1 as [|y s Hs IH Hy]; cbn [insert_by_name].
  - rewrite filter_cons_True by exact Hx. reflexivity.
  - destruct (str_ltb y.1 x.1) eqn:Hyx.
    + rewrite !filter_cons. destruct (decide (keeps y)).
      * cbn [insert_by_name]. rewrite Hyx, IH. reflexivity.
      * exact IH.
    + rewrite filter_cons_True by exact Hx.
      rewrite insert_before; [reflexivity|].
      assert (Hall : Forall (by_name x) (y :: s)).
      { constructor; [exact Hyx|].
        eapply Forall_impl; [exact Hy|]. intros z Hz.
        unfold by_name in *. eapply str_le_trans; [exact Hyx | exact Hz]. }
      apply Forall_forall. intros z Hz. apply list_elem_of_filter in Hz as [_ Hz].
      rewrite Forall_forall in Hall. apply Hall. exact Hz.
Qed.

Lemma visible_filter (l : list (str * A)) :
  visible exclude_git (filter keeps l) = visible exclude_git l.
Proof.
  unfold visible. fold keeps.
  induction l as [|x l IH]; [reflexivity|].
  rewrite filter_cons. destruct (decide (keeps x)) as [Hx|Hx].
  - cbn [sorted_by_name foldr].
    fold (sorted_by_name l). fold (sorted_by_name (filter keeps l)).
    rewrite !insert_kept by (first [exact Hx | apply sorted_by_name_sorted]).
    rewrite IH. reflexivity.
  - cbn [sorted_by_name foldr]. fold (sorted_by_name l).
    rewrite insert_hidden by exact Hx. exact IH.
Qed.

End Hidden.

(** X22.  The hash write_tree returns does not depend on the children whose
    name starts with a dot: the directory without them gives the same
    hash, whatever the store holds and whatever the codec. *)
Theorem hidden_children_ignored (z1 z2 : Zlib) (children : list (str * node))
    (name name' : str) (w w' : walk) :
  fst <$> @write_tree z1 (Dir children) name w
  = fst <$> @write_tree z2
              (Dir (filter (fun nc => startswith nc.1 (U ".") = false) children))
              name' w'.
Proof.
  assert (Hpure : forall (z : Zlib) p n w0,
            fst <$> @write_tree z p n w0 = entry_hash <$> tree_entry p n).
  { intros z p n w0. unfold write_tree.
    rewrite <- (@toEntry_pure z p n true w0).
    destruct (@toEntry z p n true w0) as [[e w1]|]; reflexivity. }
  rewrite !Hpure, !tree_entry_Dir.
  replace (filter (fun nc : str * node => startswith nc.1 (U ".") = false) children)
    with (filter (fun nc : str * node => Is_true (listed false nc.1)) children).
  2:{ apply list_filter_iff. intros nc. rewrite listed_dot.
      destruct (startswith nc.1 (U ".")); cbn; intuition congruence. }
  rewrite (visible_filter false children).
  destruct (collect _) as [es|]; [|reflexivity]. rewrite !bind_Ok.
  destruct (join_entries es); reflexivity.
Qed.

(** ** commit-tree, and the tree that the checkout reads off a commit *)

Section CommitTree.
Context `{Zlib}.

(** X24.  The tree that the checkout of clone reads off a commit written by
    commit-tree is the tree the commit was made of, when that is a hash of
    forty digits. *)
Theorem commit_tree_head (fs fs' : objects) (tree_sha commit_sha message sha : str) :
  is_hash tree_sha ->
  commit_tree fs tree_sha commit_sha message = Ok (sha, fs') ->
  head_tree fs' sha = Ok tree_sha.
Proof.
  intros [Hlen Hhex] Hrun. unfold commit_tree in Hrun.
  monad_inv Hrun. rename a into contents.
  destruct (write_then_read fs (U "commit") contents) as (sha' & fs1 & Hw & _ & Hr).
  { unfold direct_kinds. rewrite list_elem_of_In. simpl. tauto. }
  rewrite Hw in Hrun. injection Hrun as <- <-.
  unfold head_tree. rewrite Hr, bind_Ok.
  unfold commit_contents in Ha.
  monad_inv Ha. rename a into t. monad_inv Ha. monad_inv Ha.
  injection Ha as <-.
  assert (Ht : length t = 40).
  { rewrite encode_ascii in Ha0.
    - injection Ha0 as <-. rewrite length_map. exact Hlen.
    - eapply Forall_impl; [exact Hhex|]. intros c Hc.
      apply lower_hex_cases in Hc. lia. }
  rewrite slice_nonneg by lia.
  change (Z.to_nat 45 - Z.to_nat 5) with 40. change (Z.to_nat 5) with 5.
  cbn [concat B list_byte_of_string app drop].
  rewrite drop_0, <- !app_assoc, take_app_length' by (symmetry; exact Ht).
  apply decode_encode. exact Ha0.
Qed.

End CommitTree.

Lemma commit_tree_head_witness :
  exists sha fs',
    @commit_tree Plain.codec ∅ (U "4b825dc642cb6eb9a060e54bf8d69288fbee4904")
      (U "e69de29bb2d1d6434b8b29ae775ad8c2e48c5391") (U "first") = Ok (sha, fs') /\
    @head_tree Plain.codec fs' sha = Ok (U "4b825dc642cb6eb9a060e54bf8d69288fbee4904").
Proof.
  destruct (@write_then_read Plain.codec ∅ (U "commit")
              (B "tree 4b825dc642cb6eb9a060e54bf8d69288fbee4904" ++ [LF]
               ++ B "parent e69de29bb2d1d6434b8b29ae775ad8c2e48c5391" ++ [LF]
               ++ B "author ggzor <ggzor@example.com> 1714599041 -0600" ++ [LF]
               ++ B "committer ggzor <ggzor@example.com> 1714599041 -0600"
               ++ [LF; LF] ++ B "first" ++ [LF]))
    as (sha & fs' & Hw & _ & _).
  { unfold direct_kinds. rewrite list_elem_of_In. simpl. tauto. }
  exists sha, fs'.
  assert (Hrun : @commit_tree Plain.codec ∅
                   (U "4b825dc642cb6eb9a060e54bf8d69288fbee4904")
                   (U "e69de29bb2d1d6434b8b29ae775ad8c2e48c5391") (U "first")
                 = Ok (sha, fs')) by exact Hw.
  split; [exact Hrun|].
  apply (@commit_tree_head Plain.codec ∅ fs'
           (U "4b825dc642cb6eb9a060e54bf8d69288fbee4904")
           (U "e69de29bb2d1d6434b8b29ae775ad8c2e48c5391") (U "first") sha);
    [|exact Hrun].
  split; [reflexivity | repeat constructor].
Defined.

(** ** From the response to the store *)

Lemma unpack_be32_written (n : Z) :
  (0 <= n < 4294967296)%Z -> unpack_be32 (be32 n) = Ok n.
Proof.
  intros Hn. unfold unpack_be32, be32. cbn [map length].
  destruct (decide (4 = 4)) as [_|]; [|contradiction].
  f_equal. unfold be_value. cbn [fold_left].
  rewrite !byte_to_of_Z_small by (apply Z.mod_pos_bound; lia).
  div_lia.
Qed.

Section Response.
Context `{Zlib}.
Hypothesis stream :
  forall x r : bytes, decompressobj (compress x ++ r) = Some (x, r).

(** X18.  The whole path from the response body to the store.  For a framed
    response whose lines after the first carry, behind one byte each, a
    pack of entries of the four kinds, the store ends as write_object
    leaves it for each entry in turn.  The first line, the first byte of
    every other line, the first eight bytes of the pack and what follows
    the last entry are not looked at. *)
Theorem unpack_response_direct (fs : objects) (first : bytes)
    (chunks : list (byte * bytes)) (magic trailer rest : bytes)
    (es : list (Z * Z * bytes)) (fuel : nat) :
  let payloads := first :: map (fun c => c.1 :: c.2) chunks in
  Forall (fun p => (Z.of_nat (length p) + 4 < 65536)%Z) payloads ->
  length payloads < fuel ->
  length magic = 8 ->
  (Z.of_nat (length es) < 4294967296)%Z ->
  Forall (fun e => (1 <= e.1.1 <= 4)%Z /\ (0 <= e.1.2)%Z) es ->
  concat (map snd chunks)
  = magic ++ be32 (Z.of_nat (length es)) ++ concat (map packed_entry es)
    ++ trailer ->
  exists fs',
    write_each fs es = Ok fs' /\
    unpack_response fuel fs (concat (map pkt_line payloads) ++ flush_pkt ++ rest)
    = Some (Ok (fs', trailer, map (fun e => type_map e.1.1) es)).
Proof.
  intros payloads Hlines Hfuel Hmagic Hcount Hes Hpack.
  destruct (pack_entries_written stream es fs trailer [] Hes) as (fs' & Hw & Hrun).
  exists fs'. split; [exact Hw|].
  unfold unpack_response.
  rewrite (pkt_lines_framed payloads rest fuel [] Hlines Hfuel).
  cbn [app]. unfold pack_stream, payloads. cbn [drop].
  rewrite drop_0, map_map. cbn [drop fst snd].
  replace (map (fun x : byte * bytes => drop 0 x.2) chunks) with (map snd chunks)
    by (apply map_ext; intros c; rewrite drop_0; reflexivity).
  rewrite Hpack, drop_app_length' by (symmetry; exact Hmagic).
  rewrite take_app_length', drop_app_length' by reflexivity.
  rewrite unpack_be32_written, bind_Ok by lia.
  rewrite Nat2Z.id. f_equal. exact Hrun.
Qed.

End Response.

(** A response of three lines: the pack of two entries comes in two pieces,
    the second behind the byte of another band. *)
Lemma unpack_response_direct_witness :
  let es := [(3, 5, B "hello"); (1, 0, B "c")]%Z in
  let chunks :=
    [(x01, B "PACK" ++ [x00; x00; x00; x02] ++ be32 2);
     (x02, concat (map (@packed_entry Plain.codec) es) ++ B "sum")] in
  exists fs',
    @write_each Plain.codec ∅ es = Ok fs' /\
    @unpack_response Plain.codec 10 ∅
      (concat (map pkt_line (B "packfile" :: map (fun c => c.1 :: c.2) chunks))
       ++ flush_pkt ++ [])
    = Some (Ok (fs', B "sum", [U "blob"; U "commit"])).
Proof.
  intros es chunks.
  apply (@unpack_response_direct Plain.codec Plain_stream ∅ (B "packfile") chunks
           (B "PACK" ++ [x00; x00; x00; x02]) (B "sum") [] es 10).
  - repeat (apply List.Forall_cons; [cbn; lia|]). apply List.Forall_nil.
  - cbn. lia.
  - reflexivity.
  - cbn. lia.
  - repeat (apply List.Forall_cons; [cbn; lia|]). apply List.Forall_nil.
  - reflexivity.
Defined.

Example sha1_empty_tree :
  SHA1.hexdigest (object_bytes (B "tree") [])
  = U "4b825dc642cb6eb9a060e54bf8d69288fbee4904".
Proof. vm_compute. reflexivity. Qed.

Lemma visible_hidden {A} (exclude_git : bool) (l : list (str * A)) :
  Forall (fun nc => startswith nc.1 (U ".") = true) l ->
  visible exclude_git l = [].
Proof.
  intros Hall. destruct (visible exclude_git l) as [|x v] eqn:E; [reflexivity|].
  assert (Hx : x ∈ visible exclude_git l) by (rewrite E; left).
  apply visible_subset in Hx as [Hx Hdot].
  rewrite Forall_forall in Hall. rewrite (Hall x Hx) in Hdot. discriminate.
Qed.

(** X23.  A directory that holds nothing, or only children whose name starts
    with a dot, is not left out of its parent: it gets an entry of mode
    40000 whose hash is that of the tree without entries, and that tree
    is written. *)
Theorem hidden_only_empty_tree (z : Zlib) (children : list (str * node))
    (name : str) (exclude_git : bool) (w : walk) :
  Forall (fun nc => startswith nc.1 (U ".") = true) children ->
  exists fs',
    toEntry (Dir children) name exclude_git w
    = Ok ((U "40000", name, U "4b825dc642cb6eb9a060e54bf8d69288fbee4904"),
          Walk fs' (warned w)) /\
    read_object fs' (U "4b825dc642cb6eb9a060e54bf8d69288fbee4904")
    = Ok (U "tree", []).
Proof.
  intros Hall. rewrite toEntry_Dir, (visible_hidden false children Hall).
  cbn [map run_entries]. rewrite bind_Ok. cbn [join_entries]. rewrite bind_Ok.
  rewrite write_object_tree, bind_Ok, sha1_empty_tree. eexists. split; [reflexivity|].
  cbn [store].
  rewrite (read_object_fields _ _ (compress (object_bytes (B "tree") []))
             (B "tree") (decimal 0) []).
  - reflexivity.
  - apply lookup_insert_eq.
  - rewrite decompress_compress. reflexivity.
  - rewrite list_elem_of_In. cbn. intuition discriminate.
  - rewrite list_elem_of_In. cbn. intuition discriminate.
  - rewrite list_elem_of_In. cbn. intuition discriminate.
  - rewrite list_elem_of_In. cbn. intuition discriminate.
Qed.

Lemma hidden_only_empty_tree_witness :
  exists fs',
    @toEntry Plain.codec (Dir [(U ".keep", File (Some (B "x")))]) (U "logs") false
      (Walk ∅ [])
    = Ok ((U "40000", U "logs", U "4b825dc642cb6eb9a060e54bf8d69288fbee4904"),
          Walk fs' []) /\
    @read_object Plain.codec fs' (U "4b825dc642cb6eb9a060e54bf8d69288fbee4904")
    = Ok (U "tree", []).
Proof.
  apply (hidden_only_empty_tree Plain.codec [(U ".keep", File (Some (B "x")))]
           (U "logs") false (Walk ∅ [])).
  apply List.Forall_cons; [reflexivity | apply List.Forall_nil].
Defined.

(** *** From the advertisement to the request *)

Lemma dict_set_fresh (d : list (str * str)) (k v : str) :
  k ∉ map fst d -> dict_set d k v = d ++ [(k, v)].
Proof.
  induction d as [|[k' v'] d IH]; intros Hk; [reflexivity|].
  cbn [map fst] in Hk. apply not_elem_of_cons in Hk as [Hne Hk].
  cbn [dict_set]. rewrite bool_decide_false by congruence.
  rewrite (IH Hk). reflexivity.
Qed.

Lemma map_byte_to_Z_inj (a b : bytes) :
  map byte_to_Z a = map byte_to_Z b -> a = b.
Proof.
  assert (Hback : forall l : bytes, map byte_of_Z (map byte_to_Z l) = l).
  { intros l. induction l as [|c l IH]; [reflexivity|].
    cbn [map]. rewrite byte_of_to_Z, IH. reflexivity. }
  intros E. apply (f_equal (map byte_of_Z)) in E.
  rewrite !Hback in E. exact E.
Qed.

Lemma record_refs_fresh (refs : list (bytes * bytes)) (d : list (str * str)) :
  NoDup (map fst d ++ map (fun r => map byte_to_Z r.2) refs) ->
  fold_left record_ref refs d
  = d ++ map (fun r => (map byte_to_Z r.2, map byte_to_Z r.1)) refs.
Proof.
  revert d. induction refs as [|r refs IH]; intros d Hnd.
  - cbn. rewrite app_nil_r. reflexivity.
  - cbn [fold_left map]. unfold record_ref at 2.
    cbn [map] in Hnd. apply NoDup_app in Hnd as (Hd & Hcross & Hrefs).
    apply NoDup_cons in Hrefs as [Hr Hrefs].
    rewrite dict_set_fresh by (intros Hin; apply (Hcross _ Hin); left).
    rewrite IH.
    + rewrite <- app_assoc. reflexivity.
    + rewrite map_app. cbn [map fst]. rewrite <- app_assoc. cbn [app].
      apply NoDup_app. repeat split.
      * exact Hd.
      * intros k Hk Hin. apply elem_of_cons in Hin as [-> | Hin].
        -- apply (Hcross _ Hk). left.
        -- apply (Hcross _ Hk). right. exact Hin.
      * apply NoDup_cons. split; assumption.
Qed.

(** X14.  From the advertisement to the request.  For an advertisement of
    HEAD and of refs with different names, all with hashes of forty digits,
    the request built from the refs read off it asks for the hash of HEAD
    and then for the hash of every ref in the order advertised, one want
    line each, a hash advertised under two names twice. *)
Theorem advert_to_request (head_sha caps : bytes) (refs : list (bytes * bytes)) :
  hex_bytes head_sha -> length head_sha = 40 -> LF ∉ caps ->
  Forall plain_ref refs -> Forall (fun r => length r.1 = 40) refs ->
  NoDup (map snd refs) ->
  (parse_refs (advert head_sha caps refs) ≫= fetch_body)
  = Ok (pkt_line (B "command=fetch") ++ B "0001" ++ pkt_line (B "no-progress")
        ++ concat (map (fun sha => pkt_line (B "want " ++ sha ++ [LF]))
                       (head_sha :: map fst refs))
        ++ pkt_line (B "done" ++ [LF]) ++ flush_pkt).
Proof.
  intros Hhead Hlen Hcaps Hrefs Hlens Hnd.
  rewrite (parse_refs_advert_eq head_sha caps refs Hhead Hcaps Hrefs), bind_Ok.
  rewrite record_refs_fresh.
  2:{ cbn [map fst app]. apply NoDup_cons. split.
      - intros Hin. apply list_elem_of_fmap in Hin as (r & Hname & Hr).
        rewrite Forall_forall in Hrefs.
        destruct (Hrefs r Hr) as (_ & _ & _ & Hend).
        change (U "HEAD") with (map byte_to_Z (B "HEAD")) in Hname.
        apply map_byte_to_Z_inj in Hname. rewrite <- Hname in Hend.
        discriminate Hend.
      - rewrite <- (map_map snd (map byte_to_Z)).
        apply NoDup_fmap_2; [|exact Hnd].
        intros a b. apply map_byte_to_Z_inj. }
  unfold fetch_body. cbn [app map snd].
  rewrite map_map. cbn [snd].
  rewrite (join_wants_hashes (map byte_to_Z head_sha
                              :: map (fun r => map byte_to_Z r.1) refs)).
  2:{ constructor.
      - destruct Hhead as [_ Hhex]. split; [rewrite length_map; exact Hlen|].
        apply Forall_map. exact Hhex.
      - apply Forall_map. rewrite Forall_forall in Hrefs, Hlens |- *.
        intros r Hr. destruct (Hrefs r Hr) as ([_ Hhex] & _).
        split; [rewrite length_map; apply Hlens; exact Hr|].
        apply Forall_map. exact Hhex. }
  rewrite bind_Ok.
  assert (Hback : forall l : bytes, map byte_of_Z (map byte_to_Z l) = l).
  { intros l. induction l as [|c l IH]; [reflexivity|].
    cbn [map]. rewrite byte_of_to_Z, IH. reflexivity. }
  assert (Hwants :
    concat (map (fun sha : str => pkt_line (B "want " ++ map byte_of_Z sha ++ [LF]))
                (map byte_to_Z head_sha
                 :: map (fun r : bytes * bytes => map byte_to_Z r.1) refs))
    = concat (map (fun sha : bytes => pkt_line (B "want " ++ sha ++ [LF]))
                  (head_sha :: map fst refs))).
  { cbn [map concat]. rewrite Hback, !map_map. do 2 f_equal.
    apply map_ext. intros r. rewrite Hback. reflexivity. }
  rewrite Hwants. reflexivity.
Qed.

Lemma advert_to_request_witness :
  let head := B "5f3c1a9be27d40886c0e4a1b7f92d3e5a6b8c0d1" in
  let refs := [(B "5f3c1a9be27d40886c0e4a1b7f92d3e5a6b8c0d1", B "refs/heads/main");
               (B "0a1b2c3d4e5f60718293a4b5c6d7e8f901234567", B "refs/tags/v1")] in
  (parse_refs (advert head (B "multi_ack") refs) ≫= fetch_body)
  = Ok (B "0011command=fetch0001000fno-progress"
        ++ B "0032want 5f3c1a9be27d40886c0e4a1b7f92d3e5a6b8c0d1" ++ [LF]
        ++ B "0032want 5f3c1a9be27d40886c0e4a1b7f92d3e5a6b8c0d1" ++ [LF]
        ++ B "0032want 0a1b2c3d4e5f60718293a4b5c6d7e8f901234567" ++ [LF]
        ++ B "0009done" ++ [LF] ++ B "0000").
Proof.
  intros head refs.
  apply (advert_to_request head (B "multi_ack") refs).
  - split; [discriminate | repeat constructor].
  - reflexivity.
  - rewrite list_elem_of_In. cbn. intuition discriminate.
  - repeat apply List.Forall_cons; [| |apply List.Forall_nil];
      (split; [split; [discriminate | repeat constructor]|]);
      (split; [repeat split; rewrite list_elem_of_In; cbn; intuition discriminate|]);
      (split; [repeat constructor | reflexivity]).
  - repeat (apply List.Forall_cons; [reflexivity|]). apply List.Forall_nil.
  - apply (bool_decide_unpack _). vm_compute. exact I.
Defined.

(** ** render_tree on a tree without directories *)

Lemma render_item_written (m n h : str) (mb nb b rest : bytes) :
  plain_entry (m, n, h) -> encode m = Ok mb -> encode n = Ok nb ->
  entry_bytes (m, n, h) = Ok b ->
  render_item (b ++ rest) = Ok (mb, nb, h, rest).
Proof.
  intros (Hm & Hn & Hlen & Hhex) Hmb Hnb Hb. cbn [fst snd] in *.
  cbn [entry_bytes] in Hb. rewrite Hmb, Hnb, !bind_Ok in Hb.
  monad_inv Hb. rename a into hb. injection Hb as <-.
  destruct (fromhex_lower 20 h Hlen Hhex) as (hb' & Hhb & Hlb & Hback).
  rewrite Hhb in Ha. injection Ha as ->.
  unfold render_item.
  match goal with
  | |- context [split_once SP ?x] =>
      replace x with (mb ++ SP :: (nb ++ NUL :: (hb ++ rest)))
        by (rewrite <- !app_assoc; cbn [app]; rewrite <- ?app_assoc;
            reflexivity)
  end.
  rewrite split_once_first
    by (rewrite (encode_low m mb SP Hmb) by reflexivity; exact Hm).
  cbn [unpack2]. rewrite bind_Ok.
  rewrite split_once_first
    by (rewrite (encode_low n nb NUL Hnb) by reflexivity; exact Hn).
  cbn [unpack2]. rewrite bind_Ok.
  rewrite take_app_length', drop_app_length' by (symmetry; exact Hlb).
  rewrite Hback. reflexivity.
Qed.

Lemma mode_text (m : str) (mb : bytes) (lit : string) :
  encode m = Ok mb -> encode (U lit) = Ok (B lit) ->
  mb = B lit <-> m = U lit.
Proof.
  intros Hm Hlit. split.
  - intros ->. apply decode_encode in Hm, Hlit. congruence.
  - intros ->. congruence.
Qed.

Section Checkout.
Context `{Zlib} `{Worktree}.

Lemma render_entries_flat
    (render : files -> path -> str -> option (result files))
    (es : list entry) (bs : bytes) (fuel : nat) (t : files) (dir : path) :
  Forall plain_entry es -> Forall (fun e => entry_mode e <> U "40000") es ->
  join_entries es = Ok bs -> length es <= fuel ->
  render_entries render fuel t dir bs = Some (write_files t dir es).
Proof.
  intros Hall. revert bs fuel t.
  induction Hall as [|e es He _ IH]; intros bs fuel t Hmodes Hj Hfuel.
  - injection Hj as <-. destruct fuel; reflexivity.
  - apply Forall_cons in Hmodes as [Hmode Hmodes].
    destruct e as [[m n] h].
    cbn [join_entries] in Hj. monad_inv Hj. rename a into b, Ha into Hb.
    monad_inv Hj. rename a into bs', Ha into Hbs'. injection Hj as <-.
    destruct fuel as [|fuel]; [cbn in Hfuel; lia|].
    pose proof Hb as Hb2. cbn [entry_bytes] in Hb2.
    monad_inv Hb2. rename a into mb, Ha into Hmb.
    monad_inv Hb2. rename a into nb, Ha into Hnb.
    monad_inv Hb2. injection Hb2 as Hbeq.
    assert (Hne : b <> []) by (rewrite <- Hbeq; destruct mb; discriminate).
    destruct b as [|b0 b']; [contradiction|].
    cbn [render_entries app]. change (b0 :: b' ++ bs') with ((b0 :: b') ++ bs').
    rewrite (render_item_written m n h mb nb (b0 :: b') bs' He Hmb Hnb Hb).
    cbn [entry_mode entry_name entry_hash fst snd write_files] in *.
    rewrite bool_decide_false
      by (rewrite (mode_text m mb "40000" Hmb eq_refl); exact Hmode).
    rewrite (bool_decide_ext (mb = B "100644") (m = U "100644"))
      by (apply (mode_text m mb "100644" Hmb eq_refl)).
    case_bool_decide as Hfile.
    + destruct (read_object (stored t) h) as [[kind content]|e]; [|reflexivity].
      rewrite !bind_Ok, (decode_encode n nb Hnb), bind_Ok.
      destruct (write_bytes (child dir n) content t) as [t'|e]; [|reflexivity].
      rewrite bind_Ok. apply IH; [exact Hmodes | exact Hbs' | cbn in Hfuel; lia].
    + apply IH; [exact Hmodes | exact Hbs' | cbn in Hfuel; lia].
Qed.

(** X25.  The checkout of a tree without directories: after the mkdir,
    render_tree writes one file for each entry of mode 100644, in the
    order of the tree, with the contents read for its hash; every entry of
    another mode (100755, 120000, 160000, ...) is passed over: nothing is
    read for it, nothing is written, and nothing is raised. *)
Theorem render_flat_tree (t t1 : files) (dir : path) (sha kind : str)
    (es : list entry) (bs : bytes) (depth : nat) :
  Forall plain_entry es -> Forall (fun e => entry_mode e <> U "40000") es ->
  join_entries es = Ok bs ->
  mkdir dir t = Ok t1 -> read_object (stored t1) sha = Ok (kind, bs) ->
  render_tree (S depth) t dir sha = Some (write_files t1 dir es).
Proof.
  intros Hall Hmodes Hj Hmk Hread. cbn [render_tree].
  rewrite Hmk, Hread.
  apply render_entries_flat; try assumption.
  apply join_entries_length. exact Hj.
Qed.

End Checkout.

Lemma flat_tree_read :
  @read_object Plain.codec flat_store (U "aaaaaaaaaaaaaaaaaaaaaaaaaaaaaaaaaaaaaaaa")
  = Ok (U "tree", flat_bytes).
Proof.
  rewrite (@read_object_fields Plain.codec flat_store _
             (Plain.deflate (B "tree 91" ++ [NUL] ++ flat_bytes))
             (B "tree") (B "91") flat_bytes).
  - reflexivity.
  - apply lookup_insert_eq.
  - apply (@decompress_compress Plain.codec).
  - rewrite list_elem_of_In. cbn. intuition discriminate.
  - rewrite list_elem_of_In. cbn. intuition discriminate.
  - rewrite list_elem_of_In. cbn. intuition discriminate.
  - rewrite list_elem_of_In. cbn. intuition discriminate.
Qed.

Lemma flat_blob_read :
  @read_object Plain.codec flat_store (U "e69de29bb2d1d6434b8b29ae775ad8c2e48c5391")
  = Ok (U "blob", []).
Proof.
  rewrite (@read_object_fields Plain.codec flat_store _
             (Plain.deflate (B "blob 0" ++ [NUL])) (B "blob") (B "0") []).
  - reflexivity.
  - unfold flat_store. rewrite lookup_insert_ne by discriminate.
    apply lookup_insert_eq.
  - apply (@decompress_compress Plain.codec).
  - rewrite list_elem_of_In. cbn. intuition discriminate.
  - rewrite list_elem_of_In. cbn. intuition discriminate.
  - rewrite list_elem_of_In. cbn. intuition discriminate.
  - rewrite list_elem_of_In. cbn. intuition discriminate.
Qed.

(** Of the three entries the file alone is written. *)
Example flat_files_written :
  @write_files Plain.codec Listed.worktree (flat_store, []) [] flat_entries
  = Ok (flat_store, [([U "a"], [])]).
Proof.
  unfold flat_entries.
  cbn [write_files entry_mode entry_name entry_hash fst snd].
  rewrite bool_decide_false by discriminate.
  rewrite bool_decide_true by reflexivity.
  cbn [stored Listed.worktree fst].
  rewrite flat_blob_read, !bind_Ok.
  rewrite bool_decide_false by discriminate. reflexivity.
Qed.

Lemma render_flat_tree_witness :
  @render_tree Plain.codec Listed.worktree 1 (flat_store, []) []
    (U "aaaaaaaaaaaaaaaaaaaaaaaaaaaaaaaaaaaaaaaa")
  = Some (@write_files Plain.codec Listed.worktree (flat_store, []) []
            flat_entries).
Proof.
  apply (@render_flat_tree Plain.codec Listed.worktree (flat_store, [])
           (flat_store, []) [] (U "aaaaaaaaaaaaaaaaaaaaaaaaaaaaaaaaaaaaaaaa")
           (U "tree") flat_entries flat_bytes 0).
  - repeat (apply List.Forall_cons;
            [split; [|split]; cbn [fst snd];
             [rewrite list_elem_of_In; cbn; intuition discriminate
             |rewrite list_elem_of_In; cbn; intuition discriminate
             |split; [reflexivity | repeat constructor]]|]).
    apply List.Forall_nil.
  - repeat (apply List.Forall_cons; [discriminate|]). apply List.Forall_nil.
  - reflexivity.
  - reflexivity.
  - exact flat_tree_read.
Defined.

(** * The pack stream and its entries *)

Section Consumed.
Context `{Zlib}.
Hypothesis stream :
  forall x r : bytes, decompressobj (compress x ++ r) = Some (x, r).

(** One pass of the loop takes the bytes of one entry, no more and no
    less. *)
Lemma pack_entry_item (fs : objects) (i : pack_item) (rest : bytes) :
  item_ok i ->
  pack_entry fs (item_bytes i ++ rest)
  = (fs' ← store_item fs i; Ok (fs', rest, item_kind i)).
Proof.
  destruct i as [ty declared content | declared base delta]; cbn [item_ok].
  - intros [Hty Hn]. cbn [item_bytes store_item item_kind].
    rewrite (pack_entry_direct_eq stream) by assumption.
    destruct (write_object fs (type_map ty) content) as [[sha fs']|e];
      reflexivity.
  - intros [Hn Hlen]. cbn [item_bytes store_item item_kind].
    rewrite (pack_entry_delta_eq stream) by assumption.
    destruct (read_object fs (hexlify base)) as [[kind base_content]|e];
      [|reflexivity].
    rewrite !bind_Ok.
    destruct (resolve_delta base_content delta) as [target|e]; [|reflexivity].
    rewrite !bind_Ok.
    destruct (write_object fs (U "blob") target) as [[sha fs']|e]; reflexivity.
Qed.

Lemma pack_entries_items (items : list pack_item) (fs : objects)
    (rest : bytes) (seen : list str) :
  Forall item_ok items ->
  pack_entries (length items) fs (concat (map item_bytes items) ++ rest) seen
  = (fs' ← store_items fs items;
     Ok (fs', rest, seen ++ map item_kind items)).
Proof.
  intros Hall. revert fs seen.
  induction Hall as [|i items Hi _ IH]; intros fs seen.
  - cbn. rewrite app_nil_r. reflexivity.
  - cbn [length map concat pack_entries store_items].
    rewrite <- app_assoc, (pack_entry_item fs i _ Hi).
    destruct (store_item fs i) as [fs1|e]; [|reflexivity].
    rewrite !bind_Ok, IH, <- app_assoc. reflexivity.
Qed.

End Consumed.

(** C6.  For a response body made of data lines and the line of length
    zero, the loop over pack_bytes yields the payloads of the lines; the
    pack stream is the payloads after the first, each without its first
    byte, joined, without the first eight bytes; its first four bytes are
    the object count N, most significant byte first.  When N entries follow
    the count, each of a kind the loop has a branch for, the entry loop
    consumes exactly these N entries: it does for each in turn what the
    entry asks for, reports their kinds in order, and leaves the bytes
    after the N-th entry, all of them and nothing else, unread.  In any
    case a loop that runs to its end has made N passes. *)
Theorem pack_stream_demux (z : Zlib) (fs : objects) (payloads : list bytes)
    (rest : bytes) (fuel : nat) :
  Forall (fun p => (Z.of_nat (length p) + 4 < 65536)%Z) payloads ->
  length payloads < fuel ->
  let body := concat (map pkt_line payloads) ++ flush_pkt ++ rest in
  let raw := drop 8 (concat (map (drop 1) (drop 1 payloads))) in
  pkt_lines fuel body [] = Some (Ok payloads) /\
  unpack_response fuel fs body
  = Some (n_objs ← unpack_be32 (take 4 raw);
          pack_entries (Z.to_nat n_objs) fs (drop 4 raw) []) /\
  (forall (items : list pack_item) (trailer : bytes),
      (forall x r : bytes, decompressobj (compress x ++ r) = Some (x, r)) ->
      Forall item_ok items ->
      (Z.of_nat (length items) < 4294967296)%Z ->
      raw = be32 (Z.of_nat (length items))
            ++ concat (map item_bytes items) ++ trailer ->
      unpack_response fuel fs body
      = Some (fs' ← store_items fs items;
              Ok (fs', trailer, map item_kind items))) /\
  (forall fs' unread seen,
      unpack_response fuel fs body = Some (Ok (fs', unread, seen)) ->
      exists b3 b2 b1 b0,
        take 4 raw = [b3; b2; b1; b0] /\
        Z.of_nat (length seen)
        = (((byte_to_Z b3 * 256 + byte_to_Z b2) * 256 + byte_to_Z b1) * 256
           + byte_to_Z b0)%Z).
Proof.
  intros Hall Hfuel body raw.
  assert (Hlines : pkt_lines fuel body [] = Some (Ok payloads))
    by (apply pkt_lines_framed; assumption).
  assert (Hrun : unpack_response fuel fs body
                 = Some (n_objs ← unpack_be32 (take 4 raw);
                         pack_entries (Z.to_nat n_objs) fs (drop 4 raw) []))
    by (unfold unpack_response; rewrite Hlines; reflexivity).
  split; [exact Hlines|]. split; [exact Hrun|]. split.
  - intros items trailer Hstream Hitems Hcount Hraw.
    rewrite Hrun, Hraw.
    rewrite take_app_length', drop_app_length' by reflexivity.
    rewrite unpack_be32_written, bind_Ok, Nat2Z.id by lia.
    rewrite (pack_entries_items Hstream items fs trailer [] Hitems).
    reflexivity.
  - intros fs' unread seen Hok. rewrite Hrun in Hok. injection Hok as Hok.
    monad_inv Hok. rename a into n_objs.
    destruct (unpack_be32_value _ _ Ha) as (b3 & b2 & b1 & b0 & Hbs & Hn).
    exists b3, b2, b1, b0. split; [exact Hbs|].
    apply pack_entries_seen in Hok. cbn [length] in Hok.
    pose proof (byte_to_Z_range b3). pose proof (byte_to_Z_range b2).
    pose proof (byte_to_Z_range b1). pose proof (byte_to_Z_range b0). lia.
Qed.

Example response_items :
  drop 8 (concat (map (drop 1) (drop 1 response_lines)))
  = be32 2
    ++ concat (map (@item_bytes Plain.codec)
                 [Direct 3 2 (B "hi");
                  Direct 1 17 (B "tree 4b825dc642cb6eb9a060e54bf8")])
    ++ [].
Proof. reflexivity. Qed.

(** C6 on that response, into an empty store: the blob and the commit are
    consumed, no byte is left, and the two passes are counted. *)
Lemma pack_stream_demux_witness :
  let body := concat (map pkt_line response_lines) ++ flush_pkt ++ [] in
  let raw := drop 8 (concat (map (drop 1) (drop 1 response_lines))) in
  let items := [Direct 3 2 (B "hi");
                Direct 1 17 (B "tree 4b825dc642cb6eb9a060e54bf8")] in
  pkt_lines 4 body [] = Some (Ok response_lines) /\
  @unpack_response Plain.codec 4 ∅ body
  = Some (n_objs ← unpack_be32 (take 4 raw);
          @pack_entries Plain.codec (Z.to_nat n_objs) ∅ (drop 4 raw) []) /\
  @unpack_response Plain.codec 4 ∅ body
  = Some (fs' ← @store_items Plain.codec ∅ items;
          Ok (fs', [], [U "blob"; U "commit"])) /\
  (forall fs' unread seen,
      @unpack_response Plain.codec 4 ∅ body = Some (Ok (fs', unread, seen)) ->
      length seen = 2).
Proof.
  intros body raw items.
  destruct (pack_stream_demux Plain.codec ∅ response_lines [] 4)
    as (Hlines & Hrun & Hitems & Hcount).
  - repeat (apply List.Forall_cons; [reflexivity|]). apply List.Forall_nil.
  - cbn [length response_lines]. lia.
  - split; [exact Hlines|]. split; [exact Hrun|]. split.
    + apply (Hitems items []).
      * exact Plain_stream.
      * repeat (apply List.Forall_cons; [cbn; lia|]). apply List.Forall_nil.
      * cbn. lia.
      * exact response_items.
    + intros fs' unread seen Hok.
      destruct (Hcount fs' unread seen Hok) as (b3 & b2 & b1 & b0 & Hbs & Hn).
      injection Hbs as <- <- <- <-. cbn in Hn. lia.
Defined.

(** * Which failures are raised *)



